(** * Site-Report backend: report creation, AI analysis and PDF assembly

    A shallow embedding of [Backend/index.js] (the version that defines
    [generateFormattedPDF]) together with the properties of the report
    pipeline: creation bounds, analysis, patching, narrative parsing,
    field extraction and the PDF call trace. *)

From Stdlib Require Import String Ascii List NArith ZArith QArith Lia Bool Arith.
From Stdlib Require Import DecimalString DecimalNat.
Import ListNotations.

Close Scope Q_scope.
Open Scope nat_scope.
Open Scope list_scope.


(** ** JavaScript strings

    A JavaScript string is a sequence of UTF-16 code units.  The backend
    only compares, searches and slices strings, so a code unit is kept as a
    plain number. *)

Module JsString.

Definition code_unit := N.
Definition jsstring := list code_unit.

(** A string literal of the source (ASCII text). *)
Definition js (s : string) : jsstring :=
  map N_of_ascii (list_ascii_of_string s).

Definition LF : code_unit := 10%N.

Definition jsstring_eqb (a b : jsstring) : bool :=
  if list_eq_dec N.eq_dec a b then true else false.

(** [WhiteSpace] and [LineTerminator] of ECMAScript: what [trim] removes
    and what [\s] matches. *)
Definition isWhiteSpace (c : code_unit) : bool :=
  existsb (N.eqb c)
    [9; 10; 11; 12; 13; 32; 160; 5760; 8232; 8233; 8239; 8287; 12288; 65279]%N
  || (8192 <=? c)%N && (c <=? 8202)%N.

(** [\d] without the unicode flag: the ten ASCII digits. *)
Definition isDigit (c : code_unit) : bool :=
  (48 <=? c)%N && (c <=? 57)%N.

Fixpoint trimStart (s : jsstring) : jsstring :=
  match s with
  | c :: s' => if isWhiteSpace c then trimStart s' else s
  | [] => []
  end.

Definition trimEnd (s : jsstring) : jsstring :=
  rev (trimStart (rev s)).

Definition trim (s : jsstring) : jsstring := trimEnd (trimStart s).

Fixpoint startsWith (p s : jsstring) : bool :=
  match p, s with
  | [], _ => true
  | a :: p', b :: s' => N.eqb a b && startsWith p' s'
  | _ :: _, [] => false
  end.

(** [s.includes(p)] *)
Fixpoint includes (p s : jsstring) : bool :=
  startsWith p s ||
  match s with
  | [] => false
  | _ :: s' => includes p s'
  end.

(** [s.substring(a, b)] for [a <= b]. *)
Definition substring (a b : nat) (s : jsstring) : jsstring :=
  firstn (b - a) (skipn a s).

(** [s.split(sep)] for a non-empty separator.  [skip] counts the code
    units of a separator occurrence still to be stepped over, [cur] is
    the piece being read, reversed. *)
Fixpoint split_go (sep : jsstring) (skip : nat) (cur s : jsstring)
  : list jsstring :=
  match s with
  | [] => [rev cur]
  | c :: s' =>
      match skip with
      | S k => split_go sep k cur s'
      | O =>
          if startsWith sep s
          then rev cur :: split_go sep (length sep - 1) [] s'
          else split_go sep 0 (c :: cur) s'
      end
  end.

Definition split (sep s : jsstring) : list jsstring :=
  split_go sep 0 [] s.

(** [s.replace(/\*/g, '')] *)
Definition removeAsterisks (s : jsstring) : jsstring :=
  filter (fun c => negb (N.eqb c 42)) s.

(** Decimal rendering of an array index inside a template literal. *)
Definition ofNat (n : nat) : jsstring :=
  js (NilEmpty.string_of_uint (Nat.to_uint n)).

(** [n.toString()] for a non-negative integer. *)
Definition ofN (n : N) : jsstring :=
  js (NilEmpty.string_of_uint (N.to_uint n)).

End JsString.

Import JsString.


(** ** Narrative parsing

    The regular expressions of [generateFormattedPDF], written as the
    matchers they denote. *)

Module Narrative.

(** Canonicalisation of the [i] flag, as it bears on the ASCII letters of
    a pattern: a code unit matches a pattern letter when both have the
    same upper-case form; no code unit above 127 canonicalises to an
    ASCII letter. *)
Definition canonicalize (c : code_unit) : code_unit :=
  if (97 <=? c)%N && (c <=? 122)%N then (c - 32)%N else c.

Fixpoint matchIgnoreCase (p s : jsstring) : option jsstring :=
  match p, s with
  | [], _ => Some s
  | a :: p', b :: s' =>
      if N.eqb (canonicalize a) (canonicalize b)
      then matchIgnoreCase p' s' else None
  | _ :: _, [] => None
  end.

(** Longest prefix of code units satisfying [f], and what follows. *)
Fixpoint span (f : code_unit -> bool) (s : jsstring) : jsstring * jsstring :=
  match s with
  | c :: s' =>
      if f c then let (a, b) := span f s' in (c :: a, b) else ([], s)
  | [] => ([], [])
  end.

(** [/Photo\s+\d+:/i] anchored at the head of [s]: the length of the
    match.  The character classes of consecutive atoms are disjoint, so
    the greedy match is the only one. *)
Definition photoPattern (s : jsstring) : option nat :=
  match matchIgnoreCase (js "Photo") s with
  | None => None
  | Some r1 =>
      let (ws, r2) := span isWhiteSpace r1 in
      let (ds, r3) := span isDigit r2 in
      match ws, ds, r3 with
      | _ :: _, _ :: _, c :: _ =>
          if N.eqb c 58 then Some (5 + length ws + length ds + 1) else None
      | _, _, _ => None
      end
  end.

(** [[...text.matchAll(photoPattern)]] with the [g] flag: the [index] of
    every match, left to right, the search resuming where the previous
    match ended.  [skip] counts the code units of the last match still
    to be stepped over. *)
Fixpoint matchAll_go (skip idx : nat) (s : jsstring) : list nat :=
  match s with
  | [] => []
  | _ :: s' =>
      match skip with
      | S k => matchAll_go k (S idx) s'
      | O =>
          match photoPattern s with
          | Some n => idx :: matchAll_go (n - 1) (S idx) s'
          | None => matchAll_go 0 (S idx) s'
          end
      end
  end.

Definition matchAll (s : jsstring) : list nat := matchAll_go 0 0 s.

(** The loop over [matches]: section [i] runs from [matches[i].index] to
    [matches[i+1].index], the last one to the end of the text. *)
Fixpoint sectionsFrom (text : jsstring) (matches : list nat) : list jsstring :=
  match matches with
  | [] => []
  | start :: rest =>
      let end_ := match rest with
                  | next :: _ => next
                  | [] => length text
                  end in
      trim (substring start end_ text) :: sectionsFrom text rest
  end.

(** [photoSections] as parsed from [report.aiReport] (lines 868-882). *)
Definition parseSections (aiReport : option jsstring) : list jsstring :=
  match aiReport with
  | Some ((_ :: _) as text) => sectionsFrom text (matchAll text)
  | _ => []
  end.

(** *** Field extraction *)

Inductive Label :=
| ProblemDescription | RecommendedSolution | PriorityLevel
| EstimatedCostRange | SafetyConcerns.

Definition allLabels : list Label :=
  [ProblemDescription; RecommendedSolution; PriorityLevel;
   EstimatedCostRange; SafetyConcerns].

Definition labelText (l : Label) : jsstring :=
  match l with
  | ProblemDescription => js "Problem Description:"
  | RecommendedSolution => js "Recommended Solution:"
  | PriorityLevel => js "Priority Level:"
  | EstimatedCostRange => js "Estimated Cost Range:"
  | SafetyConcerns => js "Safety Concerns:"
  end.

Definition Label_eqb (a b : Label) : bool :=
  match a, b with
  | ProblemDescription, ProblemDescription
  | RecommendedSolution, RecommendedSolution
  | PriorityLevel, PriorityLevel
  | EstimatedCostRange, EstimatedCostRange
  | SafetyConcerns, SafetyConcerns => true
  | _, _ => false
  end.

(** The alternatives of the lookahead in the regular expression of label
    [l]: the four other labels (and the end of the text). *)
Definition lookaheadLabels (l : Label) : list Label :=
  filter (fun m => negb (Label_eqb l m)) allLabels.

Definition lookahead (stops : list Label) (s : jsstring) : bool :=
  existsb (fun m => startsWith (labelText m) s) stops ||
  match s with [] => true | _ :: _ => false end.

(** What [.+?] still takes once it holds one code unit: nothing when the
    lookahead succeeds, else one more code unit. *)
Fixpoint lazyRest (stops : list Label) (s : jsstring) : jsstring :=
  if lookahead stops s then []
  else match s with
       | c :: s' => c :: lazyRest stops s'
       | [] => []
       end.

(** [(.+?)(?=...)] right after the label: at least one code unit. *)
Definition capture (stops : list Label) (s : jsstring) : option jsstring :=
  match s with
  | c :: s' => Some (c :: lazyRest stops s')
  | [] => None
  end.

(** [section.match(/<label>(.+?)(?=<other labels>|$)/s)]: capture group
    1 of the leftmost match, [None] for [null]. *)
Fixpoint matchWith (stops : list Label) (l : Label) (s : jsstring)
  : option jsstring :=
  let here :=
    if startsWith (labelText l) s
    then capture stops (skipn (length (labelText l)) s)
    else None in
  match here, s with
  | Some v, _ => Some v
  | None, _ :: s' => matchWith stops l s'
  | None, [] => None
  end.

Definition fieldMatch (l : Label) (s : jsstring) : option jsstring :=
  matchWith (lookaheadLabels l) l s.

(** The text printed for a field: [m[1].replace(/\*/g, '').trim()]. *)
Definition fieldValue (l : Label) (s : jsstring) : option jsstring :=
  option_map (fun v => trim (removeAsterisks v)) (fieldMatch l s).

End Narrative.

Import Narrative.

(** ** Reports *)

Record Photo := {
  path : jsstring;
  description : jsstring;
  type : jsstring;
  transcription : jsstring
}.

(** A report as the creation handler builds it.  [createdAt] is the time
    of construction in milliseconds; [aiReport] is [None] for [null]. *)
Record Report := {
  id : jsstring;
  jobName : jsstring;
  clientName : jsstring;
  address : jsstring;
  date : jsstring;
  photos : list Photo;
  status : jsstring;
  createdAt : N;
  aiReport : option jsstring
}.

(** [a || b] on strings: the empty string is falsy. *)
Definition orElse (a b : jsstring) : jsstring :=
  match a with
  | [] => b
  | _ :: _ => a
  end.

(** Truthiness of a nullable string. *)
Definition truthy (a : option jsstring) : bool :=
  match a with
  | Some (_ :: _) => true
  | _ => false
  end.

(** ** The PDF document as a trace of pdfkit calls *)

Module Pdf.

Inductive Font := Helvetica | HelveticaBold.
Inductive Align := Left | Center | Right.

Record TextOptions := {
  width : option Q;
  align : option Align;
  underline : option bool;
  continued : bool;
  indent : option Q
}.

Definition noOptions : TextOptions :=
  {| width := None; align := None; underline := None;
     continued := false; indent := None |}.

(** The calls [generateFormattedPDF] makes on the document.  [setX] and
    [setY] are the assignments to [doc.x] and [doc.y].  An [image] call
    is recorded when it returns; one that throws leaves the document as
    it was. *)
Inductive Call :=
| addPage
| fontSize (n : Q)
| font (f : Font)
| fillColor (c : jsstring)
| text (s : jsstring) (at_ : option (Q * Q)) (o : TextOptions)
| moveDown (lines : Q)
| image (p : jsstring) (x y : Q)
| rect (x y w h : Q)
| stroke (c : jsstring)
| setX (x : Q)
| setY (y : Q)
| end_.

(** What the function sees of the file system: which paths exist
    ([fs.existsSync]), which files [doc.image] opens without throwing,
    and whether the write stream on the output path finishes. *)
Record Disk := {
  existsSync : jsstring -> bool;
  imageLoads : jsstring -> bool;
  streamFinishes : jsstring -> bool
}.

(** Outcome of the promise [generateFormattedPDF] returns, with the calls
    made on the document. *)
Inductive Outcome :=
| Resolved (outputPath : jsstring)
| Rejected.

Record Result := {
  calls : list Call;
  outcome : Outcome
}.

(** A computation on the document: it reads the calls made so far and
    returns a value with the calls it makes. *)
Definition Doc (A : Type) : Type := list Call -> A * list Call.

Definition ret {A} (a : A) : Doc A := fun _ => (a, []).

Definition bind {A B} (m : Doc A) (f : A -> Doc B) : Doc B :=
  fun h =>
    let (a, e1) := m h in
    let (b, e2) := f a (h ++ e1) in
    (b, e1 ++ e2).

Definition call (c : Call) : Doc unit := fun _ => (tt, [c]).

Definition emitted {A} (m : Doc A) (h : list Call) : list Call := snd (m h).

Declare Scope doc_scope.
Delimit Scope doc_scope with doc.
Notation "x <- m ;; k" := (bind m (fun x => k))
  (at level 61, m at next level, right associativity) : doc_scope.
Notation "m ;; k" := (bind m (fun _ => k))
  (at level 61, right associativity) : doc_scope.
Local Open Scope doc_scope.

(** [array.forEach((a, idx) => ...)] where the callback also updates
    variables [St] of the enclosing function. *)
Fixpoint forEachFrom {A St} (f : A -> nat -> St -> Doc St) (idx : nat)
  (l : list A) (s : St) : Doc St :=
  match l with
  | [] => ret s
  | a :: l' => s' <- f a idx s ;; forEachFrom f (S idx) l' s'
  end.

Definition forEach {A St} (f : A -> nat -> St -> Doc St) (l : list A)
  (s : St) : Doc St :=
  forEachFrom f 0 l s.

(** [array.map((a, idx) => ...)] *)
Fixpoint mapFrom {A B} (f : A -> nat -> B) (idx : nat) (l : list A)
  : list B :=
  match l with
  | [] => []
  | a :: l' => f a idx :: mapFrom f (S idx) l'
  end.

(** [array.slice(a, b)] and [array.slice(a)] *)
Definition slice {A} (a b : nat) (l : list A) : list A :=
  firstn (b - a) (skipn a l).
Definition sliceFrom {A} (a : nat) (l : list A) : list A := skipn a l.

(** pdfkit's [A4] page and the margins given to the constructor. *)
Definition pageWidth : Q := 595.28%Q.
Definition pageHeight : Q := 841.89%Q.
Definition marginLeft : Q := 50%Q.
Definition marginRight : Q := 50%Q.
Definition contentWidth : Q := (pageWidth - marginLeft - marginRight)%Q.
Definition totalPages : nat := 3.
Definition photoSize : Q := 120%Q.

(** Grid variables [x], [y], [count] of the enclosing function. *)
Record Grid := { gx : Q; gy : Q; gcount : nat }.

Section Assembly.

(** [doc.y] after a given sequence of calls: pdfkit's layout. *)
Variable cursorY : list Call -> Q.
Variable disk : Disk.

Definition docY : Doc Q := fun h => (cursorY h, []).

Definition addPageNumber (pageNum : nat) : Doc unit :=
  call (fontSize 10) ;;
  call (fillColor (js "#333333")) ;;
  call (text (js "Page " ++ ofNat pageNum ++ js " of " ++ ofNat totalPages)
          (Some ((pageWidth - 100)%Q, 20%Q))
          {| width := None; align := Some Right; underline := None;
             continued := false; indent := None |}).

Definition addSectionHeader (t : jsstring) : Doc unit :=
  call (fontSize 14) ;;
  call (font HelveticaBold) ;;
  call (fillColor (js "#333333")) ;;
  call (text t None
          {| width := None; align := None; underline := Some false;
             continued := false; indent := None |}) ;;
  call (moveDown 0.5).

(** Lines 749-756. *)
Definition reportTitle (report : Report) : jsstring :=
  let title := orElse (jobName report) (js "Property Inspection Report") in
  match aiReport report with
  | Some ((_ :: _) as ai) =>
      let firstLine := trim (nth 0 (split [LF] ai) []) in
      match firstLine with
      | _ :: _ => if 10 <? length firstLine then firstLine else title
      | [] => title
      end
  | _ => title
  end.

(** The title line that opens every page. *)
Definition titleLine (title : jsstring) : Doc unit :=
  call (setX marginLeft) ;;
  call (fontSize 16) ;;
  call (font HelveticaBold) ;;
  call (fillColor (js "#000000")) ;;
  y <- docY ;;
  call (text title (Some (marginLeft, y))
          {| width := Some contentWidth; align := Some Center;
             underline := None; continued := false; indent := None |}) ;;
  call (moveDown 1).

Definition placeholder (msg : jsstring) (x y : Q) : Doc unit :=
  call (rect x y photoSize photoSize) ;;
  call (stroke (js "#cccccc")) ;;
  call (fontSize 9) ;;
  call (fillColor (js "#cc0000")) ;;
  call (text msg (Some ((x + 10)%Q, (y + photoSize / 2)%Q))
          {| width := Some (photoSize - 20)%Q; align := Some Center;
             underline := None; continued := false; indent := None |}).

(** The [try]/[catch] around one photo: the image when the file exists
    and loads, the "not available" box when it does not exist, the
    "error" box when [doc.image] throws. *)
Definition photoBox (photo : Photo) (x y : Q) : Doc unit :=
  if existsSync disk (path photo) then
    if imageLoads disk (path photo) then
      call (image (path photo) x y) ;;
      call (rect x y photoSize photoSize) ;;
      call (stroke (js "#cccccc"))
    else placeholder (js "Error loading photo") x y
  else placeholder (js "Photo not available") x y.

(** Callback of both photo grids; [offset] is 0 on the first page and
    9 for the remaining photos ([actualIdx = idx + 9]). *)
Definition gridCell (offset : nat) (photo : Photo) (idx : nat) (g : Grid)
  : Doc Grid :=
  let x := gx g in
  let y := gy g in
  photoBox photo x y ;;
  call (fontSize 10) ;;
  call (fillColor (js "#000000")) ;;
  call (font Helvetica) ;;
  call (text (js "Photo " ++ ofNat (idx + offset + 1))
          (Some (x, (y + photoSize + 5)%Q))
          {| width := Some photoSize; align := Some Center;
             underline := None; continued := false; indent := None |}) ;;
  let x := (x + (photoSize + 20))%Q in
  let count := S (gcount g) in
  if count mod 3 =? 0
  then ret {| gx := marginLeft; gy := (y + (photoSize + 30))%Q; gcount := count |}
  else ret {| gx := x; gy := y; gcount := count |}.

(** A grid of photos starting at the cursor; returns the bottom [y]. *)
Definition photoGrid (offset : nat) (ps : list Photo) : Doc Q :=
  y <- docY ;;
  g <- forEach (gridCell offset) ps
         {| gx := marginLeft; gy := y; gcount := 0 |} ;;
  ret (if negb (gcount g mod 3 =? 0)
       then (gy g + (photoSize + 30))%Q else gy g).

(** Lines 884-889. *)
Definition fallbackSections (ps : list Photo) : list jsstring :=
  mapFrom (fun photo idx =>
             js "Photo " ++ ofNat (idx + 1) ++ js ":" ++ [LF] ++
             orElse (description photo) (js "No description provided."))
    0 ps.

(** [photoSections] as the breakdown loop reads it (lines 868-889). *)
Definition photoSections (report : Report) : list jsstring :=
  let parsed := parseSections (aiReport report) in
  match parsed, photos report with
  | [], _ :: _ => fallbackSections (photos report)
  | _, _ => parsed
  end.

Definition bodyOptions : TextOptions :=
  {| width := Some contentWidth; align := Some Left; underline := None;
     continued := false; indent := None |}.

(** A bold label followed by its text on the same line. *)
Definition labelled (label value : jsstring) : Doc unit :=
  call (setX marginLeft) ;;
  call (fontSize 11) ;;
  call (font HelveticaBold) ;;
  call (fillColor (js "#000000")) ;;
  call (text label None
          {| width := None; align := None; underline := None;
             continued := true; indent := None |}) ;;
  call (font Helvetica) ;;
  y <- docY ;;
  call (text value (Some (marginLeft, y)) bodyOptions) ;;
  call (moveDown 0.3).

(** [if (m && m[1]) { ... }] for one of the five fields. *)
Definition field (l : Label) (section : jsstring) : Doc unit :=
  match fieldMatch l section with
  | Some ((_ :: _) as v) => labelled (labelText l) (trim (removeAsterisks v))
  | _ => ret tt
  end.

Definition continuationPage (title : jsstring) : Doc unit :=
  call addPage ;;
  addPageNumber 2 ;;
  call (setX marginLeft) ;;
  call (fontSize 16) ;;
  call (font HelveticaBold) ;;
  call (fillColor (js "#000000")) ;;
  y <- docY ;;
  call (text title (Some (marginLeft, y))
          {| width := Some contentWidth; align := Some Center;
             underline := None; continued := false; indent := None |}) ;;
  call (moveDown 1) ;;
  call (fontSize 14) ;;
  call (font HelveticaBold) ;;
  call (fillColor (js "#333333")) ;;
  y <- docY ;;
  call (text (js "Reference Photo breakdown (continued):")
          (Some (marginLeft, y))
          {| width := Some contentWidth; align := Some Left;
             underline := Some false; continued := false; indent := None |}) ;;
  call (moveDown 0.5).

(** Callback of [report.photos.forEach] on the breakdown page
    (lines 892-999). *)
Definition breakdownEntry (title : jsstring) (sections : list jsstring)
  (total : nat) (photo : Photo) (idx : nat) (_ : unit) : Doc unit :=
  call (setX marginLeft) ;;
  call (fontSize 12) ;;
  call (font HelveticaBold) ;;
  call (fillColor (js "#000000")) ;;
  y <- docY ;;
  call (text (js "Photo " ++ ofNat (idx + 1) ++ js ":")
          (Some (marginLeft, y))
          {| width := Some contentWidth; align := Some Left;
             underline := Some false; continued := false; indent := None |}) ;;
  call (moveDown 0.3) ;;
  let section := nth idx sections [] in
  match section with
  | _ :: _ =>
      field ProblemDescription section ;;
      field RecommendedSolution section ;;
      field PriorityLevel section ;;
      field EstimatedCostRange section ;;
      field SafetyConcerns section
  | [] =>
      labelled (js "Description:")
        (orElse (description photo) (js " No description provided."))
  end ;;
  call (moveDown 1) ;;
  y <- docY ;;
  if negb (Qle_bool y (pageHeight - 150)%Q) && (idx + 1 <? total)
  then continuationPage title
  else ret tt.

Definition plainText (t : jsstring) (o : TextOptions) : Doc unit :=
  call (fontSize 11) ;;
  call (font Helvetica) ;;
  call (fillColor (js "#000000")) ;;
  call (text t None o).

(** Lines 1087-1096. *)
Definition recommendedServices (report : Report) : jsstring :=
  let default := js "No recommended services to be added." in
  match aiReport report with
  | Some ((_ :: _) as ai) =>
      if includes (js "Recommended Services:") ai then
        let servicesSection :=
          nth 1 (split (js "Recommended Services:") ai) [] in
        match servicesSection with
        | _ :: _ =>
            if includes (js "Additional Notes:") servicesSection
            then trim (nth 0 (split (js "Additional Notes:") servicesSection) [])
            else trim servicesSection
        | [] => default
        end
      else default
  | _ => default
  end.

(** The bullet the source tests for besides the dash. *)
Definition bullet : jsstring := [226; 8364; 162]%N.

Definition serviceLine (line : jsstring) (_ : nat) (_ : unit) : Doc unit :=
  let trimmedLine := trim line in
  match trimmedLine with
  | [] => ret tt
  | _ :: _ =>
      if startsWith (js "-") trimmedLine || startsWith bullet trimmedLine
      then plainText trimmedLine
             {| width := None; align := None; underline := None;
                continued := false; indent := Some 20%Q |}
      else plainText trimmedLine noOptions
  end.

(** Lines 1124-1145. *)
Definition additionalNotes (report : Report) : jsstring :=
  let default := js "No additional project notes at this time." in
  match aiReport report with
  | Some ((_ :: _) as ai) =>
      if includes (js "Additional Notes:") ai
      then orElse (trim (nth 1 (split (js "Additional Notes:") ai) [])) default
      else default
  | _ => default
  end.

Definition page1 (report : Report) (title : jsstring) : Doc unit :=
  call addPage ;;
  addPageNumber 1 ;;
  titleLine title ;;
  call (setX marginLeft) ;;
  call (fontSize 12) ;;
  call (font Helvetica) ;;
  call (fillColor (js "#000000")) ;;
  y <- docY ;;
  call (text (js "Issue: " ++ title) (Some (marginLeft, y)) bodyOptions) ;;
  call (moveDown 1) ;;
  addSectionHeader (js "Reference Photos:") ;;
  y <- photoGrid 0 (slice 0 9 (photos report)) ;;
  call (setY y) ;;
  call (setX marginLeft).

Definition page2 (report : Report) (title : jsstring) : Doc unit :=
  call addPage ;;
  addPageNumber 2 ;;
  titleLine title ;;
  addSectionHeader (js "Reference Photo breakdown:") ;;
  forEach (breakdownEntry title (photoSections report)
             (length (photos report)))
    (photos report) tt.

Definition page3 (report : Report) (title : jsstring) : Doc unit :=
  call addPage ;;
  addPageNumber 3 ;;
  titleLine title ;;
  (if 9 <? length (photos report) then
     addSectionHeader (js "Additional Photos:") ;;
     y2 <- photoGrid 9 (sliceFrom 9 (photos report)) ;;
     call (setY y2) ;;
     call (moveDown 1)
   else ret tt) ;;
  addSectionHeader (js "Recommended Services:") ;;
  forEach serviceLine (split [LF] (recommendedServices report)) tt ;;
  call (moveDown 1) ;;
  addSectionHeader (js "Additional Notes:") ;;
  plainText (additionalNotes report) noOptions ;;
  call end_.

Definition document (report : Report) : Doc unit :=
  let title := reportTitle report in
  page1 report title ;;
  page2 report title ;;
  page3 report title.

(** [generateFormattedPDF(report, outputPath)]: the calls made on the
    document, and how the promise settles. *)
Definition generateFormattedPDF (report : Report) (outputPath : jsstring)
  : Result :=
  {| calls := emitted (document report) [];
     outcome := if streamFinishes disk outputPath
                then Resolved outputPath else Rejected |}.

End Assembly.

(** Observations on a stretch of calls. *)
Definition textOf (c : Call) : option jsstring :=
  match c with
  | text s _ _ => Some s
  | _ => None
  end.

Fixpoint textsOf (cs : list Call) : list jsstring :=
  match cs with
  | [] => []
  | c :: cs' =>
      match textOf c with
      | Some s => s :: textsOf cs'
      | None => textsOf cs'
      end
  end.

Fixpoint imagesOf (cs : list Call) : list jsstring :=
  match cs with
  | [] => []
  | image p _ _ :: cs' => p :: imagesOf cs'
  | _ :: cs' => imagesOf cs'
  end.

Definition pageCount (cs : list Call) : nat :=
  length (filter (fun c => match c with addPage => true | _ => false end) cs).

End Pdf.

Import Pdf.

(** ** The HTTP handlers over the in-memory list [reports] *)

Module Server.

(** One entry of the parsed [photoDescriptions] array, read through
    [desc.description], [desc.type] and [desc.voiceFile]: strings, as the
    client sends them, [None] for an absent property.  A falsy array
    element is the entry without properties
    ([parsedDescriptions[idx] || {}]). *)
Record Descriptor := {
  d_description : option jsstring;
  d_type : option jsstring;
  d_voiceFile : option jsstring
}.

(** The object [{}]. *)
Definition noProperties : Descriptor :=
  {| d_description := None; d_type := None; d_voiceFile := None |}.

(** Result of [JSON.parse(photoDescriptions)] when it returns. *)
Inductive Json :=
| JArray (l : list Descriptor)
| JOther.

Record File := {
  originalname : jsstring;
  file_path : jsstring
}.

(** A multipart request as multer hands it to the creation handler:
    the text fields of [req.body] ([None] when absent) and the files of
    [req.files.photos] and [req.files.voices]. *)
Record CreateRequest := {
  body_jobName : option jsstring;
  body_clientName : option jsstring;
  body_address : option jsstring;
  body_date : option jsstring;
  body_photoDescriptions : option jsstring;
  files_photos : list File;
  files_voices : list File
}.

Inductive Body :=
| ErrorBody (error : jsstring)
| ReportBody (report : Report)
| ReportsBody (reports : list Report)
| AiReportBody (aiReport : jsstring)
| MessageBody (message : jsstring)
| DownloadBody (document : list Call).

Record Response := {
  statusCode : nat;
  body : Body
}.

Definition json (b : Body) : Response := {| statusCode := 200; body := b |}.
Definition error (code : nat) (msg : string) : Response :=
  {| statusCode := code; body := ErrorBody (js msg) |}.

Definition fromOption (a : option jsstring) : jsstring :=
  match a with
  | Some s => s
  | None => []
  end.

(** [reports.find(r => r.id === id)] *)
Definition findReport (i : jsstring) (reports : list Report) : option Report :=
  find (fun r => jsstring_eqb (id r) i) reports.

(** Assignment to a property of the object that [find] returned: the
    first report with that id is the one that changes. *)
Fixpoint updateFound (i : jsstring) (f : Report -> Report)
  (reports : list Report) : list Report :=
  match reports with
  | [] => []
  | r :: rest =>
      if jsstring_eqb (id r) i then f r :: rest
      else r :: updateFound i f rest
  end.

Definition set_aiReport (v : option jsstring) (r : Report) : Report :=
  {| id := id r; jobName := jobName r; clientName := clientName r;
     address := address r; date := date r; photos := photos r;
     status := status r; createdAt := createdAt r; aiReport := v |}.

(** [{ description, type, transcription }] handed to the generator. *)
Record PhotoDescription := {
  pd_description : jsstring;
  pd_type : jsstring;
  pd_transcription : jsstring
}.

(** One key of a PATCH body with its value.  [other] stands for a key
    that is not a property of the report.  (A name that the report
    inherits, such as [toString], is [in] the report all the same: what
    bodies [assign] follows is said with [inheritedKeys] below.) *)
Inductive PatchEntry :=
| patch_id (v : jsstring)
| patch_jobName (v : jsstring)
| patch_clientName (v : jsstring)
| patch_address (v : jsstring)
| patch_date (v : jsstring)
| patch_photos (v : list Photo)
| patch_status (v : jsstring)
| patch_createdAt (v : N)
| patch_aiReport (v : option jsstring)
| other (key : jsstring).

(** [if (key in report) report[key] = req.body[key]] *)
Definition assign (r : Report) (e : PatchEntry) : Report :=
  match e with
  | patch_id v =>
      {| id := v; jobName := jobName r; clientName := clientName r;
         address := address r; date := date r; photos := photos r;
         status := status r; createdAt := createdAt r; aiReport := aiReport r |}
  | patch_jobName v =>
      {| id := id r; jobName := v; clientName := clientName r;
         address := address r; date := date r; photos := photos r;
         status := status r; createdAt := createdAt r; aiReport := aiReport r |}
  | patch_clientName v =>
      {| id := id r; jobName := jobName r; clientName := v;
         address := address r; date := date r; photos := photos r;
         status := status r; createdAt := createdAt r; aiReport := aiReport r |}
  | patch_address v =>
      {| id := id r; jobName := jobName r; clientName := clientName r;
         address := v; date := date r; photos := photos r;
         status := status r; createdAt := createdAt r; aiReport := aiReport r |}
  | patch_date v =>
      {| id := id r; jobName := jobName r; clientName := clientName r;
         address := address r; date := v; photos := photos r;
         status := status r; createdAt := createdAt r; aiReport := aiReport r |}
  | patch_photos v =>
      {| id := id r; jobName := jobName r; clientName := clientName r;
         address := address r; date := date r; photos := v;
         status := status r; createdAt := createdAt r; aiReport := aiReport r |}
  | patch_status v =>
      {| id := id r; jobName := jobName r; clientName := clientName r;
         address := address r; date := date r; photos := photos r;
         status := v; createdAt := createdAt r; aiReport := aiReport r |}
  | patch_createdAt v =>
      {| id := id r; jobName := jobName r; clientName := clientName r;
         address := address r; date := date r; photos := photos r;
         status := status r; createdAt := v; aiReport := aiReport r |}
  | patch_aiReport v => set_aiReport v r
  | other _ => r
  end.

(** [findVoiceFile] of the creation handler. *)
Definition findVoiceFile (voiceFiles : list File) (voiceFileName : jsstring)
  : option File :=
  find (fun f => jsstring_eqb (originalname f) voiceFileName) voiceFiles.

(** What the handlers take from outside the process. *)
Record Env := {
  (** [JSON.parse]; [None] when it throws. *)
  JSON_parse : jsstring -> option Json;
  (** [speechToText] on the content of the audio file at a path:
      [transcriptResult.text || ''], or [None] when reading the file or
      the call throws. *)
  speechToText : jsstring -> option jsstring;
  (** [Date.now()], the date part of [new Date().toISOString()], and
      [new Date()] at creation. *)
  dateNow : N;
  isoDate : jsstring;
  newDate : N;
  (** [generateReportContent]; [None] when it throws. *)
  generateReportContent : list PhotoDescription -> option jsstring;
  (** [transporter.sendMail] on a recipient and an attachment path;
      [false] when it throws. *)
  sendMail : jsstring -> jsstring -> bool;
  (** pdfkit's layout and the file system. *)
  cursorY : list Call -> Q;
  disk : Disk
}.

Section Handlers.

Variable env : Env.

(** The loop over [photoFiles] of the creation handler (lines
    1200-1230): the photos, or the response of the early return. *)
Fixpoint processPhotos (voiceFiles : list File)
  (parsedDescriptions : list Descriptor) (idx : nat)
  (photoFiles : list File) : Response + list Photo :=
  match photoFiles with
  | [] => inr []
  | imageFile :: rest =>
      let desc := nth idx parsedDescriptions noProperties in
      let description := fromOption (d_description desc) in
      let type_ := orElse (fromOption (d_type desc)) (js "text") in
      let step (description transcription : jsstring) :=
        match processPhotos voiceFiles parsedDescriptions (S idx) rest with
        | inl r => inl r
        | inr ps =>
            inr ({| path := file_path imageFile; description := description;
                    type := type_; transcription := transcription |} :: ps)
        end in
      if jsstring_eqb type_ (js "voice") && truthy (d_voiceFile desc) then
        let voiceFileName := fromOption (d_voiceFile desc) in
        match findVoiceFile voiceFiles voiceFileName with
        | None =>
            inl {| statusCode := 400;
                   body := ErrorBody
                             (js "Audio file " ++ voiceFileName ++
                              js " not found for photo at index " ++
                              ofNat idx ++ js ".") |}
        | Some audioFile =>
            match speechToText env (file_path audioFile) with
            | Some transcription => step transcription transcription
            | None => step description []
            end
        end
      else step description []
  end.

(** [POST /api/reports] (lines 1170-1249). *)
Definition createReport (req : CreateRequest) (reports : list Report)
  : Response * list Report :=
  let photoDescriptions :=
    match body_photoDescriptions req with
    | Some s => s
    | None => js "[]"
    end in
  let parsedDescriptions :=
    match JSON_parse env photoDescriptions with
    | Some v => v
    | None => JArray []
    end in
  if negb (truthy (body_jobName req)) || negb (truthy (body_clientName req))
     || negb (truthy (body_address req))
  then (error 400 "Missing required fields", reports)
  else
    let photoFiles := files_photos req in
    let voiceFiles := files_voices req in
    if (length photoFiles <? 1) || (20 <? length photoFiles)
    then (error 400 "You must upload between 1 and 20 photos.", reports)
    else
      match parsedDescriptions with
      | JOther =>
          (error 400 "photoDescriptions array must match number of uploaded images.",
           reports)
      | JArray descs =>
          if negb (length descs =? length photoFiles)
          then (error 400 "photoDescriptions array must match number of uploaded images.",
                reports)
          else
            match processPhotos voiceFiles descs 0 photoFiles with
            | inl response => (response, reports)
            | inr photos =>
                let report :=
                  {| id := ofN (dateNow env);
                     jobName := fromOption (body_jobName req);
                     clientName := fromOption (body_clientName req);
                     address := fromOption (body_address req);
                     date := orElse (fromOption (body_date req)) (isoDate env);
                     photos := photos;
                     status := js "draft";
                     createdAt := newDate env;
                     aiReport := None |} in
                ({| statusCode := 201; body := ReportBody report |},
                 reports ++ [report])
            end
      end.

Definition pdfPath (report : Report) : jsstring :=
  js "report-" ++ id report ++ js ".pdf".

(** [GET /api/reports/:id/pdf] (lines 1252-1294). *)
Definition getPdf (i : jsstring) (reports : list Report)
  : Response * list Report :=
  match findReport i reports with
  | None => (error 404 "Report not found", reports)
  | Some report =>
      let result :=
        generateFormattedPDF (cursorY env) (disk env) report (pdfPath report) in
      match outcome result with
      | Resolved _ => (json (DownloadBody (calls result)), reports)
      | Rejected => (error 500 "Failed to generate PDF content", reports)
      end
  end.

(** [POST /api/reports/:id/email] (lines 1297-1335). *)
Definition emailReport (i email : jsstring) (reports : list Report)
  : Response * list Report :=
  match findReport i reports with
  | None => (error 404 "Report not found", reports)
  | Some report =>
      let result :=
        generateFormattedPDF (cursorY env) (disk env) report (pdfPath report) in
      match outcome result with
      | Resolved out =>
          if sendMail env email out
          then (json (MessageBody (js "Email sent successfully")), reports)
          else (error 500 "Failed to send email", reports)
      | Rejected => (error 500 "Failed to send email", reports)
      end
  end.

(** [GET /api/reports] and [GET /api/reports/:id]. *)
Definition getReports (reports : list Report) : Response * list Report :=
  (json (ReportsBody reports), reports).

Definition getReport (i : jsstring) (reports : list Report)
  : Response * list Report :=
  match findReport i reports with
  | None => (error 404 "Report not found", reports)
  | Some report => (json (ReportBody report), reports)
  end.

(** [POST /api/reports/:id/analyze] (lines 1352-1374). *)
Definition analyze (i : jsstring) (force : bool) (reports : list Report)
  : Response * list Report :=
  match findReport i reports with
  | None => (error 404 "Report not found", reports)
  | Some report =>
      if truthy (aiReport report) && negb force
      then (json (AiReportBody (fromOption (aiReport report))), reports)
      else
        let photoDescriptions :=
          map (fun photo =>
                 {| pd_description := description photo;
                    pd_type := type photo;
                    pd_transcription := transcription photo |})
              (photos report) in
        match generateReportContent env photoDescriptions with
        | Some ai =>
            (json (AiReportBody ai),
             updateFound i (set_aiReport (Some ai)) reports)
        | None => (error 500 "Failed to analyze report", reports)
        end
  end.

(** [PATCH /api/reports/:id] (lines 1377-1389). *)
Definition patchReport (i : jsstring) (body : list PatchEntry)
  (reports : list Report) : Response * list Report :=
  match findReport i reports with
  | None => (error 404 "Report not found", reports)
  | Some report =>
      let patched := fold_left assign body report in
      (json (ReportBody patched),
       updateFound i (fun _ => patched) reports)
  end.

End Handlers.

End Server.

Import Server.


(** * Definitions used by the statements *)

(** ** Requests and environments *)

(** The [photoDescriptions] field parses to an array with one entry per
    uploaded photo. *)
Definition descriptionsMatch (env : Env) (req : CreateRequest) : bool :=
  match JSON_parse env (match body_photoDescriptions req with
                        | Some s => s
                        | None => js "[]"
                        end) with
  | Some (JArray descs) => length descs =? length (files_photos req)
  | _ => false
  end.

Definition parsedDescriptors (env : Env) (req : CreateRequest) : list Descriptor :=
  match JSON_parse env (match body_photoDescriptions req with
                        | Some s => s
                        | None => js "[]"
                        end) with
  | Some (JArray descs) => descs
  | _ => []
  end.

(** A descriptor of type voice that names an audio file finds it among
    the uploaded voices. *)
Definition voiceUploaded (voiceFiles : list File) (desc : Descriptor) : bool :=
  if jsstring_eqb (orElse (fromOption (d_type desc)) (js "text")) (js "voice")
     && truthy (d_voiceFile desc)
  then existsb (fun f => jsstring_eqb (originalname f)
                                      (fromOption (d_voiceFile desc)))
               voiceFiles
  else true.

Definition requiredFields (req : CreateRequest) : bool :=
  truthy (body_jobName req) && truthy (body_clientName req)
  && truthy (body_address req).

(** A [JSON.parse] for arrays of empty objects, enough to run the
    creation handler on concrete requests: [[]], [[{}]], [[{},{}]], ... *)
Fixpoint emptyObjects (s : jsstring) : option (list Descriptor) :=
  match s with
  | 123%N :: 125%N :: rest =>
      let d := noProperties in
      match rest with
      | [93%N] => Some [d]
      | 44%N :: rest' =>
          match emptyObjects rest' with
          | Some ds => Some (d :: ds)
          | None => None
          end
      | _ => None
      end
  | _ => None
  end.

Definition parseEmptyObjects (s : jsstring) : option Json :=
  match s with
  | [91%N; 93%N] => Some (JArray [])
  | 91%N :: rest => option_map JArray (emptyObjects rest)
  | _ => None
  end.

Definition blankDisk : Disk :=
  {| existsSync := fun _ => false;
     imageLoads := fun _ => false;
     streamFinishes := fun _ => true |}.

(** An environment for running the handlers on concrete requests: no
    photo file on disk, a generator that throws. *)
Definition sampleEnv : Env :=
  {| JSON_parse := parseEmptyObjects;
     speechToText := fun _ => None;
     dateNow := 1700000000000%N;
     isoDate := js "2023-11-14";
     newDate := 1700000000000%N;
     generateReportContent := fun _ => None;
     sendMail := fun _ _ => true;
     cursorY := fun _ => 0%Q;
     disk := blankDisk |}.

Definition sampleFile (n : nat) : File :=
  {| originalname := js "photo" ++ ofNat n ++ js ".jpg";
     file_path := js "uploads/" ++ ofNat n ++ js ".jpg" |}.

Definition sampleRequest (descriptions : option jsstring) (n : nat)
  : CreateRequest :=
  {| body_jobName := Some (js "Kitchen");
     body_clientName := Some (js "Acme");
     body_address := Some (js "1 Main St");
     body_date := None;
     body_photoDescriptions := descriptions;
     files_photos := map sampleFile (seq 0 n);
     files_voices := [] |}.


(** ** Analysis and patching *)

Definition describe (report : Report) : list PhotoDescription :=
  map (fun photo =>
         {| pd_description := description photo;
            pd_type := type photo;
            pd_transcription := transcription photo |})
      (photos report).

(** The value of [id] after the assignments of a PATCH body: the value of
    the last [id] key, the old value without one. *)
Definition patchedId (body : list PatchEntry) (old : jsstring) : jsstring :=
  fold_left (fun acc e => match e with patch_id v => v | _ => acc end) body old.

Definition withId (v : jsstring) (r : Report) : Report :=
  assign r (patch_id v).

Definition isPatchId (e : PatchEntry) : bool :=
  match e with
  | patch_id _ => true
  | _ => false
  end.

Definition samplePhoto (d : string) : Photo :=
  {| path := js "uploads/" ++ js d ++ js ".jpg";
     description := js d;
     type := js "text";
     transcription := [] |}.

Definition sampleReport (ai : option jsstring) : Report :=
  {| id := js "1700000000000";
     jobName := js "Kitchen";
     clientName := js "Acme";
     address := js "1 Main St";
     date := js "2023-11-14";
     photos := [samplePhoto "cracked tile"; samplePhoto "leaking pipe"];
     status := js "draft";
     createdAt := 1700000000000%N;
     aiReport := ai |}.

(** ** Readings of the specification, for comparison with the code *)

(** The heading as the specification words it: the first non-empty line
    of the narrative with asterisks and surrounding whitespace stripped,
    ["Site Inspection Report"] for a null or empty narrative. *)
Definition claimedHeading (narrative : option jsstring) : jsstring :=
  match narrative with
  | Some ((_ :: _) as t) =>
      match filter (fun l => match trim l with [] => false | _ => true end)
              (split [LF] t) with
      | l :: _ => trim (removeAsterisks l)
      | [] => js "Site Inspection Report"
      end
  | _ => js "Site Inspection Report"
  end.

(** The title used when the narrative gives none. *)
Definition defaultTitle (report : Report) : jsstring :=
  orElse (jobName report) (js "Property Inspection Report").

(** The field value as the specification words it: the text after the
    first occurrence of the label up to the next occurring label or the
    end of the text, stripped. *)
Fixpoint untilLabel (s : jsstring) : jsstring :=
  if existsb (fun m => startsWith (labelText m) s) allLabels then []
  else match s with
       | c :: s' => c :: untilLabel s'
       | [] => []
       end.

Fixpoint afterLabel (l : Label) (s : jsstring) : option jsstring :=
  if startsWith (labelText l) s then Some (skipn (length (labelText l)) s)
  else match s with
       | _ :: s' => afterLabel l s'
       | [] => None
       end.

Definition claimedField (l : Label) (s : jsstring) : option jsstring :=
  option_map (fun r => trim (removeAsterisks (untilLabel r))) (afterLabel l s).

(** The value of label [l] extracted by an expression whose lookahead
    does not mention label [m]. *)
Definition fieldValueWithout (m l : Label) (s : jsstring) : option jsstring :=
  option_map (fun v => trim (removeAsterisks v))
    (matchWith (filter (fun x => negb (Label_eqb m x)) (lookaheadLabels l)) l s).

(** ** What a stretch of the trace shows *)

(** Message drawn in the box of a photo whose image is not shown. *)
Definition boxTexts (disk : Disk) (photo : Photo) : list jsstring :=
  if existsSync disk (path photo) then
    if imageLoads disk (path photo) then []
    else [js "Error loading photo"]
  else [js "Photo not available"].

Definition boxImages (disk : Disk) (photo : Photo) : list jsstring :=
  if existsSync disk (path photo) && imageLoads disk (path photo)
  then [path photo] else [].

(** Texts of one breakdown entry after its header: label and value of
    every field found in the section, or the description of the photo
    when there is no section. *)
Definition fieldTexts (section : jsstring) (l : Label) : list jsstring :=
  match fieldValue l section with
  | Some v => [labelText l; v]
  | None => []
  end.

Definition entryTexts (photo : Photo) (section : jsstring) : list jsstring :=
  match section with
  | [] => [js "Description:";
           orElse (description photo) (js " No description provided.")]
  | _ :: _ => flat_map (fieldTexts section) allLabels
  end.

(** Texts of the continuation page opened after an entry that ends low
    on the page. *)
Definition continuationTexts (title : jsstring) : list jsstring :=
  [js "Page 2 of 3"; title; js "Reference Photo breakdown (continued):"].

(** What the texts [t] of a breakdown entry show for photo number [k + 1]
    read with [section]. *)
Definition entryShows (title : jsstring) (photo : Photo) (k : nat)
  (section : jsstring) (t : list jsstring) : Prop :=
  exists cont,
    t = (js "Photo " ++ ofNat (k + 1) ++ js ":")
          :: entryTexts photo section ++ cont /\
    (cont = [] \/ cont = continuationTexts title).

(** A narrative whose sections carry numbers that do not follow their
    order. *)
Definition mislabelledNarrative : jsstring :=
  js "Water damage in kitchen" ++ LF ::
  js "Photo 7: Problem Description: Cracked tile." ++ LF ::
  js "Photo 1: Priority Level: High.".

(** Two disks that answer alike on the photo files of a report. *)
Definition sameFiles (d1 d2 : Disk) (report : Report) : Prop :=
  forall photo, In photo (photos report) ->
    existsSync d1 (path photo) = existsSync d2 (path photo) /\
    imageLoads d1 (path photo) = imageLoads d2 (path photo).

(** A disk that holds every photo, none of them readable as an image. *)
Definition unreadableDisk : Disk :=
  {| existsSync := fun _ => true;
     imageLoads := fun _ => false;
     streamFinishes := fun _ => true |}.

(** A match of [/Photo\s+\d+:/i]: the word in any case, whitespace,
    digits, a colon. *)
Definition isMarker (m : jsstring) : Prop :=
  exists w ws ds,
    m = w ++ ws ++ ds ++ [58%N] /\
    map canonicalize w = js "PHOTO" /\
    ws <> [] /\ forallb isWhiteSpace ws = true /\
    ds <> [] /\ forallb isDigit ds = true.

Definition hasMarker (text : jsstring) : Prop :=
  exists pre m post, text = pre ++ m ++ post /\ isMarker m.

(** A narrative without any "Photo N:" marker. *)
Definition plainNarrative : jsstring :=
  js "Inspection found water damage in the kitchen.".

(** The sample environment with a generator that answers. *)
Definition answeringEnv : Env :=
  {| JSON_parse := JSON_parse sampleEnv;
     speechToText := speechToText sampleEnv;
     dateNow := dateNow sampleEnv;
     isoDate := isoDate sampleEnv;
     newDate := newDate sampleEnv;
     generateReportContent := fun _ => Some mislabelledNarrative;
     sendMail := sendMail sampleEnv;
     cursorY := cursorY sampleEnv;
     disk := disk sampleEnv |}.

(** A disk that holds every photo as a readable image. *)
Definition fullDisk : Disk :=
  {| existsSync := fun _ => true;
     imageLoads := fun _ => true;
     streamFinishes := fun _ => true |}.

(** * Further definitions *)

(** ** The photo built from one uploaded file *)

(** Body of the loop of the creation handler for a file and its
    descriptor, once the audio file of a voice note has been found. *)
Definition photoOf (env : Env) (voiceFiles : list File) (imageFile : File)
  (desc : Descriptor) : Photo :=
  let description := fromOption (d_description desc) in
  let type_ := orElse (fromOption (d_type desc)) (js "text") in
  let typed := {| path := file_path imageFile; description := description;
                  type := type_; transcription := [] |} in
  if jsstring_eqb type_ (js "voice") && truthy (d_voiceFile desc) then
    match findVoiceFile voiceFiles (fromOption (d_voiceFile desc)) with
    | Some audioFile =>
        match speechToText env (file_path audioFile) with
        | Some transcription =>
            {| path := file_path imageFile; description := transcription;
               type := type_; transcription := transcription |}
        | None => typed
        end
    | None => typed
    end
  else typed.

(** An environment with another transcription service. *)
Definition withSpeechToText (f : jsstring -> option jsstring) (env : Env) : Env :=
  {| JSON_parse := JSON_parse env;
     speechToText := f;
     dateNow := dateNow env;
     isoDate := isoDate env;
     newDate := newDate env;
     generateReportContent := generateReportContent env;
     sendMail := sendMail env;
     cursorY := cursorY env;
     disk := disk env |}.

(** An environment with another narrative generator. *)
Definition withGenerator (g : list PhotoDescription -> option jsstring)
  (env : Env) : Env :=
  {| JSON_parse := JSON_parse env;
     speechToText := speechToText env;
     dateNow := dateNow env;
     isoDate := isoDate env;
     newDate := newDate env;
     generateReportContent := g;
     sendMail := sendMail env;
     cursorY := cursorY env;
     disk := disk env |}.

Definition isOther (e : PatchEntry) : bool :=
  match e with
  | other _ => true
  | _ => false
  end.

(** The names that a report inherits from [Object.prototype]: for these
    [key in report] holds although the report has no such property of its
    own, and the PATCH handler gives the report one.  A [Report] holds the
    nine properties only, so a body is followed faithfully when none of
    its other keys is among these names. *)
Definition inheritedKeys : list jsstring :=
  [js "constructor"; js "__defineGetter__"; js "__defineSetter__";
   js "hasOwnProperty"; js "__lookupGetter__"; js "__lookupSetter__";
   js "isPrototypeOf"; js "propertyIsEnumerable"; js "toString";
   js "valueOf"; js "__proto__"; js "toLocaleString"].

Definition ownKeysOnly (body : list PatchEntry) : bool :=
  forallb (fun e =>
             match e with
             | other key => negb (existsb (jsstring_eqb key) inheritedKeys)
             | _ => true
             end)
    body.

(** A request with one voice note whose audio was not uploaded, in an
    environment that parses its descriptor. *)
Definition voiceDescriptor : Descriptor :=
  {| d_description := None;
     d_type := Some (js "voice");
     d_voiceFile := Some (js "voice1.m4a") |}.

Definition voiceEnv : Env :=
  {| JSON_parse := fun _ => Some (JArray [voiceDescriptor]);
     speechToText := fun _ => Some (js "water stain on ceiling");
     dateNow := dateNow sampleEnv;
     isoDate := isoDate sampleEnv;
     newDate := newDate sampleEnv;
     generateReportContent := generateReportContent sampleEnv;
     sendMail := sendMail sampleEnv;
     cursorY := cursorY sampleEnv;
     disk := disk sampleEnv |}.

Definition voiceRequest (voices : list File) : CreateRequest :=
  {| body_jobName := Some (js "Kitchen");
     body_clientName := Some (js "Acme");
     body_address := Some (js "1 Main St");
     body_date := None;
     body_photoDescriptions := Some (js "[...]");
     files_photos := [sampleFile 0];
     files_voices := voices |}.

Definition voiceRecording : File :=
  {| originalname := js "voice1.m4a"; file_path := js "uploads/v1.m4a" |}.

(** ** What the last page shows *)

Definition nonEmpty (s : jsstring) : bool :=
  match s with
  | [] => false
  | _ :: _ => true
  end.

(** The lines printed under "Recommended Services:". *)
Definition serviceTexts (report : Report) : list jsstring :=
  filter nonEmpty (map trim (split [LF] (recommendedServices report))).

(** A narrative with the two closing sections. *)
Definition closingNarrative : jsstring :=
  js "Water damage in kitchen" ++ LF ::
  js "Photo 1: Priority Level: High." ++ LF ::
  js "Recommended Services:" ++ LF ::
  js "- Replace the tile" ++ LF :: LF ::
  js "  Call a plumber  " ++ LF ::
  js "Additional Notes:" ++ LF ::
  js "Recheck in a month.".

(** ** Markers *)

(** Every index returned by [matchAll] is the place of a marker that
    ends before the next index. *)
Fixpoint marksFrom (base : nat) (s : jsstring) (l : list nat) : Prop :=
  match l with
  | [] => True
  | i :: rest =>
      (base <= i /\
       exists m post,
         skipn (i - base) s = m ++ post /\ isMarker m /\
         forall j, In j rest -> i + length m <= j) /\
      marksFrom base s rest
  end.


(** ** Places of a grid of three cells a row

    Coordinates are rationals here and floating-point numbers in the
    program.  The columns are whole numbers, which both add alike; of
    the heights only what no rounding changes is stated: which cells
    share a height, and which row is further down. *)

(** The column of cell [k]: [k mod 3], the columns [photoSize + 20]
    apart from the left margin.  These are the whole numbers 50, 190
    and 330. *)
Definition cellX (k : nat) : Q :=
  (marginLeft + inject_Z (Z.of_nat (k mod 3)) * (photoSize + 20))%Q.

(** Cell [k] is drawn with [count = k], in column [k mod 3], at the
    height [rowY] of row [k / 3]. *)
Definition cellAt (rowY : nat -> Q) (k : nat) (g : Grid) : Prop :=
  gcount g = k /\ (gx g == cellX k)%Q /\ gy g = rowY (k / 3).

(** * The client: the form of a new report

    [SiteReport/screens/NewReportScreen.js]: the items of the screen and
    the multipart form that [handleSubmit] sends to the creation handler. *)

Module Client.

(** An asset of the image picker, as far as the form reads it. *)
Record Asset := {
  uri : jsstring;
  mimeType : option jsstring;
  fileName : option jsstring
}.

(** ['text' | 'voice'], the argument of [addItem]. *)
Inductive NoteType := TextNote | VoiceNote.

Definition noteTypeName (t : NoteType) : jsstring :=
  match t with
  | TextNote => js "text"
  | VoiceNote => js "voice"
  end.

(** An item of the screen; [note] is the text typed, or the uri of the
    recording. *)
Record Item := {
  photo : Asset;
  noteType : NoteType;
  note : jsstring;
  transcription : jsstring
}.

(** The state [formData]. *)
Record FormState := {
  jobName : jsstring;
  clientName : jsstring;
  address : jsstring;
  date : jsstring
}.

(** A file value appended to the form: [{uri, type, name}]. *)
Record Part := {
  part_uri : jsstring;
  part_type : jsstring;
  part_name : jsstring
}.

(** [form.append(key, value)], in order. *)
Inductive Entry :=
| FileEntry (key : jsstring) (part : Part)
| FieldEntry (key value : jsstring).

(** An element of [photoDescriptions]. *)
Record PhotoNote := {
  n_type : jsstring;
  n_description : jsstring;
  n_transcription : jsstring;
  n_voiceFile : jsstring
}.

(** [a || b] on a string that may be missing. *)
Definition orDefault (a : option jsstring) (b : jsstring) : jsstring :=
  match a with
  | Some ((_ :: _) as s) => s
  | _ => b
  end.

Definition photoPart (item : Item) (idx : nat) : Part :=
  {| part_uri := uri (photo item);
     part_type := orDefault (mimeType (photo item)) (js "image/jpeg");
     part_name := orDefault (fileName (photo item))
                    (js "photo" ++ ofNat (idx + 1) ++ js ".jpg") |}.

Definition audioFileName (idx : nat) : jsstring :=
  js "voice" ++ ofNat (idx + 1) ++ js ".m4a".

Definition voicePart (item : Item) (idx : nat) : Part :=
  {| part_uri := note item;
     part_type := js "audio/m4a";
     part_name := audioFileName idx |}.

(** Callback of [items.forEach]: what it appends to the form ... *)
Definition itemEntries (item : Item) (idx : nat) : list Entry :=
  FileEntry (js "photos") (photoPart item idx) ::
  match noteType item with
  | VoiceNote => [FileEntry (js "voices") (voicePart item idx)]
  | TextNote => []
  end.

(** ... and what it pushes to [photoDescriptions]. *)
Definition itemNote (item : Item) (idx : nat) : PhotoNote :=
  {| n_type := noteTypeName (noteType item);
     n_description := match noteType item with
                      | TextNote => note item
                      | VoiceNote => []
                      end;
     n_transcription := [];
     n_voiceFile := match noteType item with
                    | VoiceNote => audioFileName idx
                    | TextNote => []
                    end |}.

Section Submit.

(** [JSON.stringify] on [photoDescriptions]. *)
Variable stringify : list PhotoNote -> jsstring.

(** [handleSubmit] up to the request: the message of the error thrown,
    or the form passed to [createReport]. *)
Definition handleSubmit (formData : FormState) (items : list Item)
  : jsstring + list Entry :=
  if negb (nonEmpty (jobName formData)) || negb (nonEmpty (clientName formData))
     || negb (nonEmpty (address formData))
  then inl (js "Please fill in all required fields")
  else if length items <? 1
  then inl (js "Add at least one photo and note")
  else
    inr (concat (mapFrom itemEntries 0 items)
         ++ [FieldEntry (js "jobName") (jobName formData);
             FieldEntry (js "clientName") (clientName formData);
             FieldEntry (js "address") (address formData);
             FieldEntry (js "date") (date formData)]
         ++ [FieldEntry (js "photoDescriptions")
               (stringify (mapFrom itemNote 0 items))]).

End Submit.

(** The names of the recordings of a list of items, from index [idx]. *)
Fixpoint voiceNamesFrom (idx : nat) (items : list Item) : list jsstring :=
  match items with
  | [] => []
  | item :: rest =>
      match noteType item with
      | VoiceNote => audioFileName idx :: voiceNamesFrom (S idx) rest
      | TextNote => voiceNamesFrom (S idx) rest
      end
  end.

End Client.

(** ** The upload middleware (lines 616-647 and 1170) *)

Definition allowedTypes : list jsstring :=
  [js "image/jpeg"; js "image/png"; js "image/gif";
   js "audio/mpeg"; js "audio/wav"; js "audio/m4a"].

(** [fileFilter]: [allowedTypes.includes(file.mimetype)]. *)
Definition fileFilter (mimetype : jsstring) : bool :=
  existsb (jsstring_eqb mimetype) allowedTypes.

(** The files of one field of a form, in the order sent; [stored n] is
    the path the disk storage gives the file that is entry [n] of the
    form. *)
Fixpoint filesFrom (stored : nat -> jsstring) (field : jsstring) (n : nat)
  (form : list Client.Entry) : list File :=
  match form with
  | [] => []
  | Client.FileEntry key part :: rest =>
      if jsstring_eqb key field
      then {| originalname := Client.part_name part; file_path := stored n |}
           :: filesFrom stored field (S n) rest
      else filesFrom stored field (S n) rest
  | Client.FieldEntry _ _ :: rest => filesFrom stored field (S n) rest
  end.

(** The text field of a form under a key. *)
Fixpoint fieldOf (key : jsstring) (form : list Client.Entry)
  : option jsstring :=
  match form with
  | [] => None
  | Client.FieldEntry k v :: rest =>
      if jsstring_eqb k key then Some v else fieldOf key rest
  | Client.FileEntry _ _ :: rest => fieldOf key rest
  end.

(** [storage.filename] (lines 621-628) reads [req.body.photoDescriptions]
    as far as the fields sent before the file have filled it, and calls
    [JSON.parse(...).findIndex(...)] outside any [try]: it throws when that
    field is a non-empty string which is not the JSON text of an array. *)
Definition filenameThrows (env : Env) (before : list Client.Entry) : bool :=
  match fieldOf (js "photoDescriptions") before with
  | Some ((_ :: _) as photoDescriptions) =>
      match JSON_parse env photoDescriptions with
      | Some (JArray _) => false
      | _ => true
      end
  | _ => false
  end.

(** What becomes of the files of a form, taken in the order sent: each
    needs a place left in its field (20 for [photos], 20 for [voices],
    none for another name), then the filter has to accept its type, then
    the storage names it.  A [FileEntry] is a part that bears a file
    name; the middleware takes no other part for a file. *)
Inductive Check := Passes | Fails | Throws.

Fixpoint checkFiles (env : Env) (before : list Client.Entry)
  (photosLeft voicesLeft : nat) (form : list Client.Entry) : Check :=
  match form with
  | [] => Passes
  | Client.FieldEntry key value :: rest =>
      checkFiles env (before ++ [Client.FieldEntry key value])
        photosLeft voicesLeft rest
  | Client.FileEntry key part :: rest =>
      let accept (left : nat) (continue : nat -> Check) : Check :=
        match left with
        | 0 => Fails
        | S left' =>
            if negb (fileFilter (Client.part_type part)) then Fails
            else if filenameThrows env before then Throws
            else continue left'
        end in
      let before' := before ++ [Client.FileEntry key part] in
      if jsstring_eqb key (js "photos") then
        accept photosLeft
          (fun left => checkFiles env before' left voicesLeft rest)
      else if jsstring_eqb key (js "voices") then
        accept voicesLeft
          (fun left => checkFiles env before' photosLeft left rest)
      else Fails
  end.

(** [upload.fields([{ name: 'photos', maxCount: 20 },
    { name: 'voices', maxCount: 20 }])] on a form: the request is handed
    to the creation handler, or the middleware fails it and the handler
    does not run, or the storage throws while the form is read. *)
Inductive Upload :=
| Handed (req : CreateRequest)
| Failed
| Thrown.

Definition upload (env : Env) (stored : nat -> jsstring)
  (form : list Client.Entry) : Upload :=
  match checkFiles env [] 20 20 form with
  | Passes =>
      Handed {| body_jobName := fieldOf (js "jobName") form;
                body_clientName := fieldOf (js "clientName") form;
                body_address := fieldOf (js "address") form;
                body_date := fieldOf (js "date") form;
                body_photoDescriptions := fieldOf (js "photoDescriptions") form;
                files_photos := filesFrom stored (js "photos") 0 form;
                files_voices := filesFrom stored (js "voices") 0 form |}
  | Fails => Failed
  | Throws => Thrown
  end.

(** ** The route [POST /api/reports] (lines 1170 and 1392-1402)

    The middleware, then the handler.  A request that the middleware
    fails goes to the error handler of the application, which answers
    500; an exception thrown while the form is read is caught by nothing
    and ends the process, and the store with it. *)
Inductive RouteOutcome :=
| Answers (response : Response) (reports : list Report)
| ProcessExits.

Definition postReports (env : Env) (stored : nat -> jsstring)
  (form : list Client.Entry) (reports : list Report) : RouteOutcome :=
  match upload env stored form with
  | Handed req =>
      Answers (fst (createReport env req reports))
        (snd (createReport env req reports))
  | Failed => Answers (error 500 "Server error") reports
  | Thrown => ProcessExits
  end.

(** The number of files that a form sends as [photos]. *)
Definition isPhotoPart (e : Client.Entry) : bool :=
  match e with
  | Client.FileEntry key _ => jsstring_eqb key (js "photos")
  | Client.FieldEntry _ _ => false
  end.

Definition photosSent (form : list Client.Entry) : nat :=
  length (filter isPhotoPart form).

(** Forms with [n] photos and the three required fields. *)
Definition photoParts (n : nat) : list Client.Entry :=
  map (fun k =>
         Client.FileEntry (js "photos")
           {| Client.part_uri := js "file:///photo" ++ ofNat k ++ js ".jpg";
              Client.part_type := js "image/jpeg";
              Client.part_name := js "photo" ++ ofNat k ++ js ".jpg" |})
    (seq 0 n).

Definition requiredEntries : list Client.Entry :=
  [Client.FieldEntry (js "jobName") (js "Kitchen");
   Client.FieldEntry (js "clientName") (js "Acme");
   Client.FieldEntry (js "address") (js "1 Main St")].

Definition sampleStored (n : nat) : jsstring :=
  js "uploads/" ++ ofNat n ++ js ".jpg".

(** The object that [JSON.parse] reads back from an element of the
    client's [photoDescriptions]. *)
Definition parsedNote (n : Client.PhotoNote) : Descriptor :=
  {| d_description := Some (Client.n_description n);
     d_type := Some (Client.n_type n);
     d_voiceFile := Some (Client.n_voiceFile n) |}.

(** A photo with a typed note and one with a recording. *)
Definition typedItem : Client.Item :=
  {| Client.photo := {| Client.uri := js "file:///tile.jpg";
                        Client.mimeType := Some (js "image/png");
                        Client.fileName := None |};
     Client.noteType := Client.TextNote;
     Client.note := js "cracked tile";
     Client.transcription := [] |}.

Definition recordedItem : Client.Item :=
  {| Client.photo := {| Client.uri := js "file:///pipe.jpg";
                        Client.mimeType := None;
                        Client.fileName := Some (js "pipe.jpg") |};
     Client.noteType := Client.VoiceNote;
     Client.note := js "file:///recording.m4a";
     Client.transcription := [] |}.

Definition sampleForm : Client.FormState :=
  {| Client.jobName := js "Kitchen";
     Client.clientName := js "Acme";
     Client.address := js "1 Main St";
     Client.date := js "2023-11-14" |}.

(** An environment whose [JSON.parse] reads back the descriptors of the
    two items above. *)
Definition formEnv : Env :=
  {| JSON_parse := fun _ =>
       Some (JArray (map parsedNote
                       (mapFrom Client.itemNote 0 [typedItem; recordedItem])));
     speechToText := fun _ => Some (js "water stain on ceiling");
     dateNow := dateNow sampleEnv;
     isoDate := isoDate sampleEnv;
     newDate := newDate sampleEnv;
     generateReportContent := generateReportContent sampleEnv;
     sendMail := sendMail sampleEnv;
     cursorY := cursorY sampleEnv;
     disk := disk sampleEnv |}.

(** ** Saving an edited narrative

    [SiteReport/screens/PreviewReportScreen.js]: the body that
    [handleSaveEdit] sends to the PATCH handler. *)

Definition handleSaveEdit (aiReportEdit : jsstring) : list PatchEntry :=
  [patch_aiReport (Some aiReportEdit)].

(** ** The narrative generator (lines 684-705)

    [generateReportContent] with the call to the language model as a
    function from the prompt to the text of the response, [None] when the
    call throws. *)

Module Generation.

(** [photoDescriptions.forEach((photo, i) => { photoSection += ... })] *)
Fixpoint photoSectionFrom (i : nat) (photoDescriptions : list PhotoDescription)
  (photoSection : jsstring) : jsstring :=
  match photoDescriptions with
  | [] => photoSection
  | photo :: rest =>
      photoSectionFrom (S i) rest
        (photoSection ++ [LF] ++ js "Photo " ++ ofNat (i + 1) ++ js ":"
         ++ [LF] ++ js "Description: " ++ pd_description photo)
  end.

Definition promptHead : jsstring :=
  js "You are a professional property inspector. Analyze the following list of photo descriptions." ++
  [LF] ++
  [LF] ++
  js "Generate a professional, concise, and bolded heading for the report that summarizes the main issue(s) described. Do NOT use any hardcoded or generic text." ++
  [LF] ++
  [LF] ++
  js "For each photo, generate a detailed, professional report section with the following fields (all fields must be present for each photo, and all field label's headings must be bolded):" ++
  [LF] ++
  [LF] ++
  js "- Problem Description" ++
  [LF] ++
  js "- Recommended Solution" ++
  [LF] ++
  js "- Priority Level (High/Medium/Low)" ++
  [LF] ++
  js "- Estimated Cost Range" ++
  [LF] ++
  js "- Safety Concerns" ++
  [LF] ++
  [LF] ++
  js "Use clear, and professional language. Do NOT use asterisks, markdown, or any special characters for formatting. Use bolded headings and field labels (e.g., Problem Description:) for each section." ++
  [LF] ++
  [LF].

Definition promptFoot : jsstring :=
  [LF] ++
  [LF] ++
  js "Format the report as follows:" ++
  [LF] ++
  js "1. Start with the bolded heading for the report." ++
  [LF] ++
  js "2. For each photo, provide a bolded section heading (Photo X: <filename>) and the bolded field labels." ++
  [LF] ++
  js "3. Do not use any markdown or asterisks.".

Definition prompt (photoDescriptions : list PhotoDescription) : jsstring :=
  promptHead ++ photoSectionFrom 0 photoDescriptions [] ++ promptFoot.

Section Model.

Variable generateContent : jsstring -> option jsstring.

Definition generateReportContent (photoDescriptions : list PhotoDescription)
  : option jsstring :=
  option_map removeAsterisks (generateContent (prompt photoDescriptions)).

End Model.

End Generation.

(** What the prompt holds for the photo at index [k]. *)
Definition promptEntry (k : nat) (description : jsstring) : jsstring :=
  [LF] ++ js "Photo " ++ ofNat (k + 1) ++ js ":" ++ [LF]
  ++ js "Description: " ++ description.

(** A model that answers in markdown. *)
Definition markdownModel (prompt : jsstring) : option jsstring :=
  Some (js "**Water damage in kitchen**" ++ LF :: js "Photo 1: ok").

(** * Properties *)

(** ** The store *)

Lemma jsstring_eqb_eq (a b : jsstring) : jsstring_eqb a b = true <-> a = b.
Proof.
  unfold jsstring_eqb.
  destruct (list_eq_dec N.eq_dec a b); split; congruence.
Qed.

(** [find] returns the first report with the id, and the assignment
    through the returned object rewrites that element in place. *)
Lemma findReport_split (i : jsstring) (rs : list Report) (r : Report) :
  findReport i rs = Some r ->
  exists pre post,
    rs = pre ++ r :: post /\
    id r = i /\
    (forall q, In q pre -> id q <> i) /\
    (forall f, updateFound i f rs = pre ++ f r :: post).
Proof.
  unfold findReport.
  induction rs as [|q rs IH]; simpl; [discriminate|].
  destruct (jsstring_eqb (id q) i) eqn:E.
  - intros [= ->]. exists [], rs. apply jsstring_eqb_eq in E.
    repeat split; auto.
  - intros H. destruct (IH H) as (pre & post & -> & Hid & Hpre & Hupd).
    exists (q :: pre), post. repeat split; auto.
    + intros q' [<-|Hin]; [|now apply Hpre].
      intros Heq. apply jsstring_eqb_eq in Heq. congruence.
    + intros f. simpl. now rewrite Hupd.
Qed.

Lemma findReport_None_update (i : jsstring) (f : Report -> Report)
  (rs : list Report) :
  findReport i rs = None -> updateFound i f rs = rs.
Proof.
  unfold findReport.
  induction rs as [|q rs IH]; simpl; auto.
  destruct (jsstring_eqb (id q) i); [discriminate|].
  intros H. now rewrite IH.
Qed.

Lemma updateFound_ids (i : jsstring) (f : Report -> Report) (rs : list Report) :
  (forall r, id (f r) = id r) ->
  map id (updateFound i f rs) = map id rs.
Proof.
  intros Hf. induction rs as [|q rs IH]; simpl; auto.
  destruct (jsstring_eqb (id q) i); simpl; [now rewrite Hf|now rewrite IH].
Qed.


(** ** Report creation *)

Lemma voiceUploaded_find (voiceFiles : list File) (desc : Descriptor) :
  voiceUploaded voiceFiles desc = true ->
  jsstring_eqb (orElse (fromOption (d_type desc)) (js "text")) (js "voice")
  && truthy (d_voiceFile desc) = true ->
  exists f,
    findVoiceFile voiceFiles (fromOption (d_voiceFile desc)) = Some f.
Proof.
  unfold voiceUploaded, findVoiceFile. intros H Hv. rewrite Hv in H.
  induction voiceFiles as [|f fs IH]; simpl in *; [discriminate|].
  destruct (jsstring_eqb (originalname f) (fromOption (d_voiceFile desc))).
  - now exists f.
  - now apply IH.
Qed.

(** The loop over the photo files runs to its end, one photo per file and
    in the order of the files, when every voice note finds its audio. *)
Lemma processPhotos_completes (env : Env) (voiceFiles : list File)
  (descs : list Descriptor) (photoFiles : list File) :
  forall idx,
    (forall k, k < length photoFiles ->
               voiceUploaded voiceFiles (nth (idx + k) descs noProperties) = true) ->
    exists ps,
      processPhotos env voiceFiles descs idx photoFiles = inr ps /\
      map path ps = map file_path photoFiles.
Proof.
  induction photoFiles as [|imageFile rest IH]; intros idx Hv; simpl.
  - now exists [].
  - destruct (IH (S idx)) as (ps & Hps & Hpaths).
    { intros k Hk. replace (S idx + k) with (idx + S k) by lia.
      apply Hv. simpl. lia. }
    specialize (Hv 0 ltac:(simpl; lia)). rewrite Nat.add_0_r in Hv.
    rewrite Hps.
    destruct (jsstring_eqb _ (js "voice") && truthy _) eqn:Evoice.
    + destruct (voiceUploaded_find _ _ Hv Evoice) as (f & ->).
      destruct (speechToText env (file_path f));
        eexists; (split; [reflexivity|]); simpl; now rewrite Hpaths.
    + eexists; (split; [reflexivity|]); simpl; now rewrite Hpaths.
Qed.

Lemma createReport_rejects_count (env : Env) (req : CreateRequest)
  (rs : list Report) :
  length (files_photos req) < 1 \/ 20 < length (files_photos req) ->
  statusCode (fst (createReport env req rs)) = 400 /\
  snd (createReport env req rs) = rs.
Proof.
  intros Hn. unfold createReport.
  destruct (_ || _ || _); [now split|].
  assert ((length (files_photos req) <? 1) || (20 <? length (files_photos req))
          = true) as ->.
  { apply orb_true_iff. destruct Hn; [left|right]; now apply Nat.ltb_lt. }
  now split.
Qed.

(** The part of the handler that accepts a request. *)
Lemma createReport_accepts (env : Env) (req : CreateRequest)
  (rs : list Report) :
  1 <= length (files_photos req) <= 20 ->
  requiredFields req = true ->
  descriptionsMatch env req = true ->
  forallb (voiceUploaded (files_voices req)) (parsedDescriptors env req) = true ->
  exists report,
    fst (createReport env req rs)
    = {| statusCode := 201; body := ReportBody report |} /\
    snd (createReport env req rs) = rs ++ [report] /\
    map path (photos report) = map file_path (files_photos req) /\
    aiReport report = None.
Proof.
  intros Hn Hreq Hmatch Hvoices.
  unfold createReport, requiredFields, descriptionsMatch, parsedDescriptors in *.
  apply andb_true_iff in Hreq as [Hreq Ha].
  apply andb_true_iff in Hreq as [Hj Hc].
  rewrite Hj, Hc, Ha. simpl.
  assert ((length (files_photos req) <? 1) || (20 <? length (files_photos req))
          = false) as ->.
  { apply orb_false_iff. split; apply Nat.ltb_ge; lia. }
  destruct (JSON_parse env _) as [[descs|]|]; try discriminate.
  rewrite Hmatch. simpl.
  apply Nat.eqb_eq in Hmatch.
  destruct (processPhotos_completes env (files_voices req) descs
              (files_photos req) 0) as (ps & -> & Hpaths).
  { intros k Hk. simpl. rewrite forallb_forall in Hvoices.
    apply Hvoices, nth_In. lia. }
  eexists. repeat split. exact Hpaths.
Qed.

(** The part of the handler that refuses descriptions which are not an
    array with one entry per photo. *)
Lemma createReport_rejects_descriptions (env : Env) (req : CreateRequest)
  (rs : list Report) :
  descriptionsMatch env req = false ->
  statusCode (fst (createReport env req rs)) = 400 /\
  snd (createReport env req rs) = rs.
Proof.
  unfold descriptionsMatch, createReport. intros H.
  destruct (_ || _ || _); [now split|].
  destruct (_ || _) eqn:Ecount; [now split|].
  apply orb_false_iff in Ecount as [E1 _]. apply Nat.ltb_ge in E1.
  destruct (JSON_parse env _) as [[descs|]|].
  - rewrite H. now split.
  - now split.
  - simpl. destruct (length (files_photos req)); [lia|now split].
Qed.

(** ** The upload middleware before the handler *)

Lemma filesFrom_photos (stored : nat -> jsstring) (form : list Client.Entry) :
  forall n, length (filesFrom stored (js "photos") n form) = photosSent form.
Proof.
  unfold photosSent.
  induction form as [|[key part|key value] form IH]; intros n;
    cbn [filesFrom filter isPhotoPart]; [reflexivity| |apply IH].
  destruct (jsstring_eqb key (js "photos")); cbn [length]; now rewrite IH.
Qed.

(** The request that the middleware hands over holds the fields and the
    files of the form. *)
Lemma upload_Handed (env : Env) (stored : nat -> jsstring)
  (form : list Client.Entry) (req : CreateRequest) :
  upload env stored form = Handed req ->
  checkFiles env [] 20 20 form = Passes /\
  files_photos req = filesFrom stored (js "photos") 0 form /\
  files_voices req = filesFrom stored (js "voices") 0 form /\
  body_photoDescriptions req = fieldOf (js "photoDescriptions") form.
Proof.
  unfold upload. destruct (checkFiles env [] 20 20 form); try discriminate.
  intros [= <-]. now repeat split.
Qed.

(** A file beyond the places left in the field [photos] stops the
    middleware, if nothing has stopped it before. *)
Lemma checkFiles_limit (env : Env) (form : list Client.Entry) :
  forall before photosLeft voicesLeft,
    photosLeft < photosSent form ->
    checkFiles env before photosLeft voicesLeft form <> Passes.
Proof.
  unfold photosSent.
  induction form as [|[key part|key value] form IH];
    intros before photosLeft voicesLeft Hn;
    cbn [filter isPhotoPart length] in Hn; [lia| |now apply IH].
  cbn [checkFiles]. cbv zeta.
  destruct (jsstring_eqb key (js "photos")).
  - cbn [length] in Hn. destruct photosLeft as [|left]; [discriminate|].
    destruct (negb _); [discriminate|].
    destruct (filenameThrows env before); [discriminate|].
    apply IH. lia.
  - destruct (jsstring_eqb key (js "voices")); [|discriminate].
    destruct voicesLeft as [|left]; [discriminate|].
    destruct (negb _); [discriminate|].
    destruct (filenameThrows env before); [discriminate|].
    now apply IH.
Qed.

(** A file that follows descriptions on which the storage throws stops
    the middleware, if nothing has stopped it before. *)
Lemma checkFiles_throwing (env : Env) (key : jsstring) (part : Client.Part)
  (after before : list Client.Entry) :
  forall before0 photosLeft voicesLeft,
    filenameThrows env (before0 ++ before) = true ->
    checkFiles env before0 photosLeft voicesLeft
      (before ++ Client.FileEntry key part :: after) <> Passes.
Proof.
  induction before as [|[k p|k v] before IH];
    intros before0 photosLeft voicesLeft Hthrows; cbn [app checkFiles]; cbv zeta.
  - rewrite app_nil_r in Hthrows. rewrite Hthrows.
    destruct (jsstring_eqb key (js "photos")).
    + destruct photosLeft; [discriminate|]. now destruct (negb _).
    + destruct (jsstring_eqb key (js "voices")); [|discriminate].
      destruct voicesLeft; [discriminate|]. now destruct (negb _).
  - assert (Hnext : filenameThrows env
                      ((before0 ++ [Client.FileEntry k p]) ++ before) = true)
      by now rewrite <- app_assoc.
    destruct (jsstring_eqb k (js "photos")).
    + destruct photosLeft; [discriminate|]. destruct (negb _); [discriminate|].
      destruct (filenameThrows env before0); [discriminate|]. now apply IH.
    + destruct (jsstring_eqb k (js "voices")); [|discriminate].
      destruct voicesLeft; [discriminate|]. destruct (negb _); [discriminate|].
      destruct (filenameThrows env before0); [discriminate|]. now apply IH.
  - apply IH. now rewrite <- app_assoc.
Qed.

(** The storage throws only at a file that follows such descriptions. *)
Lemma checkFiles_Throws (env : Env) (form : list Client.Entry) :
  forall before0 photosLeft voicesLeft,
    checkFiles env before0 photosLeft voicesLeft form = Throws ->
    exists before key part after,
      form = before ++ Client.FileEntry key part :: after /\
      filenameThrows env (before0 ++ before) = true.
Proof.
  induction form as [|[key part|key value] form IH];
    intros before0 photosLeft voicesLeft; cbn [checkFiles]; cbv zeta;
    [discriminate| |].
  - assert (Hrest : forall pl vl,
               checkFiles env (before0 ++ [Client.FileEntry key part]) pl vl form
               = Throws ->
               exists before k p after,
                 Client.FileEntry key part :: form
                 = before ++ Client.FileEntry k p :: after /\
                 filenameThrows env (before0 ++ before) = true).
    { intros pl vl H. destruct (IH _ _ _ H) as (before & k & p & after & -> & Ht).
      exists (Client.FileEntry key part :: before), k, p, after.
      split; [reflexivity|]. now rewrite <- app_assoc in Ht. }
    assert (Hhere : filenameThrows env before0 = true ->
               exists before k p after,
                 Client.FileEntry key part :: form
                 = before ++ Client.FileEntry k p :: after /\
                 filenameThrows env (before0 ++ before) = true).
    { intros Ht. exists [], key, part, form. now rewrite app_nil_r. }
    destruct (jsstring_eqb key (js "photos")).
    + destruct photosLeft; [discriminate|]. destruct (negb _); [discriminate|].
      destruct (filenameThrows env before0); [auto|apply Hrest].
    + destruct (jsstring_eqb key (js "voices")); [|discriminate].
      destruct voicesLeft; [discriminate|]. destruct (negb _); [discriminate|].
      destruct (filenameThrows env before0); [auto|apply Hrest].
  - intros H. destruct (IH _ _ _ H) as (before & k & p & after & -> & Ht).
    exists (Client.FieldEntry key value :: before), k, p, after.
    split; [reflexivity|]. now rewrite <- app_assoc in Ht.
Qed.

Lemma filenameThrows_true (env : Env) (before : list Client.Entry)
  (s : jsstring) :
  fieldOf (js "photoDescriptions") before = Some s ->
  s <> [] ->
  (forall descs, JSON_parse env s <> Some (JArray descs)) ->
  filenameThrows env before = true.
Proof.
  intros Hs Hne Hparse. unfold filenameThrows. rewrite Hs.
  destruct s as [|c s]; [congruence|].
  destruct (JSON_parse env (c :: s)) as [[descs|]|] eqn:E; try reflexivity.
  now destruct (Hparse descs).
Qed.

Lemma filenameThrows_inv (env : Env) (before : list Client.Entry) :
  filenameThrows env before = true ->
  exists s,
    fieldOf (js "photoDescriptions") before = Some s /\
    s <> [] /\
    forall descs, JSON_parse env s <> Some (JArray descs).
Proof.
  unfold filenameThrows.
  destruct (fieldOf (js "photoDescriptions") before) as [[|c s]|];
    try discriminate.
  intros H. exists (c :: s). split; [reflexivity|]. split; [discriminate|].
  intros descs E. rewrite E in H. discriminate.
Qed.

(** The route answers as the handler does when the middleware hands the
    request over. *)
Lemma postReports_Handed (env : Env) (stored : nat -> jsstring)
  (form : list Client.Entry) (req : CreateRequest) (rs : list Report) :
  upload env stored form = Handed req ->
  postReports env stored form rs
  = Answers (fst (createReport env req rs)) (snd (createReport env req rs)).
Proof. unfold postReports. now intros ->. Qed.

(** A form that stops the middleware is answered 500 by the error
    handler, or ends the process. *)
Lemma postReports_stopped (env : Env) (stored : nat -> jsstring)
  (form : list Client.Entry) (rs : list Report) :
  checkFiles env [] 20 20 form <> Passes ->
  postReports env stored form rs = ProcessExits \/
  postReports env stored form rs = Answers (error 500 "Server error") rs.
Proof.
  unfold postReports, upload.
  destruct (checkFiles env [] 20 20 form); [congruence|now right|now left].
Qed.







(** ** Analysis *)

(** C6.  When the report is found and the generator is called (no
    narrative yet, or [force]), a generator that throws leaves the store
    exactly as it was and the caller is answered 500; a generator that
    returns a text replaces [aiReport] of the found report by that text,
    in place, every other field and every other report staying as they
    were.  The store changes only on such a success. *)
Theorem analyze_atomic (env : Env) (i : jsstring) (force : bool)
  (rs : list Report) :
  (forall r,
      findReport i rs = Some r ->
      truthy (aiReport r) && negb force = false ->
      generateReportContent env (describe r) = None ->
      snd (analyze env i force rs) = rs /\
      fst (analyze env i force rs) = error 500 "Failed to analyze report") /\
  (forall r ai,
      findReport i rs = Some r ->
      truthy (aiReport r) && negb force = false ->
      generateReportContent env (describe r) = Some ai ->
      fst (analyze env i force rs) = json (AiReportBody ai) /\
      exists pre post,
        rs = pre ++ r :: post /\
        (forall q, In q pre -> id q <> i) /\
        snd (analyze env i force rs) = pre ++ set_aiReport (Some ai) r :: post) /\
  (snd (analyze env i force rs) <> rs ->
   exists r ai,
     findReport i rs = Some r /\
     truthy (aiReport r) && negb force = false /\
     generateReportContent env (describe r) = Some ai).
Proof.
  unfold analyze. split; [|split].
  - intros r Hfind Hcall Hgen. rewrite Hfind, Hcall.
    fold (describe r). rewrite Hgen. now split.
  - intros r ai Hfind Hcall Hgen. rewrite Hfind, Hcall.
    fold (describe r). rewrite Hgen. split; [reflexivity|].
    destruct (findReport_split _ _ _ Hfind) as (pre & post & -> & _ & Hpre & Hupd).
    exists pre, post. cbn [snd]. now rewrite Hupd.
  - destruct (findReport i rs) as [r|] eqn:Hfind; [|now intros []].
    destruct (truthy (aiReport r) && negb force) eqn:Hcall; [now intros []|].
    fold (describe r).
    destruct (generateReportContent env (describe r)) as [ai|] eqn:Hgen;
      [|now intros []].
    intros _. now exists r, ai.
Qed.

Lemma analyze_atomic_witness :
  (snd (analyze sampleEnv (js "1700000000000") false [sampleReport None])
   = [sampleReport None] /\
   fst (analyze sampleEnv (js "1700000000000") false [sampleReport None])
   = error 500 "Failed to analyze report") /\
  fst (analyze answeringEnv (js "1700000000000") false [sampleReport None])
  = json (AiReportBody mislabelledNarrative).
Proof.
  split.
  - apply (proj1 (analyze_atomic sampleEnv (js "1700000000000") false
                    [sampleReport None]) (sampleReport None));
      reflexivity.
  - apply (proj1 (proj2 (analyze_atomic answeringEnv (js "1700000000000") false
                           [sampleReport None]))
             (sampleReport None) mislabelledNarrative);
      reflexivity.
Defined.

(** ** Report identifiers *)

Lemma assign_id (r : Report) (e : PatchEntry) :
  id (assign r e) = match e with patch_id v => v | _ => id r end.
Proof. now destruct e. Qed.

Lemma fold_assign_id (body : list PatchEntry) (r : Report) :
  id (fold_left assign body r) = patchedId body (id r).
Proof.
  unfold patchedId. revert r.
  induction body as [|e body IH]; intros r; simpl; auto.
  rewrite IH, assign_id. reflexivity.
Qed.

Lemma patchedId_without_id (body : list PatchEntry) (old : jsstring) :
  forallb (fun e => negb (isPatchId e)) body = true ->
  patchedId body old = old.
Proof.
  unfold patchedId. revert old.
  induction body as [|e body IH]; intros old; simpl; auto.
  intros H. apply andb_true_iff in H as [He Hb].
  rewrite IH by exact Hb. now destruct e.
Qed.

(** C9 (as amended).  Creation keeps every stored report and appends at
    most one; analysis, PDF generation, email and the two reads leave
    every id as it was; a patch leaves every id as it was unless its body
    carries an [id] key, in which case the patched report takes the value
    given for that key. *)
Theorem report_id_stability (env : Env) (rs : list Report) :
  (forall req, exists added,
      snd (createReport env req rs) = rs ++ added /\ length added <= 1) /\
  (forall i force, map id (snd (analyze env i force rs)) = map id rs) /\
  (forall i, snd (getPdf env i rs) = rs) /\
  (forall i email, snd (emailReport env i email rs) = rs) /\
  snd (getReports rs) = rs /\
  (forall i, snd (getReport i rs) = rs) /\
  (forall i body,
      map id (snd (patchReport i body rs))
      = map id (updateFound i (fun r => withId (patchedId body (id r)) r) rs)) /\
  (forall i body,
      forallb (fun e => negb (isPatchId e)) body = true ->
      map id (snd (patchReport i body rs)) = map id rs).
Proof.
  assert (Hpatch : forall i body,
      map id (snd (patchReport i body rs))
      = map id (updateFound i (fun r => withId (patchedId body (id r)) r) rs)).
  { intros i body. unfold patchReport.
    destruct (findReport i rs) as [r|] eqn:Hfind; simpl.
    - destruct (findReport_split _ _ _ Hfind) as (pre & post & -> & _ & _ & Hupd).
      rewrite !Hupd, !map_app. simpl. now rewrite fold_assign_id.
    - now rewrite findReport_None_update. }
  repeat split.
  - intros req. unfold createReport.
    destruct (_ || _ || _); [exists []; rewrite app_nil_r; auto|].
    destruct (_ || _); [exists []; rewrite app_nil_r; auto|].
    destruct (match JSON_parse env _ with Some v => v | None => JArray [] end)
      as [descs|]; [|exists []; rewrite app_nil_r; auto].
    destruct (negb _); [exists []; rewrite app_nil_r; auto|].
    destruct (processPhotos _ _ _ _ _); [exists []; rewrite app_nil_r; auto|].
    eexists [_]. simpl. auto.
  - intros i force. unfold analyze.
    destruct (findReport i rs) as [r|]; simpl; auto.
    destruct (_ && _); simpl; auto.
    destruct (generateReportContent _ _); simpl; auto.
    now apply updateFound_ids.
  - intros i. unfold getPdf. destruct (findReport i rs); auto.
    cbv zeta. destruct (outcome _); auto.
  - intros i email. unfold emailReport. destruct (findReport i rs); auto.
    cbv zeta. destruct (outcome _); auto. destruct (sendMail _ _ _); auto.
  - intros i. unfold getReport. destruct (findReport i rs); auto.
  - exact Hpatch.
  - intros i body Hbody. rewrite Hpatch. apply updateFound_ids.
    intros r. unfold withId. rewrite assign_id.
    now apply patchedId_without_id.
Qed.

Lemma report_id_stability_witness :
  map id (snd (patchReport (js "1700000000000")
                 [patch_aiReport (Some (js "Edited")); other (js "note")]
                 [sampleReport None]))
  = map id [sampleReport None].
Proof.
  apply (proj2 (proj2 (proj2 (proj2 (proj2 (proj2 (proj2
           (report_id_stability sampleEnv [sampleReport None])))))))).
  reflexivity.
Defined.

(** C9 as stated fails: a patch whose body carries an [id] key changes
    the id of the stored report. *)
Lemma patch_changes_id :
  map id [sampleReport None] = [js "1700000000000"] /\
  map id (snd (patchReport (js "1700000000000") [patch_id (js "42")]
                 [sampleReport None]))
  = [js "42"].
Proof. split; reflexivity. Qed.

(** ** The report title *)

Lemma split_go_first_line (line rest : jsstring) :
  ~ In LF line ->
  rest = [] \/ (exists rest', rest = LF :: rest') ->
  forall cur,
    nth 0 (split_go [LF] 0 cur (line ++ rest)) [] = rev cur ++ line.
Proof.
  intros Hline Hrest.
  induction line as [|c line IH]; intros cur.
  - rewrite app_nil_r.
    destruct Hrest as [->|(rest' & ->)]; cbn [app split_go startsWith].
    + reflexivity.
    + rewrite N.eqb_refl. reflexivity.
  - cbn [app split_go startsWith].
    destruct (N.eqb_spec LF c) as [<-|Hc].
    + exfalso. apply Hline. now left.
    + cbn [andb]. rewrite IH.
      * cbn [rev]. now rewrite <- app_assoc.
      * intros Hin. apply Hline. now right.
Qed.

(** C3 (as amended).  The title is the first line of the narrative (the
    text before the first line feed) with surrounding whitespace trimmed,
    when the narrative is non-empty and that trimmed line is longer than
    10 code units; otherwise, and so for a null or empty narrative, it is
    the job name, or ["Property Inspection Report"] when the job name is
    empty.  From a null or empty narrative no section is parsed. *)
Theorem reportTitle_first_line (report : Report) :
  (forall line rest,
      aiReport report = Some (line ++ rest) ->
      line ++ rest <> [] ->
      ~ In LF line ->
      rest = [] \/ (exists rest', rest = LF :: rest') ->
      reportTitle report
      = if 10 <? length (trim line) then trim line else defaultTitle report) /\
  (aiReport report = None \/ aiReport report = Some [] ->
   reportTitle report = defaultTitle report /\
   parseSections (aiReport report) = []).
Proof.
  split.
  - intros line rest Hai Hne Hline Hrest.
    unfold reportTitle. rewrite Hai.
    destruct (line ++ rest) as [|c t] eqn:Ht; [congruence|].
    rewrite <- Ht. unfold split.
    rewrite (split_go_first_line line rest Hline Hrest []). simpl.
    destruct (trim line) eqn:E; reflexivity.
  - intros [H|H]; unfold reportTitle; rewrite H; now split.
Qed.

Lemma reportTitle_first_line_witness :
  reportTitle (sampleReport (Some mislabelledNarrative))
  = (if 10 <? length (trim (js "Water damage in kitchen"))
     then trim (js "Water damage in kitchen")
     else defaultTitle (sampleReport (Some mislabelledNarrative))) /\
  reportTitle (sampleReport None) = defaultTitle (sampleReport None) /\
  parseSections (aiReport (sampleReport None)) = [].
Proof.
  split.
  - apply (proj1 (reportTitle_first_line (sampleReport (Some mislabelledNarrative)))
             (js "Water damage in kitchen")
             (LF :: js "Photo 7: Problem Description: Cracked tile." ++ LF ::
              js "Photo 1: Priority Level: High.")).
    + reflexivity.
    + discriminate.
    + vm_compute. intuition discriminate.
    + right. eexists. reflexivity.
  - apply (proj2 (reportTitle_first_line (sampleReport None))).
    left. reflexivity.
Defined.

(** C3 as stated fails: without a narrative the title is the job name, not
    ["Site Inspection Report"], and the sections read by the breakdown are
    then built from the photos; asterisks of the first line are kept; a
    first line of 10 code units or fewer is not used. *)
Lemma reportTitle_differs_from_claimed_heading :
  (reportTitle (sampleReport None) = js "Kitchen" /\
   claimedHeading None = js "Site Inspection Report" /\
   length (photoSections (sampleReport None)) = 2) /\
  (reportTitle (sampleReport (Some (js "**Water damage**" ++ LF :: js "Photo 1: x")))
   = js "**Water damage**" /\
   claimedHeading (Some (js "**Water damage**" ++ LF :: js "Photo 1: x"))
   = js "Water damage") /\
  (reportTitle (sampleReport (Some (js "Leaks" ++ LF :: js "Photo 1: x")))
   = js "Kitchen" /\
   claimedHeading (Some (js "Leaks" ++ LF :: js "Photo 1: x")) = js "Leaks").
Proof. repeat split. Qed.

(** ** Field extraction *)

Lemma startsWith_app (p r : jsstring) : startsWith p (p ++ r) = true.
Proof. induction p as [|a p IH]; simpl; auto. now rewrite N.eqb_refl. Qed.

Lemma startsWith_inv (p s : jsstring) :
  startsWith p s = true -> s = p ++ skipn (length p) s.
Proof.
  revert s. induction p as [|a p IH]; intros s; simpl; auto.
  destruct s as [|b s]; [discriminate|].
  intros H. apply andb_true_iff in H as [Hab Hp].
  apply N.eqb_eq in Hab. subst b. f_equal. now apply IH.
Qed.

Lemma skipn_length_app (p r : jsstring) : skipn (length p) (p ++ r) = r.
Proof. induction p; simpl; auto. Qed.

Lemma labelText_nonempty (l : Label) : labelText l <> [].
Proof. destruct l; discriminate. Qed.

Lemma Label_eqb_eq (a b : Label) : Label_eqb a b = true <-> a = b.
Proof. destruct a, b; simpl; split; congruence. Qed.

Lemma lookaheadLabels_In (l m : Label) : In m (lookaheadLabels l) <-> m <> l.
Proof.
  unfold lookaheadLabels. rewrite filter_In. split.
  - intros [_ H] ->. destruct l; discriminate.
  - intros H. split; [destruct m; simpl; auto 6|].
    destruct (Label_eqb l m) eqn:E; auto.
    apply Label_eqb_eq in E. congruence.
Qed.

Lemma lookahead_true (stops : list Label) (t : jsstring) :
  lookahead stops t = true ->
  t = [] \/ exists m, In m stops /\ startsWith (labelText m) t = true.
Proof.
  unfold lookahead. intros H. apply orb_true_iff in H as [H|H].
  - right. apply existsb_exists in H. exact H.
  - left. destruct t; [reflexivity|discriminate].
Qed.

Lemma lookahead_false (stops : list Label) (t : jsstring) :
  lookahead stops t = false ->
  forall m, In m stops -> startsWith (labelText m) t = false.
Proof.
  unfold lookahead. intros H m Hm. apply orb_false_iff in H as [H _].
  destruct (startsWith (labelText m) t) eqn:E; auto.
  assert (existsb (fun m => startsWith (labelText m) t) stops = true)
    by (apply existsb_exists; eauto).
  congruence.
Qed.

(** The lazy quantifier stops at the first place where the lookahead
    succeeds. *)
Lemma lookahead_nil (stops : list Label) : lookahead stops [] = true.
Proof. unfold lookahead. apply orb_true_r. Qed.

Lemma lazyRest_spec (stops : list Label) (t : jsstring) :
  exists rest,
    t = lazyRest stops t ++ rest /\
    lookahead stops rest = true /\
    (forall v1 v2, lazyRest stops t = v1 ++ v2 -> v2 <> [] ->
                   lookahead stops (v2 ++ rest) = false).
Proof.
  induction t as [|c t IH].
  - exists []. cbn [lazyRest]. rewrite lookahead_nil.
    split; [reflexivity|]. split; [reflexivity|].
    intros v1 v2 H. symmetry in H. apply app_eq_nil in H as [_ ->].
    congruence.
  - cbn [lazyRest]. destruct (lookahead stops (c :: t)) eqn:E.
    + exists (c :: t). split; [reflexivity|]. split; [exact E|].
      intros v1 v2 H. symmetry in H. apply app_eq_nil in H as [_ ->].
      congruence.
    + destruct IH as (rest & Ht & Hl & Hmin). exists rest.
      split; [simpl; now rewrite <- Ht|]. split; [exact Hl|].
      intros v1 v2 H Hv2. destruct v1 as [|a v1]; simpl in H.
      * subst v2. simpl. now rewrite <- Ht.
      * injection H as _ H. now apply Hmin with v1.
Qed.

Lemma matchWith_Some (stops : list Label) (l : Label) (s v : jsstring) :
  matchWith stops l s = Some v ->
  exists pre r,
    s = pre ++ labelText l ++ r /\
    capture stops r = Some v /\
    (forall pre1 rest1, s = pre1 ++ labelText l ++ rest1 ->
                        length pre <= length pre1).
Proof.
  induction s as [|c s IH]; cbn [matchWith].
  - destruct (startsWith (labelText l) []) eqn:E.
    + apply startsWith_inv in E. destruct (labelText l) eqn:El; [|discriminate].
      now apply labelText_nonempty in El.
    + discriminate.
  - destruct (startsWith (labelText l) (c :: s)) eqn:E.
    + pose proof (startsWith_inv _ _ E) as Hs.
      destruct (capture stops (skipn (length (labelText l)) (c :: s))) as [w|] eqn:Ec.
      * intros [= ->]. exists [], (skipn (length (labelText l)) (c :: s)).
        repeat split; auto. intros. simpl. lia.
      * intros H. destruct (IH H) as (pre & r & Hs' & _ & _).
        unfold capture in Ec.
        destruct (skipn (length (labelText l)) (c :: s)) eqn:Er; [|discriminate].
        rewrite app_nil_r in Hs. apply (f_equal (@length _)) in Hs, Hs'.
        rewrite !length_app in Hs'. simpl in Hs. lia.
    + intros H. destruct (IH H) as (pre & r & -> & Hc & Hleft).
      exists (c :: pre), r. repeat split; auto.
      intros pre1 rest1 Hdec. destruct pre1 as [|a pre1].
      * simpl in Hdec. rewrite Hdec, startsWith_app in E. discriminate.
      * injection Hdec as _ Hdec. simpl. apply Hleft in Hdec. lia.
Qed.

Lemma matchWith_None (stops : list Label) (l : Label) (s : jsstring) :
  matchWith stops l s = None <->
  (forall pre rest, s = pre ++ labelText l ++ rest -> rest = []).
Proof.
  induction s as [|c s IH]; cbn [matchWith].
  - split.
    + intros _ pre rest H. symmetry in H.
      apply app_eq_nil in H as [_ H]. apply app_eq_nil in H as [H _].
      now apply labelText_nonempty in H.
    + intros _. destruct (startsWith (labelText l) []); auto.
      now destruct (capture stops _) eqn:E; [destruct (labelText l)|].
  - split.
    + intros H pre rest Hdec. destruct pre as [|a pre].
      * simpl in Hdec. rewrite Hdec, startsWith_app, skipn_length_app in H.
        destruct rest; [reflexivity|discriminate].
      * injection Hdec as _ Hdec.
        destruct (if startsWith (labelText l) (c :: s) then _ else None);
          [discriminate|].
        now apply (proj1 IH H pre).
    + intros H.
      assert (matchWith stops l s = None) as ->.
      { apply IH. intros pre rest ->. now apply (H (c :: pre)). }
      destruct (startsWith (labelText l) (c :: s)) eqn:E; auto.
      apply startsWith_inv in E.
      rewrite (H [] _ E). reflexivity.
Qed.

Lemma includes_tail (p : jsstring) (c : code_unit) (s : jsstring) :
  includes p (c :: s) = false ->
  startsWith p (c :: s) = false /\ includes p s = false.
Proof. simpl. intros H. now apply orb_false_iff in H. Qed.

Lemma includes_skipn (p : jsstring) (n : nat) (s : jsstring) :
  includes p s = false -> includes p (skipn n s) = false.
Proof.
  revert s. induction n as [|n IH]; intros s H; [exact H|].
  destruct s as [|c s]; [exact H|].
  simpl. apply IH. now apply includes_tail in H.
Qed.

Lemma includes_false (p s : jsstring) :
  includes p s = false -> forall pre rest, s <> pre ++ p ++ rest.
Proof.
  intros H pre. revert s H. induction pre as [|a pre IH]; intros s H rest ->.
  - simpl in H. destruct (p ++ rest) eqn:E.
    + simpl in H. apply orb_false_iff in H as [H _].
      destruct p; simpl in *; congruence.
    + apply includes_tail in H as [H _]. rewrite <- E, startsWith_app in H.
      discriminate.
  - apply includes_tail in H as [_ H]. now apply (IH _ H rest).
Qed.

(** Where label [m] begins nowhere, an alternative for [m] in the
    lookahead makes no difference. *)
Lemma lookahead_without (m : Label) (stops : list Label) (t : jsstring) :
  startsWith (labelText m) t = false ->
  lookahead (filter (fun x => negb (Label_eqb m x)) stops) t
  = lookahead stops t.
Proof.
  intros H. unfold lookahead. f_equal.
  induction stops as [|x stops IH]; simpl; auto.
  destruct (Label_eqb m x) eqn:E; simpl.
  - apply Label_eqb_eq in E. subst x. now rewrite H.
  - now rewrite IH.
Qed.

Lemma lazyRest_without (m : Label) (stops : list Label) (t : jsstring) :
  includes (labelText m) t = false ->
  lazyRest (filter (fun x => negb (Label_eqb m x)) stops) t
  = lazyRest stops t.
Proof.
  induction t as [|c t IH]; intros H; cbn [lazyRest].
  - rewrite !lookahead_nil. reflexivity.
  - apply includes_tail in H as [Hs Ht].
    rewrite lookahead_without by exact Hs.
    now rewrite IH.
Qed.

Lemma matchWith_without (m : Label) (stops : list Label) (l : Label)
  (s : jsstring) :
  includes (labelText m) s = false ->
  matchWith (filter (fun x => negb (Label_eqb m x)) stops) l s
  = matchWith stops l s.
Proof.
  induction s as [|c s IH]; intros H; cbn [matchWith].
  - rewrite skipn_nil. reflexivity.
  - pose proof (includes_skipn _ (length (labelText l)) _ H) as Hskip.
    apply includes_tail in H as [_ Ht].
    rewrite IH by exact Ht.
    destruct (startsWith (labelText l) (c :: s)); auto.
    unfold capture.
    destruct (skipn (length (labelText l)) (c :: s)) as [|a r]; auto.
    apply includes_tail in Hskip as [_ Hr].
    now rewrite lazyRest_without.
Qed.

(** C5 (as amended).  Extraction of a field is anchored on its label and
    independent of the order of the labels.  The field is absent exactly
    when its label is followed by no code unit anywhere in the section
    (so when the label is missing).  Otherwise its value is, with
    asterisks and surrounding whitespace stripped, the text [v] after the
    leftmost occurrence of the label, where [v] is not empty and ends at
    the first place, at least one code unit after the label, where one of
    the other four labels begins, or at the end of the section.  A
    section in which label [m] occurs nowhere yields [m] absent, and
    every other field has the value it would have if [m] were not among
    the labels looked for. *)
Theorem fieldValue_label_anchored (l : Label) (s : jsstring) :
  (fieldValue l s = None <->
   forall pre rest, s = pre ++ labelText l ++ rest -> rest = []) /\
  (forall w,
      fieldValue l s = Some w ->
      exists pre v rest,
        s = pre ++ labelText l ++ v ++ rest /\
        w = trim (removeAsterisks v) /\
        (forall pre1 rest1, s = pre1 ++ labelText l ++ rest1 ->
                            length pre <= length pre1) /\
        v <> [] /\
        (rest = [] \/ exists m, m <> l /\ startsWith (labelText m) rest = true) /\
        (forall v1 v2 m, v = v1 ++ v2 -> v1 <> [] -> v2 <> [] -> m <> l ->
                         startsWith (labelText m) (v2 ++ rest) = false)) /\
  (forall m,
      includes (labelText m) s = false ->
      fieldValue m s = None /\ fieldValue l s = fieldValueWithout m l s).
Proof.
  split; [|split].
  - unfold fieldValue, fieldMatch.
    rewrite <- (matchWith_None (lookaheadLabels l)).
    destruct (matchWith _ _ _); simpl; split; congruence.
  - unfold fieldValue, fieldMatch. intros w Hw.
    destruct (matchWith (lookaheadLabels l) l s) as [v|] eqn:Hm; [|discriminate].
    injection Hw as <-.
    destruct (matchWith_Some _ _ _ _ Hm) as (pre & r & Hs & Hc & Hleft).
    unfold capture in Hc. destruct r as [|c r]; [discriminate|].
    injection Hc as <-.
    destruct (lazyRest_spec (lookaheadLabels l) r) as (rest & Hr & Hl & Hmin).
    exists pre, (c :: lazyRest (lookaheadLabels l) r), rest.
    split; [simpl; now rewrite <- Hr|]. split; [reflexivity|].
    split; [exact Hleft|]. split; [discriminate|]. split.
    + apply lookahead_true in Hl as [->|(m & Hin & Hsw)]; [now left|].
      right. exists m. split; [now apply lookaheadLabels_In|exact Hsw].
    + intros v1 v2 m Hv Hv1 Hv2 Hml.
      destruct v1 as [|a v1]; [congruence|]. injection Hv as _ Hv.
      apply (lookahead_false (lookaheadLabels l)).
      * now apply Hmin with v1.
      * now apply lookaheadLabels_In.
  - intros m Hm. split.
    + unfold fieldValue, fieldMatch.
      assert (matchWith (lookaheadLabels m) m s = None) as ->; [|reflexivity].
      apply matchWith_None. intros pre rest Hs.
      now apply (includes_false _ _ Hm) in Hs.
    + unfold fieldValue, fieldValueWithout, fieldMatch.
      now rewrite matchWith_without.
Qed.

Lemma fieldValue_label_anchored_witness :
  (fieldValue PriorityLevel
     (js "Photo 1: Safety Concerns: None. Problem Description: Cracked tile.")
   = None /\
   fieldValue ProblemDescription
     (js "Photo 1: Safety Concerns: None. Problem Description: Cracked tile.")
   = fieldValueWithout PriorityLevel ProblemDescription
       (js "Photo 1: Safety Concerns: None. Problem Description: Cracked tile.")) /\
  exists pre v rest,
    js "Photo 1: Safety Concerns: None. Problem Description: Cracked tile."
    = pre ++ labelText SafetyConcerns ++ v ++ rest /\
    js "None." = trim (removeAsterisks v).
Proof.
  split.
  - apply (proj2 (proj2 (fieldValue_label_anchored ProblemDescription
             (js "Photo 1: Safety Concerns: None. Problem Description: Cracked tile.")))
             PriorityLevel).
    reflexivity.
  - destruct (proj1 (proj2 (fieldValue_label_anchored SafetyConcerns
                (js "Photo 1: Safety Concerns: None. Problem Description: Cracked tile.")))
                (js "None.") eq_refl)
      as (pre & v & rest & Hs & Hw & _).
    now exists pre, v, rest.
Defined.

(** C5 as stated fails: a label directly followed by another label takes
    that label and its text as its value, where the text up to the next
    occurring label is empty; and a label ending the section is absent. *)
Lemma fieldValue_differs_from_claimed_field :
  (fieldValue ProblemDescription (js "Problem Description:Priority Level: High")
   = Some (js "Priority Level: High") /\
   claimedField ProblemDescription (js "Problem Description:Priority Level: High")
   = Some []) /\
  (fieldValue PriorityLevel (js "Problem Description: Crack. Priority Level:")
   = None /\
   claimedField PriorityLevel (js "Problem Description: Crack. Priority Level:")
   = Some []).
Proof. repeat split. Qed.

(** ** The call trace *)

Lemma emitted_bind {A B} (m : Doc A) (f : A -> Doc B) (h : list Call) :
  emitted (bind m f) h
  = emitted m h ++ emitted (f (fst (m h))) (h ++ emitted m h).
Proof.
  unfold emitted, bind. destruct (m h) as [a e1]. simpl.
  destruct (f a (h ++ e1)). reflexivity.
Qed.

Lemma emitted_call (c : Call) (h : list Call) : emitted (call c) h = [c].
Proof. reflexivity. Qed.

Lemma emitted_ret {A} (a : A) (h : list Call) : emitted (ret a) h = [].
Proof. reflexivity. Qed.

Lemma textsOf_app (a b : list Call) : textsOf (a ++ b) = textsOf a ++ textsOf b.
Proof.
  induction a as [|c a IH]; simpl; auto.
  destruct (textOf c); simpl; now rewrite IH.
Qed.

Lemma imagesOf_app (a b : list Call) :
  imagesOf (a ++ b) = imagesOf a ++ imagesOf b.
Proof.
  induction a as [|c a IH]; simpl; auto.
  destruct c; simpl; now rewrite IH.
Qed.

(** A [forEach] emits one stretch of calls per element, in order, the
    k-th stretch being what the callback emits on the k-th element and
    the index [idx + k]. *)
Lemma forEachFrom_chunks {A St} (f : A -> nat -> St -> Doc St) (l : list A) :
  forall idx s h,
  exists chunks,
    emitted (forEachFrom f idx l s) h = concat chunks /\
    length chunks = length l /\
    forall k a, nth_error l k = Some a ->
      exists s' h', nth_error chunks k = Some (emitted (f a (idx + k) s') h').
Proof.
  induction l as [|a l IH]; intros idx s h.
  - exists []. repeat split. intros [|k] ? [=].
  - cbn [forEachFrom]. rewrite emitted_bind.
    destruct (IH (S idx) (fst (f a idx s h)) (h ++ emitted (f a idx s) h))
      as (chunks & Hc & Hlen & Hnth).
    exists (emitted (f a idx s) h :: chunks). split; [|split].
    + simpl. now rewrite Hc.
    + simpl. now rewrite Hlen.
    + intros [|k] b Hb.
      * injection Hb as <-. exists s, h. now rewrite Nat.add_0_r.
      * destruct (Hnth k b Hb) as (s' & h' & Hk).
        exists s', h'. now replace (idx + S k) with (S idx + k) by lia.
Qed.

Lemma emitted_docY (cursorY : list Call -> Q) (h : list Call) :
  emitted (docY cursorY) h = [].
Proof. reflexivity. Qed.

(** One step through a sequence of calls: what the first computation
    emits, then the rest run on some value and some history. *)
Ltac unbind1 :=
  match goal with
  | |- context [emitted (bind ?m ?f) ?h] =>
      rewrite (emitted_bind m f h);
      generalize (fst (m h)); generalize (h ++ emitted m h);
      intros ? ?; cbv beta
  end.

Ltac unbind :=
  repeat unbind1;
  rewrite ?emitted_call, ?emitted_ret, ?emitted_docY.

Ltac trace :=
  unbind; rewrite ?textsOf_app, ?imagesOf_app;
  cbn [textsOf textOf imagesOf app].

Lemma photoBox_shows (disk : Disk) (photo : Photo) (x y : Q) (h : list Call) :
  textsOf (emitted (photoBox disk photo x y) h) = boxTexts disk photo /\
  imagesOf (emitted (photoBox disk photo x y) h) = boxImages disk photo.
Proof.
  unfold photoBox, boxTexts, boxImages, placeholder.
  destruct (existsSync disk (path photo)), (imageLoads disk (path photo));
    split; trace; reflexivity.
Qed.

(** A grid cell shows the box of its photo and, below it, the number of
    the photo: its index in the grid plus the offset of the grid, plus 1. *)
Lemma gridCell_shows (disk : Disk) (offset : nat) (photo : Photo) (k : nat)
  (g : Grid) (h : list Call) :
  textsOf (emitted (gridCell disk offset photo k g) h)
  = boxTexts disk photo ++ [js "Photo " ++ ofNat (k + offset + 1)] /\
  imagesOf (emitted (gridCell disk offset photo k g) h) = boxImages disk photo.
Proof.
  unfold gridCell.
  assert (Hret : forall (c : bool) (a b : Grid) h',
             emitted (if c then ret a else ret b) h' = [])
    by (now intros []).
  split; trace; rewrite Hret;
    match goal with
    | |- context [emitted (photoBox disk photo ?x ?y) ?h'] =>
        destruct (photoBox_shows disk photo x y h') as [Ht Hi];
        rewrite ?Ht, ?Hi
    end; cbn [textsOf imagesOf]; now rewrite ?app_nil_r.
Qed.

Lemma fieldMatch_nonempty (l : Label) (s v : jsstring) :
  fieldMatch l s = Some v -> v <> [].
Proof.
  unfold fieldMatch. intros H.
  destruct (matchWith_Some _ _ _ _ H) as (_ & r & _ & Hc & _).
  destruct r; [discriminate|]. injection Hc as <-. discriminate.
Qed.

Lemma labelled_shows (cursorY : list Call -> Q) (label value : jsstring)
  (h : list Call) :
  textsOf (emitted (labelled cursorY label value) h) = [label; value].
Proof. unfold labelled. trace. reflexivity. Qed.

Lemma field_shows (cursorY : list Call -> Q) (l : Label) (section : jsstring)
  (h : list Call) :
  textsOf (emitted (field cursorY l section) h) = fieldTexts section l.
Proof.
  unfold field, fieldTexts, fieldValue.
  destruct (fieldMatch l section) as [v|] eqn:E; [|reflexivity].
  pose proof (fieldMatch_nonempty _ _ _ E) as Hv.
  destruct v as [|c v]; [congruence|].
  apply labelled_shows.
Qed.

Lemma continuationPage_shows (cursorY : list Call -> Q) (title : jsstring)
  (h : list Call) :
  textsOf (emitted (continuationPage cursorY title) h) = continuationTexts title.
Proof. unfold continuationPage, addPageNumber. trace. reflexivity. Qed.

(** A breakdown entry shows the number of its photo, then what the
    section at its own index holds (or the description of the photo when
    there is no such section), then the heading of a continuation page if
    one is opened. *)
Lemma breakdownEntry_shows (cursorY : list Call -> Q) (title : jsstring)
  (sections : list jsstring) (total : nat) (photo : Photo) (k : nat)
  (h : list Call) :
  entryShows title photo k (nth k sections [])
    (textsOf (emitted (breakdownEntry cursorY title sections total photo k tt) h)).
Proof.
  unfold breakdownEntry.
  destruct (nth k sections []) as [|c section] eqn:Es.
  - trace. rewrite labelled_shows.
    match goal with
    | |- context [if ?c then _ else _] => destruct c
    end.
    + rewrite continuationPage_shows. eexists. split; [reflexivity|now right].
    + exists []. split; [reflexivity|now left].
  - trace. rewrite !field_shows.
    match goal with
    | |- context [if ?c then _ else _] => destruct c
    end.
    + rewrite continuationPage_shows. eexists. split; [|now right].
      cbn [entryTexts allLabels flat_map]. f_equal.
      rewrite <- !app_assoc. reflexivity.
    + exists []. split; [|now left].
      cbn [entryTexts allLabels flat_map]. f_equal.
      rewrite <- !app_assoc. reflexivity.
Qed.

(** A photo grid emits one stretch of calls per photo: the cells. *)
Lemma photoGrid_layout (cursorY : list Call -> Q) (disk : Disk) (offset : nat)
  (ps : list Photo) (h : list Call) :
  exists cells,
    emitted (photoGrid cursorY disk offset ps) h = concat cells /\
    length cells = length ps /\
    forall k photo, nth_error ps k = Some photo ->
      exists g h',
        nth_error cells k = Some (emitted (gridCell disk offset photo k g) h').
Proof.
  unfold photoGrid, forEach. unbind.
  match goal with
  | |- context [emitted (forEachFrom ?f 0 ps ?g) ?h'] =>
      destruct (forEachFrom_chunks f ps 0 g h') as (cells & Hc & Hlen & Hnth)
  end.
  exists cells. split; [|split; [exact Hlen|exact Hnth]].
  cbn [app]. rewrite Hc. now rewrite app_nil_r.
Qed.

Lemma around_here {A} (x b : list A) :
  exists before after, x ++ b = before ++ x ++ after.
Proof. now exists [], b. Qed.

Lemma around_skip {A} (x a l : list A) :
  (exists before after, l = before ++ x ++ after) ->
  exists before after, a ++ l = before ++ x ++ after.
Proof.
  intros (before & after & ->). exists (a ++ before), after.
  now rewrite app_assoc.
Qed.

Ltac around :=
  rewrite <- ?app_assoc;
  repeat first [apply around_here | apply around_skip].

Lemma page1_layout (cursorY : list Call -> Q) (disk : Disk) (report : Report)
  (title : jsstring) (h : list Call) :
  exists before cells after,
    emitted (page1 cursorY disk report title) h
    = before ++ concat cells ++ after /\
    length cells = length (slice 0 9 (photos report)) /\
    forall k photo, nth_error (slice 0 9 (photos report)) k = Some photo ->
      exists g h',
        nth_error cells k = Some (emitted (gridCell disk 0 photo k g) h').
Proof.
  unfold page1. unbind.
  match goal with
  | |- context [emitted (photoGrid ?a ?b ?c ?d) ?h'] =>
      destruct (photoGrid_layout a b c d h') as (cells & Hc & Hlen & Hnth)
  end.
  rewrite Hc.
  match goal with
  | |- exists _ _ _, ?chain = _ /\ _ =>
      assert (exists before after, chain = before ++ concat cells ++ after)
        as (before & after & ->) by around
  end.
  exists before, cells, after. auto.
Qed.

Lemma page2_layout (cursorY : list Call -> Q) (report : Report)
  (title : jsstring) (h : list Call) :
  exists before entries,
    emitted (page2 cursorY report title) h = before ++ concat entries /\
    length entries = length (photos report) /\
    forall k photo, nth_error (photos report) k = Some photo ->
      exists h',
        nth_error entries k
        = Some (emitted (breakdownEntry cursorY title (photoSections report)
                           (length (photos report)) photo k tt) h').
Proof.
  unfold page2, forEach. unbind.
  match goal with
  | |- context [emitted (forEachFrom ?f 0 ?l ?s) ?h'] =>
      destruct (forEachFrom_chunks f l 0 s h') as (entries & Hc & Hlen & Hnth)
  end.
  rewrite Hc. rewrite !app_assoc.
  eexists _, entries. split; [reflexivity|]. split; [exact Hlen|].
  intros k photo Hk. destruct (Hnth k photo Hk) as ([] & h' & Hn).
  now exists h'.
Qed.

Lemma page3_layout (cursorY : list Call -> Q) (disk : Disk) (report : Report)
  (title : jsstring) (h : list Call) :
  exists before cells after,
    emitted (page3 cursorY disk report title) h
    = before ++ concat cells ++ after /\
    length cells = length (sliceFrom 9 (photos report)) /\
    forall k photo, nth_error (sliceFrom 9 (photos report)) k = Some photo ->
      exists g h',
        nth_error cells k = Some (emitted (gridCell disk 9 photo k g) h').
Proof.
  unfold page3.
  destruct (9 <? length (photos report)) eqn:E.
  - unbind.
    match goal with
    | |- context [emitted (photoGrid ?a ?b ?c ?d) ?h'] =>
        destruct (photoGrid_layout a b c d h') as (cells & Hc & Hlen & Hnth)
    end.
    rewrite Hc.
    match goal with
    | |- exists _ _ _, ?chain = _ /\ _ =>
        assert (exists before after, chain = before ++ concat cells ++ after)
          as (before & after & ->) by around
    end.
    exists before, cells, after. auto.
  - apply Nat.ltb_ge in E.
    assert (sliceFrom 9 (photos report) = []) as ->
        by (apply skipn_all2; exact E).
    exists [], []. eexists. split; [reflexivity|].
    split; [reflexivity|]. intros [|k] ? [=].
Qed.

(** The last call on the document is [end()]. *)
Lemma document_ends (cursorY : list Call -> Q) (disk : Disk) (report : Report) :
  exists before, emitted (document cursorY disk report) [] = before ++ [end_].
Proof.
  unfold document, page3. unbind. unfold plainText. unbind.
  rewrite !app_assoc. eexists. reflexivity.
Qed.

(** The whole trace: the cells of the first grid, the breakdown entries,
    the cells of the second grid, in that order.  The i-th photo has the
    i-th cell of the two grids taken together and the i-th entry. *)
Lemma document_layout (cursorY : list Call -> Q) (disk : Disk)
  (report : Report) :
  exists before cells1 between entries after cells2 rest,
    emitted (document cursorY disk report) []
    = before ++ concat cells1 ++ between ++ concat entries
        ++ after ++ concat cells2 ++ rest /\
    length (cells1 ++ cells2) = length (photos report) /\
    length entries = length (photos report) /\
    forall i photo, nth_error (photos report) i = Some photo ->
      (exists k offset g h,
          nth_error (cells1 ++ cells2) i
          = Some (emitted (gridCell disk offset photo k g) h) /\
          k + offset = i) /\
      (exists h,
          nth_error entries i
          = Some (emitted (breakdownEntry cursorY (reportTitle report)
                             (photoSections report) (length (photos report))
                             photo i tt) h)).
Proof.
  unfold document. cbv zeta. rewrite !emitted_bind.
  destruct (page1_layout cursorY disk report (reportTitle report) [])
    as (b1 & cells1 & a1 & -> & Hl1 & Hc1).
  match goal with
  | |- context [emitted (page2 ?a ?b ?c) ?h] =>
      destruct (page2_layout a b c h) as (b2 & entries & -> & Hl2 & Hc2)
  end.
  match goal with
  | |- context [emitted (page3 ?a ?b ?c ?d) ?h] =>
      destruct (page3_layout a b c d h) as (b3 & cells2 & r3 & -> & Hl3 & Hc3)
  end.
  exists b1, cells1, (a1 ++ b2), entries, b3, cells2, r3.
  assert (Hs1 : slice 0 9 (photos report) = firstn 9 (photos report))
    by reflexivity.
  rewrite Hs1 in Hl1, Hc1. unfold sliceFrom in Hl3, Hc3.
  rewrite length_firstn in Hl1. rewrite length_skipn in Hl3.
  split; [now rewrite <- !app_assoc|].
  split; [rewrite length_app; lia|]. split; [exact Hl2|].
  intros i photo Hi.
  assert (i < length (photos report)) as Hlt
      by (apply nth_error_Some; congruence).
  split; [|now apply Hc2].
  destruct (Nat.lt_ge_cases i 9) as [Hi9|Hi9].
  - destruct (Hc1 i photo) as (g & h & Hcell).
    { rewrite nth_error_firstn.
      apply Nat.ltb_lt in Hi9. now rewrite Hi9. }
    exists i, 0, g, h. split; [|lia].
    rewrite nth_error_app1 by lia. exact Hcell.
  - destruct (Hc3 (i - 9) photo) as (g & h & Hcell).
    { rewrite nth_error_skipn. now replace (9 + (i - 9)) with i by lia. }
    exists (i - 9), 9, g, h. split; [|lia].
    rewrite nth_error_app2 by lia.
    now replace (i - length cells1) with (i - 9) by lia.
Qed.

(** ** Alignment of photos, grid cells and breakdown entries *)

(** C1.  The trace holds one grid cell and one breakdown entry per photo,
    in the order of [report.photos].  The cell of the photo at index [i]
    (first grid for the first nine, second grid after) shows the box of
    that photo and the number [i + 1]; its entry shows the number [i + 1]
    and is read from the section at index [i] of [photoSections], which is
    the list parsed from the narrative whenever that list is not empty.
    The numbers written after "Photo" in the narrative play no part. *)
Theorem positional_alignment (cursorY : list Call -> Q) (disk : Disk)
  (report : Report) (outputPath : jsstring) :
  exists before cells1 between entries after cells2 rest,
    calls (generateFormattedPDF cursorY disk report outputPath)
    = before ++ concat cells1 ++ between ++ concat entries
        ++ after ++ concat cells2 ++ rest /\
    length (cells1 ++ cells2) = length (photos report) /\
    length entries = length (photos report) /\
    (forall i photo, nth_error (photos report) i = Some photo ->
       (exists cell,
           nth_error (cells1 ++ cells2) i = Some cell /\
           textsOf cell = boxTexts disk photo ++ [js "Photo " ++ ofNat (i + 1)] /\
           imagesOf cell = boxImages disk photo) /\
       (exists entry,
           nth_error entries i = Some entry /\
           entryShows (reportTitle report) photo i
             (nth i (photoSections report) []) (textsOf entry))) /\
    (parseSections (aiReport report) <> [] ->
     photoSections report = parseSections (aiReport report)).
Proof.
  destruct (document_layout cursorY disk report)
    as (before & cells1 & between & entries & after & cells2 & rest
        & Hcalls & Hlc & Hle & Hnth).
  exists before, cells1, between, entries, after, cells2, rest.
  split; [exact Hcalls|]. split; [exact Hlc|]. split; [exact Hle|]. split.
  - intros i photo Hi. destruct (Hnth i photo Hi) as [Hcell Hentry]. split.
    + destruct Hcell as (k & offset & g & h & Hcell & <-).
      eexists. split; [exact Hcell|]. apply gridCell_shows.
    + destruct Hentry as (h & Hentry).
      eexists. split; [exact Hentry|]. apply breakdownEntry_shows.
  - unfold photoSections.
    destruct (parseSections (aiReport report)); [congruence|reflexivity].
Qed.

Lemma positional_alignment_witness :
  photoSections (sampleReport (Some mislabelledNarrative))
  = parseSections (Some mislabelledNarrative) /\
  exists cell entry,
    textsOf cell = [js "Photo not available"; js "Photo 2"] /\
    entryShows (js "Water damage in kitchen") (samplePhoto "leaking pipe") 1
      (js "Photo 1: Priority Level: High.") (textsOf entry).
Proof.
  destruct (positional_alignment (fun _ => 0%Q) blankDisk
              (sampleReport (Some mislabelledNarrative)) (js "report.pdf"))
    as (before & cells1 & between & entries & after & cells2 & rest
        & _ & _ & _ & Hnth & Hparsed).
  split.
  - apply Hparsed. discriminate.
  - destruct (Hnth 1 (samplePhoto "leaking pipe") eq_refl)
      as [(cell & _ & Hcell & _) (entry & _ & Hentry)].
    exists cell, entry. split; [exact Hcell|exact Hentry].
Defined.

(** ** Missing and unreadable photo files *)

(** C7.  Whatever the files on disk, the calls on the document run to
    [end()] and the promise resolves when the write stream finishes.  The
    cell of a photo whose file does not exist shows "Photo not available"
    and no image; the cell of a photo whose file exists but makes
    [doc.image] throw shows "Error loading photo" and no image; the two
    messages differ; otherwise the cell shows the image. *)
Theorem missing_file_resilience (cursorY : list Call -> Q) (disk : Disk)
  (report : Report) (outputPath : jsstring) :
  (exists before,
      calls (generateFormattedPDF cursorY disk report outputPath)
      = before ++ [end_]) /\
  (streamFinishes disk outputPath = true ->
   outcome (generateFormattedPDF cursorY disk report outputPath)
   = Resolved outputPath) /\
  js "Photo not available" <> js "Error loading photo" /\
  exists before cells1 between cells2 rest,
    calls (generateFormattedPDF cursorY disk report outputPath)
    = before ++ concat cells1 ++ between ++ concat cells2 ++ rest /\
    length (cells1 ++ cells2) = length (photos report) /\
    forall i photo, nth_error (photos report) i = Some photo ->
      exists cell,
        nth_error (cells1 ++ cells2) i = Some cell /\
        (existsSync disk (path photo) = false ->
         textsOf cell = [js "Photo not available"; js "Photo " ++ ofNat (i + 1)] /\
         imagesOf cell = []) /\
        (existsSync disk (path photo) = true ->
         imageLoads disk (path photo) = false ->
         textsOf cell = [js "Error loading photo"; js "Photo " ++ ofNat (i + 1)] /\
         imagesOf cell = []) /\
        (existsSync disk (path photo) = true ->
         imageLoads disk (path photo) = true ->
         textsOf cell = [js "Photo " ++ ofNat (i + 1)] /\
         imagesOf cell = [path photo]).
Proof.
  split; [apply document_ends|].
  split; [simpl; now intros ->|].
  split; [discriminate|].
  destruct (document_layout cursorY disk report)
    as (before & cells1 & between & entries & after & cells2 & rest
        & Hcalls & Hlc & _ & Hnth).
  exists before, cells1, (between ++ concat entries ++ after), cells2, rest.
  split; [simpl; rewrite Hcalls; now rewrite <- !app_assoc|].
  split; [exact Hlc|].
  intros i photo Hi.
  destruct (Hnth i photo Hi) as [(k & offset & g & h & Hcell & <-) _].
  eexists. split; [exact Hcell|].
  destruct (gridCell_shows disk offset photo k g h) as [Ht Him].
  rewrite Ht, Him. unfold boxTexts, boxImages.
  repeat split; intros; repeat match goal with
                               | H : _ = _ |- _ => rewrite H
                               end; reflexivity.
Qed.

Lemma missing_file_resilience_witness :
  outcome (generateFormattedPDF (fun _ => 0%Q) blankDisk (sampleReport None)
             (js "report.pdf"))
  = Resolved (js "report.pdf") /\
  (exists cell,
      textsOf cell = [js "Photo not available"; js "Photo 1"] /\
      imagesOf cell = []) /\
  (exists cell,
      textsOf cell = [js "Error loading photo"; js "Photo 1"] /\
      imagesOf cell = []) /\
  (exists cell,
      textsOf cell = [js "Photo 1"] /\
      imagesOf cell = [js "uploads/cracked tile.jpg"]).
Proof.
  destruct (missing_file_resilience (fun _ => 0%Q) blankDisk (sampleReport None)
              (js "report.pdf"))
    as (_ & Hout & _ & _ & cells1 & _ & cells2 & _ & _ & _ & Hmissing).
  destruct (missing_file_resilience (fun _ => 0%Q) unreadableDisk
              (sampleReport None) (js "report.pdf"))
    as (_ & _ & _ & _ & cells3 & _ & cells4 & _ & _ & _ & Herror).
  destruct (missing_file_resilience (fun _ => 0%Q) fullDisk
              (sampleReport None) (js "report.pdf"))
    as (_ & _ & _ & _ & cells5 & _ & cells6 & _ & _ & _ & Hshown).
  split; [apply Hout; reflexivity|]. split; [|split].
  - destruct (Hmissing 0 (samplePhoto "cracked tile") eq_refl)
      as (cell & _ & H & _).
    exists cell. apply H. reflexivity.
  - destruct (Herror 0 (samplePhoto "cracked tile") eq_refl)
      as (cell & _ & _ & H & _).
    exists cell. apply H; reflexivity.
  - destruct (Hshown 0 (samplePhoto "cracked tile") eq_refl)
      as (cell & _ & _ & _ & H).
    exists cell. apply H; reflexivity.
Defined.

(** ** Assembly reads the report and nothing else of the store *)

Lemma bind_ext {A B} (m m' : Doc A) (f f' : A -> Doc B) :
  (forall h, m h = m' h) ->
  (forall a h, f a h = f' a h) ->
  forall h, bind m f h = bind m' f' h.
Proof.
  intros Hm Hf h. unfold bind. rewrite Hm. destruct (m' h) as [a e].
  now rewrite Hf.
Qed.

Lemma forEachFrom_ext {A St} (f f' : A -> nat -> St -> Doc St) (l : list A) :
  (forall a idx s h, In a l -> f a idx s h = f' a idx s h) ->
  forall idx s h, forEachFrom f idx l s h = forEachFrom f' idx l s h.
Proof.
  induction l as [|a l IH]; intros Hf idx s h; [reflexivity|].
  cbn [forEachFrom]. apply bind_ext.
  - intros h'. apply Hf. now left.
  - intros s' h'. apply IH. intros. apply Hf. now right.
Qed.

Ltac same_calls :=
  repeat (apply bind_ext; [try (intros; reflexivity)|intros]);
  try reflexivity.

Lemma In_firstn {A} (n : nat) (l : list A) (a : A) :
  In a (firstn n l) -> In a l.
Proof.
  intros H. rewrite <- (firstn_skipn n l). apply in_or_app. now left.
Qed.

Lemma In_skipn {A} (n : nat) (l : list A) (a : A) :
  In a (skipn n l) -> In a l.
Proof.
  intros H. rewrite <- (firstn_skipn n l). apply in_or_app. now right.
Qed.

Lemma grid_sameFiles (d1 d2 : Disk) (offset : nat) (ps : list Photo) :
  (forall photo, In photo ps ->
     existsSync d1 (path photo) = existsSync d2 (path photo) /\
     imageLoads d1 (path photo) = imageLoads d2 (path photo)) ->
  forall g h,
    forEach (gridCell d1 offset) ps g h = forEach (gridCell d2 offset) ps g h.
Proof.
  intros Hsame g h. unfold forEach.
  apply forEachFrom_ext. intros photo idx g' h' Hin.
  destruct (Hsame photo Hin) as [He Hl].
  unfold gridCell, photoBox. now rewrite He, Hl.
Qed.

Lemma document_sameFiles (cursorY : list Call -> Q) (d1 d2 : Disk)
  (report : Report) :
  sameFiles d1 d2 report ->
  forall h, document cursorY d1 report h = document cursorY d2 report h.
Proof.
  intros Hsame. unfold document, page1, page3. same_calls.
  - apply grid_sameFiles. intros photo Hin. apply Hsame.
    unfold slice in Hin. simpl skipn in Hin. now apply In_firstn in Hin.
  - destruct (9 <? length (photos report)); [|reflexivity]. same_calls.
    apply grid_sameFiles. intros photo Hin. apply Hsame.
    unfold sliceFrom in Hin. now apply In_skipn in Hin.
Qed.

(** C8.  The PDF and email handlers return the store they were given, so
    no field of any report changes, and a second request is answered as
    the first.  The calls made on the document are a function of the
    report, of pdfkit's layout and of what the disk answers for the photo
    files of the report: two runs on the same report with the photo files
    unchanged make the same calls, and so the same number of pages. *)
Theorem assembly_is_a_pure_read (env : Env) (i email : jsstring)
  (rs : list Report) :
  snd (getPdf env i rs) = rs /\
  snd (emailReport env i email rs) = rs /\
  getPdf env i (snd (getPdf env i rs)) = getPdf env i rs /\
  (forall report d1 d2 out1 out2,
      sameFiles d1 d2 report ->
      calls (generateFormattedPDF (cursorY env) d1 report out1)
      = calls (generateFormattedPDF (cursorY env) d2 report out2) /\
      pageCount (calls (generateFormattedPDF (cursorY env) d1 report out1))
      = pageCount (calls (generateFormattedPDF (cursorY env) d2 report out2))).
Proof.
  assert (Hpdf : snd (getPdf env i rs) = rs).
  { unfold getPdf. destruct (findReport i rs); auto.
    cbv zeta. destruct (outcome _); auto. }
  split; [exact Hpdf|]. split; [|split].
  - unfold emailReport. destruct (findReport i rs); auto.
    cbv zeta. destruct (outcome _); auto. destruct (sendMail _ _ _); auto.
  - now rewrite Hpdf.
  - intros report d1 d2 out1 out2 Hsame.
    assert (calls (generateFormattedPDF (cursorY env) d1 report out1)
            = calls (generateFormattedPDF (cursorY env) d2 report out2)) as ->.
    { cbn [calls generateFormattedPDF]. unfold emitted.
      now rewrite (document_sameFiles (cursorY env) d1 d2 report Hsame). }
    now split.
Qed.

Lemma assembly_is_a_pure_read_witness :
  calls (generateFormattedPDF (cursorY sampleEnv) unreadableDisk
           (sampleReport None) (js "a.pdf"))
  = calls (generateFormattedPDF (cursorY sampleEnv)
             {| existsSync := fun _ => true;
                imageLoads := fun _ => false;
                streamFinishes := fun _ => false |}
             (sampleReport None) (js "b.pdf")).
Proof.
  apply (proj2 (proj2 (proj2
           (assembly_is_a_pure_read sampleEnv (js "1700000000000") []
              [sampleReport None])))).
  intros photo _. split; reflexivity.
Defined.

(** ** Narratives without markers *)

Lemma matchIgnoreCase_inv (p s r : jsstring) :
  matchIgnoreCase p s = Some r ->
  exists w, s = w ++ r /\ map canonicalize w = map canonicalize p.
Proof.
  revert s. induction p as [|a p IH]; intros s; simpl.
  - intros [= ->]. now exists [].
  - destruct s as [|b s]; [discriminate|].
    destruct (N.eqb_spec (canonicalize a) (canonicalize b)) as [E|];
      [|discriminate].
    intros H. destruct (IH _ H) as (w & -> & Hw).
    exists (b :: w). simpl. now rewrite Hw, E.
Qed.

Lemma span_inv (f : code_unit -> bool) (s a b : jsstring) :
  span f s = (a, b) -> s = a ++ b /\ forallb f a = true.
Proof.
  revert a b. induction s as [|c s IH]; intros a b; simpl.
  - intros [= <- <-]. now split.
  - destruct (f c) eqn:E.
    + destruct (span f s) as [a' b']. intros [= <- <-].
      destruct (IH a' b' eq_refl) as [-> Ha]. simpl. now rewrite E, Ha.
    + intros [= <- <-]. now split.
Qed.

Lemma photoPattern_marker (s : jsstring) (n : nat) :
  photoPattern s = Some n -> exists m post, s = m ++ post /\ isMarker m.
Proof.
  unfold photoPattern.
  destruct (matchIgnoreCase (js "Photo") s) as [r1|] eqn:E1; [|discriminate].
  destruct (span isWhiteSpace r1) as [ws r2] eqn:E2.
  destruct (span isDigit r2) as [ds r3] eqn:E3.
  destruct ws as [|w0 ws]; [discriminate|].
  destruct ds as [|d0 ds]; [discriminate|].
  destruct r3 as [|c r3]; [discriminate|].
  destruct (N.eqb_spec c 58) as [->|]; [|discriminate]. intros _.
  apply matchIgnoreCase_inv in E1 as (w & -> & Hw).
  apply span_inv in E2 as [-> Hws]. apply span_inv in E3 as [-> Hds].
  exists (w ++ (w0 :: ws) ++ (d0 :: ds) ++ [58%N]), r3. split.
  - now rewrite <- !app_assoc.
  - exists w, (w0 :: ws), (d0 :: ds). repeat split; auto; discriminate.
Qed.

Lemma matchAll_go_no_marker (s : jsstring) :
  ~ hasMarker s -> forall skip idx, matchAll_go skip idx s = [].
Proof.
  induction s as [|c s IH]; intros Hno skip idx; [reflexivity|].
  assert (Hs : ~ hasMarker s).
  { intros (pre & m & post & -> & Hm). apply Hno.
    now exists (c :: pre), m, post. }
  cbn [matchAll_go]. destruct skip as [|k]; [|now apply IH].
  destruct (photoPattern (c :: s)) as [n|] eqn:E; [|now apply IH].
  exfalso. apply Hno.
  destruct (photoPattern_marker _ _ E) as (m & post & Hm & Hmark).
  exists [], m, post. now split.
Qed.

(** A narrative with no marker yields no parsed section. *)
Lemma parseSections_no_marker (text : jsstring) :
  ~ hasMarker text -> parseSections (Some text) = [].
Proof.
  intros Hno. unfold parseSections. destruct text; [reflexivity|].
  unfold matchAll. now rewrite matchAll_go_no_marker.
Qed.

(** The entries of a report with two photos. *)
Lemma two_entries (cursorY : list Call -> Q) (disk : Disk) (report : Report)
  (p1 p2 : Photo) :
  photos report = [p1; p2] ->
  exists before entry1 entry2 after,
    emitted (document cursorY disk report) []
    = before ++ entry1 ++ entry2 ++ after /\
    entryShows (reportTitle report) p1 0 (nth 0 (photoSections report) [])
      (textsOf entry1) /\
    entryShows (reportTitle report) p2 1 (nth 1 (photoSections report) [])
      (textsOf entry2).
Proof.
  intros Hphotos.
  destruct (document_layout cursorY disk report)
    as (before & cells1 & between & entries & after & cells2 & rest
        & Hcalls & _ & Hlen & Hnth).
  rewrite Hphotos in Hlen, Hnth.
  destruct entries as [|entry1 [|entry2 [|]]]; try discriminate.
  destruct (Hnth 0 p1 eq_refl) as [_ (h1 & [= ->])].
  destruct (Hnth 1 p2 eq_refl) as [_ (h2 & [= ->])].
  eexists (before ++ concat cells1 ++ between), _, _,
    (after ++ concat cells2 ++ rest).
  split; [|split; apply breakdownEntry_shows].
  rewrite Hcalls. cbn [concat]. now rewrite app_nil_r, <- !app_assoc.
Qed.

Lemma plainNarrative_sections :
  reportTitle (sampleReport (Some plainNarrative)) = plainNarrative /\
  entryTexts (samplePhoto "cracked tile")
    (nth 0 (photoSections (sampleReport (Some plainNarrative))) []) = [] /\
  entryTexts (samplePhoto "leaking pipe")
    (nth 1 (photoSections (sampleReport (Some plainNarrative))) []) = [] /\
  js "Photo " ++ ofNat (0 + 1) ++ js ":" = js "Photo 1:" /\
  js "Photo " ++ ofNat (1 + 1) ++ js ":" = js "Photo 2:".
Proof. vm_compute. repeat split. Qed.

(** C4, on a report with two described photos and a narrative without
    markers.  No section is parsed and the calls run to [end()], but the
    sections built from the photos hold no field label, so each entry
    shows the number of its photo and nothing of its description:
    whatever the layout and the disk, the texts of the two entries are
    "Photo 1:" and "Photo 2:", each followed at most by the heading of a
    continuation page. *)
Theorem fallback_entries_omit_description (cursorY : list Call -> Q)
  (disk : Disk) (outputPath : jsstring) :
  parseSections (Some plainNarrative) = [] /\
  map description (photos (sampleReport (Some plainNarrative)))
  = [js "cracked tile"; js "leaking pipe"] /\
  (exists before,
      calls (generateFormattedPDF cursorY disk
               (sampleReport (Some plainNarrative)) outputPath)
      = before ++ [end_]) /\
  exists before entry1 entry2 after cont1 cont2,
    calls (generateFormattedPDF cursorY disk
             (sampleReport (Some plainNarrative)) outputPath)
    = before ++ entry1 ++ entry2 ++ after /\
    textsOf entry1 = js "Photo 1:" :: cont1 /\
    textsOf entry2 = js "Photo 2:" :: cont2 /\
    (cont1 = [] \/ cont1 = continuationTexts plainNarrative) /\
    (cont2 = [] \/ cont2 = continuationTexts plainNarrative) /\
    textsOf (calls (generateFormattedPDF (fun _ => 0%Q) blankDisk
                      (sampleReport (Some plainNarrative)) (js "report.pdf")))
    = [js "Page 1 of 3"; plainNarrative; js "Issue: " ++ plainNarrative;
       js "Reference Photos:";
       js "Photo not available"; js "Photo 1";
       js "Photo not available"; js "Photo 2";
       js "Page 2 of 3"; plainNarrative; js "Reference Photo breakdown:";
       js "Photo 1:"; js "Photo 2:";
       js "Page 3 of 3"; plainNarrative; js "Recommended Services:";
       js "No recommended services to be added.";
       js "Additional Notes:";
       js "No additional project notes at this time."].
Proof.
  split; [vm_compute; reflexivity|]. split; [vm_compute; reflexivity|].
  split; [apply document_ends|].
  destruct (two_entries cursorY disk (sampleReport (Some plainNarrative))
              (samplePhoto "cracked tile") (samplePhoto "leaking pipe") eq_refl)
    as (before & entry1 & entry2 & after & Hcalls
        & (cont1 & Ht1 & Hc1) & (cont2 & Ht2 & Hc2)).
  destruct plainNarrative_sections as (Htitle & He1 & He2 & Hh1 & Hh2).
  rewrite Htitle in Hc1, Hc2.
  rewrite He1, Hh1 in Ht1. rewrite He2, Hh2 in Ht2.
  exists before, entry1, entry2, after, cont1, cont2.
  split; [exact Hcalls|].
  repeat (split; [assumption|]).
  vm_compute. reflexivity.
Qed.

(** ** The example of the specification *)

Example kitchen_sections :
  parseSections
    (Some (js "Kitchen Issues" ++ LF ::
           js "Photo 1: Problem Description: Cracked tile. Priority Level: Low."
           ++ LF ::
           js "Photo 2: Problem Description: Leaking pipe. Priority Level: High. Safety Concerns: Water damage risk."))
  = [js "Photo 1: Problem Description: Cracked tile. Priority Level: Low.";
     js "Photo 2: Problem Description: Leaking pipe. Priority Level: High. Safety Concerns: Water damage risk."].
Proof. vm_compute. reflexivity. Qed.

Example kitchen_fields :
  map (fun l => fieldValue l
                  (js "Photo 2: Problem Description: Leaking pipe. Priority Level: High. Safety Concerns: Water damage risk."))
      allLabels
  = [Some (js "Leaking pipe."); None; Some (js "High."); None;
     Some (js "Water damage risk.")].
Proof. vm_compute. reflexivity. Qed.

(** Sections follow the order of the markers, not their numbers. *)
Example mislabelled_sections :
  parseSections (Some mislabelledNarrative)
  = [js "Photo 7: Problem Description: Cracked tile.";
     js "Photo 1: Priority Level: High."].
Proof. vm_compute. reflexivity. Qed.

(** With fewer sections than photos, the photos past the last section
    show their own description. *)
Example short_narrative_entry :
  entryTexts (samplePhoto "leaking pipe")
    (nth 1 (photoSections
              (sampleReport (Some (js "Photo 1: Priority Level: High."))))
         [])
  = [js "Description:"; js "leaking pipe"].
Proof. vm_compute. reflexivity. Qed.

Example split_lines :
  split [LF] (js "ab" ++ LF :: LF :: js "c") = [js "ab"; []; js "c"].
Proof. reflexivity. Qed.

Example split_overlapping :
  split (js "aa") (js "aaa") = [[]; js "a"].
Proof. reflexivity. Qed.

Example trim_both_ends : trim (js "  a b  ") = js "a b".
Proof. reflexivity. Qed.


(** * Further properties of the handlers *)

(** ** The photos of a created report *)

Lemma findVoiceFile_None (voiceFiles : list File) (name : jsstring) :
  findVoiceFile voiceFiles name = None <->
  existsb (fun f => jsstring_eqb (originalname f) name) voiceFiles = false.
Proof.
  unfold findVoiceFile.
  induction voiceFiles as [|f fs IH]; simpl; [tauto|].
  destruct (jsstring_eqb (originalname f) name); simpl; [split; discriminate|].
  exact IH.
Qed.

(** One turn of the loop: the early return when the audio of a voice note
    is missing, else the photo of this file before those of the rest. *)
Lemma processPhotos_step (env : Env) (voiceFiles : list File)
  (descs : list Descriptor) (idx : nat) (f : File) (rest : list File) :
  processPhotos env voiceFiles descs idx (f :: rest)
  = if voiceUploaded voiceFiles (nth idx descs noProperties)
    then match processPhotos env voiceFiles descs (S idx) rest with
         | inl r => inl r
         | inr ps =>
             inr (photoOf env voiceFiles f (nth idx descs noProperties) :: ps)
         end
    else inl {| statusCode := 400;
                body := ErrorBody
                          (js "Audio file "
                           ++ fromOption (d_voiceFile (nth idx descs noProperties))
                           ++ js " not found for photo at index "
                           ++ ofNat idx ++ js ".") |}.
Proof.
  cbn [processPhotos]. unfold voiceUploaded, photoOf.
  destruct (_ && _); [|reflexivity].
  destruct (findVoiceFile voiceFiles _) as [audio|] eqn:E.
  - assert (existsb (fun f0 => jsstring_eqb (originalname f0)
                                 (fromOption (d_voiceFile (nth idx descs noProperties))))
              voiceFiles = true) as ->.
    { destruct (existsb _ voiceFiles) eqn:Ex; [reflexivity|].
      apply findVoiceFile_None in Ex. congruence. }
    destruct (speechToText env (file_path audio)); reflexivity.
  - apply findVoiceFile_None in E. now rewrite E.
Qed.

Lemma processPhotos_photoOf (env : Env) (voiceFiles : list File)
  (descs : list Descriptor) (photoFiles : list File) :
  forall idx ps,
    processPhotos env voiceFiles descs idx photoFiles = inr ps ->
    forall k imageFile,
      nth_error photoFiles k = Some imageFile ->
      nth_error ps k
      = Some (photoOf env voiceFiles imageFile (nth (idx + k) descs noProperties)).
Proof.
  induction photoFiles as [|f rest IH]; intros idx ps Hps k imageFile Hk.
  - now destruct k.
  - rewrite processPhotos_step in Hps.
    destruct (voiceUploaded _ _); [|discriminate].
    destruct (processPhotos env voiceFiles descs (S idx) rest) as [r|ps'] eqn:Hrest;
      [discriminate|].
    injection Hps as <-. destruct k as [|k].
    + injection Hk as <-. now rewrite Nat.add_0_r.
    + replace (idx + S k) with (S idx + k) by lia.
      exact (IH (S idx) ps' Hrest k imageFile Hk).
Qed.

Lemma processPhotos_length (env : Env) (voiceFiles : list File)
  (descs : list Descriptor) (photoFiles : list File) :
  forall idx ps,
    processPhotos env voiceFiles descs idx photoFiles = inr ps ->
    length ps = length photoFiles.
Proof.
  induction photoFiles as [|f rest IH]; intros idx ps.
  - now intros [= <-].
  - rewrite processPhotos_step.
    destruct (voiceUploaded _ _); [|discriminate].
    destruct (processPhotos env voiceFiles descs (S idx) rest) as [r|ps'] eqn:E;
      [discriminate|].
    intros [= <-]. simpl. f_equal. exact (IH (S idx) ps' E).
Qed.

Lemma processPhotos_inl (env : Env) (voiceFiles : list File)
  (descs : list Descriptor) (photoFiles : list File) :
  forall idx r,
    processPhotos env voiceFiles descs idx photoFiles = inl r ->
    statusCode r = 400.
Proof.
  induction photoFiles as [|f rest IH]; intros idx r; [discriminate|].
  rewrite processPhotos_step.
  destruct (voiceUploaded _ _); [|now intros [= <-]].
  destruct (processPhotos env voiceFiles descs (S idx) rest) eqn:E;
    [|discriminate].
  intros [= <-]. now apply (IH (S idx)).
Qed.

(** The loop returns early exactly when some voice note among the
    descriptors it reads misses its audio. *)
Lemma processPhotos_missing (env : Env) (voiceFiles : list File)
  (descs : list Descriptor) (photoFiles : list File) :
  forall idx k,
    k < length photoFiles ->
    voiceUploaded voiceFiles (nth (idx + k) descs noProperties) = false ->
    exists r, processPhotos env voiceFiles descs idx photoFiles = inl r.
Proof.
  induction photoFiles as [|f rest IH]; intros idx k Hk Hv; [simpl in Hk; lia|].
  rewrite processPhotos_step.
  destruct (voiceUploaded voiceFiles (nth idx descs noProperties)) eqn:E;
    [|eauto].
  destruct k as [|k]; [rewrite Nat.add_0_r in Hv; congruence|].
  destruct (IH (S idx) k) as (r & ->); [simpl in Hk; lia| |eauto].
  now replace (S idx + k) with (idx + S k) by lia.
Qed.

Lemma createReport_created (env : Env) (req : CreateRequest) (rs : list Report)
  (report : Report) :
  fst (createReport env req rs)
  = {| statusCode := 201; body := ReportBody report |} ->
  exists ps,
    descriptionsMatch env req = true /\
    processPhotos env (files_voices req) (parsedDescriptors env req) 0
      (files_photos req) = inr ps /\
    report = {| id := ofN (dateNow env);
                jobName := fromOption (body_jobName req);
                clientName := fromOption (body_clientName req);
                address := fromOption (body_address req);
                date := orElse (fromOption (body_date req)) (isoDate env);
                photos := ps;
                status := js "draft";
                createdAt := newDate env;
                aiReport := None |} /\
    snd (createReport env req rs) = rs ++ [report].
Proof.
  unfold createReport, descriptionsMatch, parsedDescriptors.
  destruct (_ || _ || _); [discriminate|].
  destruct (_ || _) eqn:Ecount; [discriminate|].
  apply orb_false_iff in Ecount as [Ecount _]. apply Nat.ltb_ge in Ecount.
  destruct (JSON_parse env _) as [[descs|]|]; cbn [fst snd]; try discriminate.
  - destruct (length descs =? length (files_photos req)); [|discriminate].
    cbn [negb].
    destruct (processPhotos _ _ _ _ _) as [r|ps] eqn:Hps; cbn [fst snd].
    + intros ->. apply processPhotos_inl in Hps. discriminate Hps.
    + intros [= <-]. now exists ps.
  - destruct (length (files_photos req)); [lia|discriminate].
Qed.

(** X1.  A created report holds one photo per uploaded file, in upload
    order; the photo at index [k] is built from the file and the
    descriptor at index [k] alone: the typed description for a text note
    or after a failed transcription, the transcription for a voice note.
    The report starts as a draft without narrative, its id is the clock
    reading. *)
Theorem created_report_contents (env : Env) (req : CreateRequest)
  (rs : list Report) (report : Report) :
  fst (createReport env req rs)
  = {| statusCode := 201; body := ReportBody report |} ->
  length (photos report) = length (files_photos req) /\
  (forall k imageFile,
      nth_error (files_photos req) k = Some imageFile ->
      nth_error (photos report) k
      = Some (photoOf env (files_voices req) imageFile
                (nth k (parsedDescriptors env req) noProperties))) /\
  id report = ofN (dateNow env) /\
  status report = js "draft" /\
  aiReport report = None /\
  date report = orElse (fromOption (body_date req)) (isoDate env).
Proof.
  intros H. destruct (createReport_created _ _ _ _ H) as (ps & _ & Hps & -> & _).
  cbn [photos id status aiReport date].
  assert (Hnth := processPhotos_photoOf _ _ _ _ _ _ Hps).
  split; [now apply processPhotos_length in Hps|].
  repeat split; auto.
Qed.

Lemma created_report_contents_witness :
  nth_error
    (photos
       {| id := ofN (dateNow voiceEnv);
          jobName := js "Kitchen"; clientName := js "Acme";
          address := js "1 Main St"; date := isoDate voiceEnv;
          photos := [{| path := file_path (sampleFile 0);
                        description := js "water stain on ceiling";
                        type := js "voice";
                        transcription := js "water stain on ceiling" |}];
          status := js "draft"; createdAt := newDate voiceEnv;
          aiReport := None |}) 0
  = Some (photoOf voiceEnv [voiceRecording] (sampleFile 0)
            (nth 0 (parsedDescriptors voiceEnv (voiceRequest [voiceRecording]))
               noProperties)).
Proof.
  apply (proj1 (proj2 (created_report_contents voiceEnv
                         (voiceRequest [voiceRecording]) [] _ eq_refl))
           0 (sampleFile 0)).
  reflexivity.
Defined.

(** X2.  When the descriptors match the uploaded photos in number but
    some voice note names an audio file that was not uploaded, creation
    answers 400 and the store is left as it was. *)
Theorem createReport_missing_audio (env : Env) (req : CreateRequest)
  (rs : list Report) :
  descriptionsMatch env req = true ->
  forallb (voiceUploaded (files_voices req)) (parsedDescriptors env req) = false ->
  statusCode (fst (createReport env req rs)) = 400 /\
  snd (createReport env req rs) = rs.
Proof.
  intros Hmatch Hvoice.
  unfold createReport, descriptionsMatch, parsedDescriptors in *.
  destruct (_ || _ || _); [now split|].
  destruct (_ || _); [now split|].
  destruct (JSON_parse env _) as [[descs|]|]; try discriminate.
  rewrite Hmatch. cbn [negb]. apply Nat.eqb_eq in Hmatch.
  assert (exists k, k < length descs /\
                    voiceUploaded (files_voices req) (nth k descs noProperties)
                    = false) as (k & Hk & Hv).
  { clear Hmatch. induction descs as [|d descs IH]; [discriminate|].
    simpl in Hvoice. apply andb_false_iff in Hvoice as [Hd|Hrest].
    - exists 0. split; [simpl; lia|exact Hd].
    - destruct (IH Hrest) as (k & Hk & Hv). exists (S k).
      split; [simpl; lia|exact Hv]. }
  destruct (processPhotos_missing env (files_voices req) descs
              (files_photos req) 0 k) as (r & Hr); [lia|exact Hv|].
  rewrite Hr. cbn [fst snd]. split; [|reflexivity].
  now apply processPhotos_inl in Hr.
Qed.

Lemma createReport_missing_audio_witness :
  statusCode (fst (createReport voiceEnv (voiceRequest []) [])) = 400 /\
  snd (createReport voiceEnv (voiceRequest []) []) = [].
Proof.
  apply (createReport_missing_audio voiceEnv (voiceRequest []) []);
    reflexivity.
Defined.

Lemma processPhotos_speechToText (env : Env) (f : jsstring -> option jsstring)
  (voiceFiles : list File) (descs : list Descriptor) (photoFiles : list File) :
  forall idx,
    match processPhotos env voiceFiles descs idx photoFiles,
          processPhotos (withSpeechToText f env) voiceFiles descs idx photoFiles
    with
    | inl r, inl r' => r = r'
    | inr ps, inr ps' =>
        map path ps = map path ps' /\ map type ps = map type ps'
    | _, _ => False
    end.
Proof.
  induction photoFiles as [|file rest IH]; intros idx; [now split|].
  rewrite !processPhotos_step.
  destruct (voiceUploaded _ _); [|reflexivity].
  specialize (IH (S idx)).
  destruct (processPhotos env _ _ _ rest),
    (processPhotos (withSpeechToText f env) _ _ _ rest); auto.
  destruct IH as [Hp Ht]. unfold photoOf.
  split; cbn [map]; rewrite ?Hp, ?Ht; f_equal;
    destruct (_ && _); try reflexivity;
    destruct (findVoiceFile _ _); try reflexivity;
    cbn [speechToText withSpeechToText];
    destruct (speechToText env _), (f _); reflexivity.
Qed.

(** X3.  The transcription service has no say in whether a report is
    created: whatever it answers or throws, the status code is the same,
    the store grows alike, and on success the photos keep the same files
    and types; only descriptions and transcriptions depend on it. *)
Theorem creation_tolerates_transcription (env : Env)
  (f : jsstring -> option jsstring) (req : CreateRequest) (rs : list Report) :
  statusCode (fst (createReport (withSpeechToText f env) req rs))
  = statusCode (fst (createReport env req rs)) /\
  length (snd (createReport (withSpeechToText f env) req rs))
  = length (snd (createReport env req rs)) /\
  map (fun r => map path (photos r)) (snd (createReport (withSpeechToText f env) req rs))
  = map (fun r => map path (photos r)) (snd (createReport env req rs)).
Proof.
  unfold createReport. cbn [JSON_parse withSpeechToText dateNow isoDate newDate].
  destruct (_ || _ || _); [now repeat split|].
  destruct (_ || _); [now repeat split|].
  destruct (match JSON_parse env _ with Some v => v | None => JArray [] end)
    as [descs|]; [|now repeat split].
  destruct (negb _); [now repeat split|].
  pose proof (processPhotos_speechToText env f (files_voices req) descs
                (files_photos req) 0) as H.
  destruct (processPhotos env _ _ _ _),
    (processPhotos (withSpeechToText f env) _ _ _ _); try contradiction.
  - subst. now repeat split.
  - destruct H as [Hp _]. cbn [fst snd statusCode].
    split; [reflexivity|]. split; [now rewrite !length_app|].
    rewrite !map_app. cbn [map photos]. now rewrite Hp.
Qed.

(** ** Looking up a created report *)

Lemma findReport_app (i : jsstring) (rs rs' : list Report) :
  findReport i (rs ++ rs')
  = match findReport i rs with
    | Some r => Some r
    | None => findReport i rs'
    end.
Proof.
  unfold findReport. induction rs as [|q rs IH]; simpl; auto.
  now destruct (jsstring_eqb (id q) i).
Qed.

(** X4.  After a successful creation the new report is the last of the
    store, and a read by its id returns it unless an earlier report
    carries the same id (two creations within one clock reading), in
    which case the read returns the earlier report. *)
Theorem created_report_lookup (env : Env) (req : CreateRequest)
  (rs : list Report) (report : Report) :
  fst (createReport env req rs)
  = {| statusCode := 201; body := ReportBody report |} ->
  snd (createReport env req rs) = rs ++ [report] /\
  fst (getReport (id report) (snd (createReport env req rs)))
  = match findReport (id report) rs with
    | Some earlier => json (ReportBody earlier)
    | None => json (ReportBody report)
    end.
Proof.
  intros H. destruct (createReport_created _ _ _ _ H) as (ps & _ & _ & _ & Hs).
  split; [exact Hs|]. rewrite Hs. unfold getReport. rewrite findReport_app.
  destruct (findReport (id report) rs); [reflexivity|].
  unfold findReport. simpl. now rewrite (proj2 (jsstring_eqb_eq _ _) eq_refl).
Qed.

Lemma created_report_lookup_witness :
  exists report,
    fst (createReport sampleEnv (sampleRequest (Some (js "[{}]")) 1) [])
    = {| statusCode := 201; body := ReportBody report |} /\
    fst (getReport (id report)
           (snd (createReport sampleEnv (sampleRequest (Some (js "[{}]")) 1) [])))
    = json (ReportBody report).
Proof.
  eexists. split; [reflexivity|].
  exact (proj2 (created_report_lookup sampleEnv
                  (sampleRequest (Some (js "[{}]")) 1) [] _ eq_refl)).
Defined.

(** ** Analysis twice, patches in sequence *)

Lemma findReport_middle (i : jsstring) (pre post : list Report) (r : Report) :
  (forall q, In q pre -> id q <> i) ->
  id r = i ->
  findReport i (pre ++ r :: post) = Some r.
Proof.
  intros Hpre Hid. unfold findReport.
  induction pre as [|q pre IH]; simpl.
  - now rewrite (proj2 (jsstring_eqb_eq _ _) Hid).
  - destruct (jsstring_eqb (id q) i) eqn:E.
    + apply jsstring_eqb_eq in E. exfalso. apply (Hpre q); [now left|exact E].
    + apply IH. intros q' Hq. apply Hpre. now right.
Qed.

(** After an update that keeps the id, the updated report is the one a
    read by that id finds. *)
Lemma findReport_updateFound (i : jsstring) (f : Report -> Report)
  (rs : list Report) (r : Report) :
  findReport i rs = Some r ->
  id (f r) = i ->
  findReport i (updateFound i f rs) = Some (f r).
Proof.
  intros Hfind Hid.
  destruct (findReport_split _ _ _ Hfind) as (pre & post & -> & _ & Hpre & Hupd).
  rewrite Hupd. now apply findReport_middle.
Qed.

(** X5.  A narrative once stored is served from the store: after an
    analysis that returned a non-empty text, a further analysis without
    [force] answers that text and leaves the store as it is, whatever the
    generator would now return.  An empty generated text is not kept that
    way: the next analysis calls the generator again. *)
Theorem analyze_serves_stored_narrative (env env' : Env) (i : jsstring)
  (force : bool) (rs : list Report) (r : Report) (ai : jsstring) :
  findReport i rs = Some r ->
  truthy (aiReport r) && negb force = false ->
  generateReportContent env (describe r) = Some ai ->
  (ai <> [] ->
   analyze env' i false (snd (analyze env i force rs))
   = (json (AiReportBody ai), snd (analyze env i force rs))) /\
  (ai = [] ->
   fst (analyze env' i false (snd (analyze env i force rs)))
   = match generateReportContent env' (describe r) with
     | Some again => json (AiReportBody again)
     | None => error 500 "Failed to analyze report"
     end).
Proof.
  intros Hfind Hcall Hgen.
  assert (Hstore : snd (analyze env i force rs)
                   = updateFound i (set_aiReport (Some ai)) rs).
  { unfold analyze. rewrite Hfind, Hcall. fold (describe r). now rewrite Hgen. }
  assert (Hfound : findReport i (snd (analyze env i force rs))
                   = Some (set_aiReport (Some ai) r)).
  { rewrite Hstore. apply findReport_updateFound; [exact Hfind|].
    now destruct (findReport_split _ _ _ Hfind) as (_ & _ & _ & Hid & _). }
  split; intros Hai.
  - unfold analyze at 1. rewrite Hfound. cbn [aiReport set_aiReport truthy].
    destruct ai; [congruence|]. reflexivity.
  - subst ai. unfold analyze at 1. rewrite Hfound.
    cbn [aiReport set_aiReport truthy andb photos].
    fold (describe r).
    now destruct (generateReportContent env' (describe r)).
Qed.

Lemma analyze_serves_stored_narrative_witness :
  analyze sampleEnv (js "1700000000000") false
    (snd (analyze answeringEnv (js "1700000000000") false [sampleReport None]))
  = (json (AiReportBody mislabelledNarrative),
     snd (analyze answeringEnv (js "1700000000000") false [sampleReport None])).
Proof.
  apply (proj1 (analyze_serves_stored_narrative answeringEnv sampleEnv
                  (js "1700000000000") false [sampleReport None]
                  (sampleReport None) mislabelledNarrative
                  eq_refl eq_refl eq_refl)).
  discriminate.
Defined.

Lemma fold_assign_app (b1 b2 : list PatchEntry) (r : Report) :
  fold_left assign (b1 ++ b2) r = fold_left assign b2 (fold_left assign b1 r).
Proof. apply fold_left_app. Qed.

Lemma fold_assign_other (body : list PatchEntry) (r : Report) :
  forallb isOther body = true -> fold_left assign body r = r.
Proof.
  revert r. induction body as [|e body IH]; intros r H; [reflexivity|].
  simpl in H. apply andb_true_iff in H as [He Hb].
  destruct e; try discriminate. simpl. now apply IH.
Qed.

Lemma updateFound_same (i : jsstring) (rs : list Report) (r : Report) :
  findReport i rs = Some r -> updateFound i (fun _ => r) rs = rs.
Proof.
  intros H. destruct (findReport_split _ _ _ H) as (pre & post & -> & _ & _ & Hupd).
  apply Hupd.
Qed.

Lemma updateFound_twice (i : jsstring) (f g : Report -> Report)
  (rs : list Report) (r : Report) :
  findReport i rs = Some r ->
  id (f r) = i ->
  updateFound i g (updateFound i f rs) = updateFound i (fun x => g (f x)) rs.
Proof.
  intros H Hid.
  destruct (findReport_split _ _ _ H) as (pre & post & -> & _ & Hpre & Hupd).
  rewrite !Hupd.
  assert (Hf : findReport i (pre ++ f r :: post) = Some (f r))
    by now apply findReport_middle.
  destruct (findReport_split _ _ _ Hf) as (pre' & post' & Heq & _ & Hpre' & Hupd').
  rewrite Hupd'.
  assert (pre' = pre /\ post' = post) as [-> ->]; [|reflexivity].
  clear Hupd Hupd' H Hf. revert pre' Heq Hpre'.
  induction pre as [|q pre IH]; intros pre' Heq Hpre'.
  - destruct pre' as [|q' pre']; simpl in Heq.
    + injection Heq; intros; subst; now split.
    + injection Heq; intros; subst.
      exfalso. apply (Hpre' (f r)); [now left|congruence].
  - destruct pre' as [|q' pre']; simpl in Heq.
    + injection Heq; intros; subst.
      exfalso. apply (Hpre (f r)); [now left|congruence].
    + injection Heq; intros Heq' ?; subst q'.
      destruct (IH (fun x Hx => Hpre x (or_intror Hx)) pre' Heq'
                  (fun x Hx => Hpre' x (or_intror Hx))) as [-> ->].
      now split.
Qed.

(** X6.  A patch on a stored report, for bodies none of whose keys is a
    name that the report inherits ([toString], [constructor], ...; the
    handler gives the report a property of that name, which is outside
    of what a [Report] holds).  Keys that are not properties of the
    report change nothing; when the body carries no [id] key, a read
    returns the patched report, and a second patch has the effect of one
    patch with the two bodies in sequence. *)
Theorem patch_semantics (i : jsstring) (rs : list Report) (r : Report) :
  findReport i rs = Some r ->
  (forall body,
      ownKeysOnly body = true ->
      forallb isOther body = true ->
      patchReport i body rs = (json (ReportBody r), rs)) /\
  (forall body,
      ownKeysOnly body = true ->
      forallb (fun e => negb (isPatchId e)) body = true ->
      fst (getReport i (snd (patchReport i body rs)))
      = json (ReportBody (fold_left assign body r)) /\
      forall body',
        ownKeysOnly body' = true ->
        patchReport i body' (snd (patchReport i body rs))
        = patchReport i (body ++ body') rs).
Proof.
  intros Hfind. split.
  - intros body _ Hbody. unfold patchReport. rewrite Hfind.
    rewrite fold_assign_other by exact Hbody.
    now rewrite updateFound_same.
  - intros body _ Hbody.
    assert (Hid : id (fold_left assign body r) = i).
    { rewrite fold_assign_id, patchedId_without_id by exact Hbody.
      now destruct (findReport_split _ _ _ Hfind) as (_ & _ & _ & Hi & _). }
    assert (Hfound : findReport i (snd (patchReport i body rs))
                     = Some (fold_left assign body r)).
    { unfold patchReport. rewrite Hfind. cbn [snd].
      now apply (findReport_updateFound i (fun _ => fold_left assign body r) rs r). }
    split.
    + unfold getReport. now rewrite Hfound.
    + intros body' _. unfold patchReport at 1. rewrite Hfound.
      unfold patchReport. rewrite Hfind. cbn [snd].
      rewrite fold_assign_app. f_equal.
      now rewrite (updateFound_twice i (fun _ => fold_left assign body r) _ rs r
                     Hfind Hid).
Qed.

Lemma patch_semantics_witness :
  patchReport (js "1700000000000") [other (js "note")] [sampleReport None]
  = (json (ReportBody (sampleReport None)), [sampleReport None]) /\
  patchReport (js "1700000000000") [patch_status (js "final")]
    (snd (patchReport (js "1700000000000")
            [patch_aiReport (Some (js "Edited")); other (js "note")]
            [sampleReport None]))
  = patchReport (js "1700000000000")
      ([patch_aiReport (Some (js "Edited")); other (js "note")]
       ++ [patch_status (js "final")])
      [sampleReport None].
Proof.
  pose proof (patch_semantics (js "1700000000000") [sampleReport None]
                (sampleReport None) eq_refl) as [Hother Hcompose].
  split.
  - exact (Hother [other (js "note")] eq_refl eq_refl).
  - exact (proj2 (Hcompose [patch_aiReport (Some (js "Edited")); other (js "note")]
                    eq_refl eq_refl)
             [patch_status (js "final")] eq_refl).
Defined.

(** * Further properties of the document *)

(** ** Trimming and searching *)

Lemma includes_true (p s : jsstring) :
  includes p s = true -> exists pre rest, s = pre ++ p ++ rest.
Proof.
  induction s as [|c s IH]; cbn [includes]; intros H.
  - rewrite orb_false_r in H. apply startsWith_inv in H.
    exists [], (skipn (length p) []). exact H.
  - apply orb_true_iff in H as [H|H].
    + apply startsWith_inv in H. now exists [], (skipn (length p) (c :: s)).
    + destruct (IH H) as (pre & rest & ->). now exists (c :: pre), rest.
Qed.

(** A string that does not include [p] has no part that includes it. *)
Lemma includes_part (p a b c : jsstring) :
  includes p (a ++ b ++ c) = false -> includes p b = false.
Proof.
  intros H. destruct (includes p b) eqn:E; [|reflexivity].
  apply includes_true in E as (pre & rest & ->).
  exfalso. apply (includes_false _ _ H (a ++ pre) (rest ++ c)).
  now rewrite <- !app_assoc.
Qed.

Lemma trimStart_suffix (s : jsstring) : exists a, s = a ++ trimStart s.
Proof.
  induction s as [|c s IH]; [now exists []|].
  cbn [trimStart]. destruct (isWhiteSpace c); [|now exists []].
  destruct IH as (a & Ha). exists (c :: a). simpl. now rewrite <- Ha.
Qed.

Lemma trimStart_head (s : jsstring) (c : code_unit) (t : jsstring) :
  trimStart s = c :: t -> isWhiteSpace c = false.
Proof.
  induction s as [|d s IH]; [discriminate|].
  cbn [trimStart]. destruct (isWhiteSpace d) eqn:E; [exact IH|].
  now intros [= <- _].
Qed.

Lemma trimEnd_prefix (s : jsstring) : exists b, s = trimEnd s ++ b.
Proof.
  unfold trimEnd. destruct (trimStart_suffix (rev s)) as (a & Ha).
  exists (rev a). rewrite <- rev_app_distr, <- Ha. now rewrite rev_involutive.
Qed.

(** [trim] returns a part of its argument that neither starts nor ends
    with whitespace. *)
Lemma trim_part (s : jsstring) : exists a b, s = a ++ trim s ++ b.
Proof.
  unfold trim. destruct (trimStart_suffix s) as (a & Ha).
  destruct (trimEnd_prefix (trimStart s)) as (b & Hb).
  exists a, b. now rewrite <- Hb.
Qed.

Lemma trim_head (s : jsstring) (c : code_unit) (t : jsstring) :
  trim s = c :: t -> isWhiteSpace c = false.
Proof.
  unfold trim. intros H.
  destruct (trimEnd_prefix (trimStart s)) as (b & Hb). rewrite H in Hb.
  now apply (trimStart_head s c (t ++ b)).
Qed.

Lemma trim_last (s t : jsstring) (c : code_unit) :
  trim s = t ++ [c] -> isWhiteSpace c = false.
Proof.
  unfold trim, trimEnd. intros H.
  apply (f_equal (@rev _)) in H. rewrite rev_involutive, rev_app_distr in H.
  now apply (trimStart_head _ _ _ H).
Qed.

Lemma trim_In (s : jsstring) (c : code_unit) : In c (trim s) -> In c s.
Proof.
  destruct (trim_part s) as (a & b & Hs). intros H. rewrite Hs.
  apply in_or_app. right. apply in_or_app. now left.
Qed.

Lemma trim_includes (p s : jsstring) :
  includes p s = false -> includes p (trim s) = false.
Proof.
  destruct (trim_part s) as (a & b & Hs). intros H. rewrite Hs in H.
  now apply includes_part in H.
Qed.

(** ** Pieces of a split *)

Lemma startsWith_prefix (p b s : jsstring) :
  startsWith p b = true -> startsWith p (b ++ s) = true.
Proof.
  revert b. induction p as [|a p IH]; intros b; [reflexivity|].
  destruct b as [|c b]; [discriminate|]. simpl.
  intros H. apply andb_true_iff in H as [-> H]. now apply IH.
Qed.

(** No suffix of a string begins with [p]: the string does not include
    [p]. *)
Lemma includes_suffixes (p s : jsstring) :
  p <> [] ->
  (forall a b, s = a ++ b -> b <> [] -> startsWith p b = false) ->
  includes p s = false.
Proof.
  intros Hp. induction s as [|c s IH]; intros H; cbn [includes].
  - destruct p; [congruence|reflexivity].
  - rewrite (H [] (c :: s) eq_refl) by discriminate. apply IH.
    intros a b -> Hb. now apply (H (c :: a) b).
Qed.

Lemma split_go_pieces (sep : jsstring) (s : jsstring) :
  sep <> [] ->
  forall skip cur,
    (skip <> 0 -> cur = []) ->
    (forall a b, rev cur = a ++ b -> b <> [] -> startsWith sep (b ++ s) = false) ->
    forall piece, In piece (split_go sep skip cur s) ->
                  includes sep piece = false.
Proof.
  intros Hsep. induction s as [|c s IH]; intros skip cur Hskip Hcur piece.
  - cbn [split_go]. intros [<-|[]]. apply includes_suffixes; [exact Hsep|].
    intros a b Hab Hb. specialize (Hcur a b Hab Hb).
    now rewrite app_nil_r in Hcur.
  - cbn [split_go]. destruct skip as [|k].
    + destruct (startsWith sep (c :: s)) eqn:E.
      * intros [<-|Hin].
        -- apply includes_suffixes; [exact Hsep|].
           intros a b Hab Hb. specialize (Hcur a b Hab Hb).
           destruct (startsWith sep b) eqn:Eb; [|reflexivity].
           now rewrite (startsWith_prefix _ _ _ Eb) in Hcur.
        -- apply (IH (length sep - 1) []); [reflexivity| |exact Hin].
           intros a b Hab. symmetry in Hab.
           apply app_eq_nil in Hab as [_ ->]. congruence.
      * apply (IH 0 (c :: cur)); [congruence|].
        intros a b Hab Hb. cbn [rev] in Hab.
        destruct (exists_last Hb) as (b' & d & ->).
        rewrite app_assoc in Hab. apply app_inj_tail in Hab as [Hab ->].
        rewrite <- app_assoc. cbn [app].
        destruct b' as [|e b'].
        -- exact E.
        -- apply (Hcur a (e :: b')); [exact Hab|discriminate].
    + rewrite (Hskip ltac:(discriminate)) in *.
      apply (IH k []); [reflexivity|].
      intros a b Hab. symmetry in Hab.
      apply app_eq_nil in Hab as [_ ->]. congruence.
Qed.

(** No piece of [s.split(sep)] includes the separator. *)
Lemma split_pieces (sep s piece : jsstring) :
  sep <> [] -> In piece (split sep s) -> includes sep piece = false.
Proof.
  intros Hsep. apply (split_go_pieces sep s Hsep 0 []); [congruence|].
  intros a b Hab. symmetry in Hab. apply app_eq_nil in Hab as [_ ->].
  congruence.
Qed.

Lemma nth_split_piece (sep s : jsstring) (n : nat) :
  sep <> [] -> includes sep (nth n (split sep s) []) = false.
Proof.
  intros Hsep. destruct (nth_in_or_default n (split sep s) []) as [H | ->].
  - now apply split_pieces in H.
  - destruct sep; [congruence|reflexivity].
Qed.

(** ** The title *)

Lemma includes_single (c : code_unit) (s : jsstring) :
  includes [c] s = false -> ~ In c s.
Proof.
  induction s as [|d s IH]; [now intros _ []|].
  intros H. apply includes_tail in H as [Hd Hs]. cbn [startsWith] in Hd.
  rewrite andb_true_r in Hd. apply N.eqb_neq in Hd.
  intros [->|Hin]; [congruence|now apply IH].
Qed.

(** The first piece of a split is the beginning of the string. *)
Lemma split_go_first_prefix (sep s : jsstring) :
  forall cur, exists p rest,
    s = p ++ rest /\ nth 0 (split_go sep 0 cur s) [] = rev cur ++ p.
Proof.
  induction s as [|c s IH]; intros cur.
  - exists [], []. split; [reflexivity|]. cbn [split_go nth].
    now rewrite app_nil_r.
  - cbn [split_go]. destruct (startsWith sep (c :: s)).
    + exists [], (c :: s). split; [reflexivity|]. cbn [nth].
      now rewrite app_nil_r.
    + destruct (IH (c :: cur)) as (p & rest & -> & Hp).
      exists (c :: p), rest. split; [reflexivity|].
      rewrite Hp. cbn [rev]. now rewrite <- app_assoc.
Qed.

Lemma split_first_prefix (sep s : jsstring) :
  exists rest, s = nth 0 (split sep s) [] ++ rest.
Proof.
  destruct (split_go_first_prefix sep s []) as (p & rest & Hs & Hp).
  exists rest. unfold split. now rewrite Hp.
Qed.

(** X7.  The title of the document is never empty.  It is either the
    job name (or the fixed default for an empty job name), or a part of
    the narrative that lies before its first line feed, is longer than 10
    code units and neither starts nor ends with whitespace. *)
Theorem reportTitle_shape (report : Report) :
  reportTitle report <> [] /\
  (reportTitle report = defaultTitle report \/
   (10 < length (reportTitle report) /\
    ~ In LF (reportTitle report) /\
    (exists ai a b,
        aiReport report = Some ai /\ ai = a ++ reportTitle report ++ b /\
        ~ In LF a) /\
    (forall c t, reportTitle report = c :: t -> isWhiteSpace c = false) /\
    (forall t c, reportTitle report = t ++ [c] -> isWhiteSpace c = false))).
Proof.
  assert (Hdefault : defaultTitle report <> []).
  { unfold defaultTitle. destruct (jobName report); discriminate. }
  unfold reportTitle. fold (defaultTitle report).
  destruct (aiReport report) as [[|c0 ai0]|] eqn:Hai; try (split; auto; fail).
  set (ai := c0 :: ai0) in *.
  destruct (trim (nth 0 (split [LF] ai) [])) as [|c t] eqn:Ht;
    [split; auto|].
  destruct (10 <? length (c :: t)) eqn:Hlen; [|split; auto].
  apply Nat.ltb_lt in Hlen. split; [discriminate|]. right.
  rewrite <- Ht.
  assert (Hpiece : ~ In LF (nth 0 (split [LF] ai) [])).
  { apply includes_single, nth_split_piece. discriminate. }
  split; [now rewrite Ht|]. split; [intros H; now apply trim_In in H|].
  split; [|split; [apply trim_head|apply trim_last]].
  destruct (split_first_prefix [LF] ai) as (rest & Hrest).
  destruct (trim_part (nth 0 (split [LF] ai) [])) as (a & b & Hab).
  exists ai, a, (b ++ rest). split; [reflexivity|]. split.
  - rewrite Hrest at 1. rewrite Hab at 1. now rewrite <- !app_assoc.
  - intros Hin. apply Hpiece. rewrite Hab. apply in_or_app. now left.
Qed.

(** ** Field values *)

(** X8.  A printed field value holds no asterisk and neither starts nor
    ends with whitespace, and it is made of code units of the section. *)
Theorem fieldValue_clean (l : Label) (s w : jsstring) :
  fieldValue l s = Some w ->
  ~ In 42%N w /\
  (forall c, In c w -> In c s) /\
  (forall c t, w = c :: t -> isWhiteSpace c = false) /\
  (forall t c, w = t ++ [c] -> isWhiteSpace c = false).
Proof.
  unfold fieldValue, fieldMatch. intros Hw.
  destruct (matchWith (lookaheadLabels l) l s) as [v|] eqn:Hm; [|discriminate].
  injection Hw as <-.
  destruct (matchWith_Some _ _ _ _ Hm) as (pre & r & Hs & Hc & _).
  destruct r as [|c r]; [discriminate|]. injection Hc as <-.
  destruct (lazyRest_spec (lookaheadLabels l) r) as (rest & Hr & _).
  assert (Hs' : s = pre ++ labelText l
                      ++ (c :: lazyRest (lookaheadLabels l) r) ++ rest).
  { rewrite Hs. cbn [app]. now rewrite <- Hr. }
  clear Hs. revert Hs'. generalize (c :: lazyRest (lookaheadLabels l) r).
  intros v Hs.
  split; [|split; [|split]].
  - intros H. apply trim_In in H. unfold removeAsterisks in H.
    apply filter_In in H as [_ H]. discriminate H.
  - intros x H. apply trim_In in H. unfold removeAsterisks in H.
    apply filter_In in H as [H _]. rewrite Hs.
    apply in_or_app. right. apply in_or_app. right. apply in_or_app. now left.
  - apply trim_head.
  - apply trim_last.
Qed.

Lemma fieldValue_clean_witness :
  ~ In 42%N (js "Cracked tile.").
Proof.
  apply (proj1 (fieldValue_clean ProblemDescription
                  (js "Photo 1: Problem Description: **Cracked tile.**  ")
                  (js "Cracked tile.") eq_refl)).
Defined.

(** ** The last page *)

(** X9.  The text printed under "Recommended Services:" includes neither
    that label nor "Additional Notes:", and has no whitespace at either
    end. *)
Theorem recommendedServices_holds_no_label (report : Report) :
  includes (js "Recommended Services:") (recommendedServices report) = false /\
  includes (js "Additional Notes:") (recommendedServices report) = false /\
  (forall c t, recommendedServices report = c :: t -> isWhiteSpace c = false) /\
  (forall t c, recommendedServices report = t ++ [c] -> isWhiteSpace c = false).
Proof.
  assert (Hdefault :
            let d := js "No recommended services to be added." in
            includes (js "Recommended Services:") d = false /\
            includes (js "Additional Notes:") d = false /\
            (forall c t, d = c :: t -> isWhiteSpace c = false) /\
            (forall t c, d = t ++ [c] -> isWhiteSpace c = false)).
  { split; [vm_compute; reflexivity|]. split; [vm_compute; reflexivity|].
    split.
    - now intros c t [= <- _].
    - intros t c H. apply (f_equal (@rev _)) in H.
      rewrite rev_app_distr in H. now injection H as <- _. }
  unfold recommendedServices.
  destruct (aiReport report) as [[|c0 ai0]|]; try exact Hdefault.
  set (ai := c0 :: ai0).
  destruct (includes (js "Recommended Services:") ai); [|exact Hdefault].
  pose proof (nth_split_piece (js "Recommended Services:") ai 1
                ltac:(discriminate)) as Hrs.
  destruct (nth 1 (split (js "Recommended Services:") ai) [])
    as [|c1 ss0] eqn:Ess; [exact Hdefault|].
  set (ss := c1 :: ss0) in *.
  destruct (includes (js "Additional Notes:") ss) eqn:Ean.
  - destruct (split_first_prefix (js "Additional Notes:") ss) as (rest & Hrest).
    split; [|split; [|split; [apply trim_head|apply trim_last]]].
    + apply trim_includes. rewrite Hrest in Hrs.
      now apply (includes_part _ [] _ rest) in Hrs.
    + apply trim_includes, nth_split_piece. discriminate.
  - split; [now apply trim_includes|].
    split; [now apply trim_includes|].
    split; [apply trim_head|apply trim_last].
Qed.

Lemma forEachFrom_texts {A St} (f : A -> nat -> St -> Doc St)
  (g : A -> list jsstring) (l : list A) :
  (forall a idx s h, textsOf (emitted (f a idx s) h) = g a) ->
  forall idx s h, textsOf (emitted (forEachFrom f idx l s) h) = flat_map g l.
Proof.
  intros Hf. induction l as [|a l IH]; intros idx s h; [reflexivity|].
  cbn [forEachFrom flat_map]. rewrite emitted_bind, textsOf_app, Hf.
  now rewrite IH.
Qed.

Lemma serviceLine_shows (line : jsstring) (idx : nat) (u : unit)
  (h : list Call) :
  textsOf (emitted (serviceLine line idx u) h)
  = if nonEmpty (trim line) then [trim line] else [].
Proof.
  unfold serviceLine. destruct (trim line) as [|c t]; [reflexivity|].
  cbn [nonEmpty]. destruct (_ || _); unfold plainText; trace; reflexivity.
Qed.

Lemma flat_map_filter (lines : list jsstring) :
  flat_map (fun line => if nonEmpty (trim line) then [trim line] else []) lines
  = filter nonEmpty (map trim lines).
Proof.
  induction lines as [|l lines IH]; [reflexivity|].
  cbn [flat_map map filter]. rewrite IH. now destruct (nonEmpty (trim l)).
Qed.

(** X10.  The last page of a report with at most nine photos shows its
    number, the title, the services heading followed by the non-blank
    lines of the services text with their surrounding whitespace removed,
    then the notes heading followed by the notes or the fixed default.  No
    blank line is printed, and the notes are never empty. *)
Theorem page3_shows (cursorY : list Call -> Q) (disk : Disk) (report : Report)
  (title : jsstring) (h : list Call) :
  length (photos report) <= 9 ->
  textsOf (emitted (page3 cursorY disk report title) h)
  = [js "Page 3 of 3"; title; js "Recommended Services:"]
      ++ serviceTexts report
      ++ [js "Additional Notes:"; additionalNotes report] /\
  ~ In [] (serviceTexts report) /\
  additionalNotes report <> [].
Proof.
  intros Hn. split; [|split].
  - unfold page3. apply Nat.ltb_ge in Hn. rewrite Hn.
    unfold addPageNumber, titleLine, addSectionHeader, plainText, forEach.
    trace.
    match goal with
    | |- context [emitted (forEachFrom serviceLine 0 ?l tt) ?h'] =>
        rewrite (forEachFrom_texts serviceLine _ l serviceLine_shows 0 tt h')
    end.
    rewrite flat_map_filter. unfold serviceTexts.
    cbn [app]. reflexivity.
  - unfold serviceTexts. intros H. apply filter_In in H as [_ H]. discriminate H.
  - unfold additionalNotes.
    destruct (aiReport report) as [[|c ai]|]; try discriminate.
    destruct (includes _ _); [|discriminate].
    destruct (trim _); discriminate.
Qed.

Lemma page3_shows_witness :
  textsOf (emitted (page3 (fun _ => 0%Q) blankDisk
                      (sampleReport (Some closingNarrative))
                      (js "Water damage in kitchen")) [])
  = [js "Page 3 of 3"; js "Water damage in kitchen";
     js "Recommended Services:"; js "- Replace the tile"; js "Call a plumber";
     js "Additional Notes:"; js "Recheck in a month."].
Proof.
  exact (proj1 (page3_shows (fun _ => 0%Q) blankDisk
                  (sampleReport (Some closingNarrative))
                  (js "Water damage in kitchen") []
                  ltac:(vm_compute; repeat constructor))).
Defined.

Lemma reportTitle_shape_witness :
  reportTitle (sampleReport (Some mislabelledNarrative)) <> [] /\
  isWhiteSpace 87%N = false.
Proof.
  destruct (reportTitle_shape (sampleReport (Some mislabelledNarrative)))
    as [Hne [Hd|(_ & _ & _ & Hhead & _)]].
  - discriminate Hd.
  - split; [exact Hne|]. now apply (Hhead 87%N (js "ater damage in kitchen")).
Defined.

Lemma recommendedServices_holds_no_label_witness :
  isWhiteSpace 45%N = false.
Proof.
  apply (proj1 (proj2 (proj2 (recommendedServices_holds_no_label
                                (sampleReport (Some closingNarrative)))))
           45%N (js " Replace the tile" ++ LF :: LF :: js "  Call a plumber")).
  vm_compute. reflexivity.
Defined.

(** ** Markers and sections *)

Lemma canonicalize_P_not_space (c : code_unit) :
  canonicalize c = 80%N -> isWhiteSpace c = false.
Proof.
  unfold canonicalize. destruct ((97 <=? c)%N && (c <=? 122)%N) eqn:E.
  - intros H. assert (c = 112%N) as -> by lia. reflexivity.
  - now intros ->.
Qed.

Lemma isDigit_not_space (d : code_unit) :
  isDigit d = true -> isWhiteSpace d = false.
Proof.
  unfold isDigit, isWhiteSpace. intros H.
  apply andb_true_iff in H as [H1 H2].
  apply N.leb_le in H1, H2.
  cbn [existsb]. repeat (apply orb_false_intro);
    try (apply N.eqb_neq; lia); try reflexivity.
  apply andb_false_iff. left. apply N.leb_gt. lia.
Qed.

Lemma span_app (f : code_unit -> bool) (a b : jsstring) :
  forallb f a = true ->
  match b with c :: _ => f c = false | [] => True end ->
  span f (a ++ b) = (a, b).
Proof.
  intros Ha Hb. induction a as [|x a IH]; cbn [app span].
  - destruct b as [|c b]; [reflexivity|]. cbn [span]. now rewrite Hb.
  - simpl in Ha. apply andb_true_iff in Ha as [-> Ha]. now rewrite IH.
Qed.

Lemma matchIgnoreCase_app (p w r : jsstring) :
  map canonicalize w = map canonicalize p ->
  matchIgnoreCase p (w ++ r) = Some r.
Proof.
  revert w. induction p as [|a p IH]; intros w H.
  - destruct w; [reflexivity|discriminate].
  - destruct w as [|b w]; [discriminate|]. injection H as Hab Hw.
    cbn [app matchIgnoreCase]. rewrite Hab, N.eqb_refl. now apply IH.
Qed.

Lemma canonicalize_idempotent (c : code_unit) :
  canonicalize (canonicalize c) = canonicalize c.
Proof.
  unfold canonicalize.
  destruct ((97 <=? c)%N && (c <=? 122)%N) eqn:E; [|now rewrite E].
  apply andb_true_iff in E as [E1 E2]. apply N.leb_le in E1, E2.
  assert ((97 <=? c - 32)%N && (c - 32 <=? 122)%N = false) as ->; [|reflexivity].
  apply andb_false_iff. left. apply N.leb_gt. lia.
Qed.

(** The anchored pattern matches exactly the strings that begin with a
    marker, and returns the length of that marker. *)
Lemma photoPattern_complete (m post : jsstring) :
  isMarker m -> photoPattern (m ++ post) = Some (length m).
Proof.
  intros (w & ws & ds & -> & Hw & Hws & Hwsf & Hds & Hdsf).
  unfold photoPattern. rewrite <- !app_assoc.
  rewrite (matchIgnoreCase_app (js "Photo") w); [|now rewrite Hw].
  destruct ws as [|w0 ws]; [congruence|].
  destruct ds as [|d0 ds]; [congruence|].
  rewrite (span_app isWhiteSpace (w0 :: ws)); [|exact Hwsf|].
  2:{ cbn [app]. apply isDigit_not_space.
      simpl in Hdsf. now apply andb_true_iff in Hdsf as [-> _]. }
  rewrite (span_app isDigit (d0 :: ds)); [|exact Hdsf|reflexivity].
  cbn [app]. rewrite N.eqb_refl.
  assert (length w = 5) as Hlen.
  { apply (f_equal (@length _)) in Hw. now rewrite length_map in Hw. }
  f_equal. repeat (rewrite length_app || cbn [length]).
  unfold jsstring, code_unit in *. lia.
Qed.

Lemma photoPattern_sound (s : jsstring) (n : nat) :
  photoPattern s = Some n ->
  exists m post, s = m ++ post /\ isMarker m /\ n = length m.
Proof.
  intros H. destruct (photoPattern_marker _ _ H) as (m & post & -> & Hm).
  exists m, post. rewrite (photoPattern_complete m post Hm) in H.
  injection H as <-. now repeat split.
Qed.

Lemma matchAll_go_lower (s : jsstring) :
  forall skip idx i, In i (matchAll_go skip idx s) -> idx + skip <= i.
Proof.
  induction s as [|c s IH]; intros skip idx i; [now intros []|].
  cbn [matchAll_go]. destruct skip as [|k].
  - destruct (photoPattern (c :: s)).
    + intros [<-|H]; [lia|]. apply IH in H. lia.
    + intros H. apply IH in H. lia.
  - intros H. apply IH in H. lia.
Qed.

Lemma marksFrom_shift (base : nat) (c : code_unit) (s : jsstring)
  (l : list nat) :
  (forall i, In i l -> S base <= i) ->
  marksFrom (S base) s l -> marksFrom base (c :: s) l.
Proof.
  induction l as [|i l IH]; intros Hl H; [exact I|].
  destruct H as [[Hi (m & post & Hs & Hm & Hnext)] Hrest].
  assert (S base <= i) as Hi' by (apply Hl; now left).
  split; [split; [lia|]|].
  - exists m, post. split; [|now split].
    replace (i - base) with (S (i - S base)) by lia. exact Hs.
  - apply IH; [|exact Hrest]. intros j Hj. apply Hl. now right.
Qed.

Lemma matchAll_go_marks (s : jsstring) :
  forall skip idx, marksFrom idx s (matchAll_go skip idx s).
Proof.
  induction s as [|c s IH]; intros skip idx; [exact I|].
  cbn [matchAll_go]. destruct skip as [|k].
  - destruct (photoPattern (c :: s)) as [n|] eqn:E.
    + destruct (photoPattern_sound _ _ E) as (m & post & Hs & Hm & ->).
      split; [split; [lia|]|].
      * exists m, post. rewrite Nat.sub_diag. split; [exact Hs|].
        split; [exact Hm|]. intros j Hj. apply matchAll_go_lower in Hj.
        assert (0 < length m).
        { destruct m; [|simpl; lia]. destruct Hm as (w & ws & ds & H0 & _).
          symmetry in H0. apply app_eq_nil in H0 as [_ H0].
          apply app_eq_nil in H0 as [_ H0]. apply app_eq_nil in H0 as [_ H0].
          discriminate. }
        lia.
      * apply marksFrom_shift; [|apply IH].
        intros i Hi. apply matchAll_go_lower in Hi. lia.
    + apply marksFrom_shift; [|apply IH].
      intros i Hi. apply matchAll_go_lower in Hi. lia.
  - apply marksFrom_shift; [|apply IH].
    intros i Hi. apply matchAll_go_lower in Hi. lia.
Qed.

Lemma trimStart_app_nonspace (a : jsstring) (c : code_unit) (b : jsstring) :
  isWhiteSpace c = false ->
  trimStart (a ++ c :: b) = trimStart a ++ c :: b.
Proof.
  intros Hc. induction a as [|x a IH]; cbn [app trimStart].
  - now rewrite Hc.
  - destruct (isWhiteSpace x); [exact IH|reflexivity].
Qed.

Lemma trimEnd_app_nonspace (x : jsstring) (c : code_unit) (r : jsstring) :
  isWhiteSpace c = false ->
  trimEnd (x ++ c :: r) = x ++ c :: trimEnd r.
Proof.
  intros Hc. unfold trimEnd. rewrite rev_app_distr. cbn [rev].
  rewrite <- app_assoc. cbn [app].
  rewrite trimStart_app_nonspace by exact Hc.
  rewrite rev_app_distr. cbn [rev]. rewrite rev_involutive.
  rewrite <- app_assoc. reflexivity.
Qed.

Lemma trim_marker (m r : jsstring) :
  isMarker m -> trim (m ++ r) = m ++ trimEnd r.
Proof.
  intros (w & ws & ds & -> & Hw & _).
  destruct w as [|p w]; [discriminate|]. injection Hw as Hp _.
  unfold trim. cbn [app trimStart].
  rewrite (canonicalize_P_not_space p Hp).
  transitivity (trimEnd ((p :: w ++ ws ++ ds) ++ 58%N :: r));
    [f_equal; cbn [app]; now rewrite <- !app_assoc|].
  rewrite trimEnd_app_nonspace by reflexivity.
  cbn [app]. now rewrite <- !app_assoc.
Qed.

Lemma isMarker_length (m : jsstring) : isMarker m -> 8 <= length m.
Proof.
  intros (w & ws & ds & -> & Hw & Hws & _ & Hds & _).
  apply (f_equal (@length _)) in Hw. rewrite length_map in Hw.
  destruct ws; [congruence|]. destruct ds; [congruence|].
  repeat (rewrite length_app || cbn [length]).
  unfold jsstring, code_unit in *. change (length (js "PHOTO")) with 5 in Hw.
  lia.
Qed.

Lemma sectionsFrom_markers (text : jsstring) (l : list nat) :
  marksFrom 0 text l ->
  forall section, In section (sectionsFrom text l) ->
    exists m rest, section = m ++ rest /\ isMarker m.
Proof.
  induction l as [|i l IH]; intros H section; [now intros []|].
  destruct H as [[_ (m & post & Hs & Hm & Hnext)] Hrest].
  cbn [sectionsFrom]. intros [<-|Hin]; [|now apply IH].
  rewrite Nat.sub_0_r in Hs. unfold substring. rewrite Hs.
  set (end_ := match l with next :: _ => next | [] => length text end).
  assert (Hend : i + length m <= end_).
  { unfold end_. destruct l as [|j l]; [|apply Hnext; now left].
    apply (f_equal (@length _)) in Hs.
    rewrite length_skipn, length_app in Hs.
    pose proof (isMarker_length m Hm).
    unfold jsstring, code_unit in *. lia. }
  rewrite firstn_app, firstn_all2
    by (unfold jsstring, code_unit in *; lia).
  exists m, (trimEnd (firstn (end_ - i - length m) post)).
  split; [now apply trim_marker|exact Hm].
Qed.

Lemma matchAll_go_finds (pre m post : jsstring) :
  isMarker m ->
  forall idx, matchAll_go 0 idx (pre ++ m ++ post) <> [].
Proof.
  intros Hm. induction pre as [|c pre IH]; intros idx.
  - cbn [app]. pose proof (photoPattern_complete m post Hm) as Hp.
    destruct (m ++ post) as [|c s] eqn:E; [discriminate Hp|].
    cbn [matchAll_go]. rewrite Hp. discriminate.
  - cbn [app matchAll_go].
    destruct (photoPattern (c :: pre ++ m ++ post)); [discriminate|].
    apply IH.
Qed.

Lemma parsed_section_marker (text section : jsstring) :
  In section (parseSections (Some text)) ->
  section <> [] /\
  (exists m rest, section = m ++ rest /\ isMarker m).
Proof.
  intros Hin. unfold parseSections in Hin.
  destruct text as [|c t]; [now destruct Hin|].
  destruct (sectionsFrom_markers (c :: t) (matchAll (c :: t))
              (matchAll_go_marks (c :: t) 0 0) section Hin)
    as (m & rest & -> & Hm).
  split; [|now exists m, rest].
  pose proof (isMarker_length m Hm). destruct m; [cbn in *; lia|discriminate].
Qed.

(** X11.  No section is parsed exactly when the narrative holds no
    "Photo N:" marker; every parsed section is a part of the narrative
    that begins with a marker, so it is never empty. *)
Theorem parsed_sections_begin_with_markers (text : jsstring) :
  (parseSections (Some text) = [] <-> ~ hasMarker text) /\
  length (parseSections (Some text)) = length (matchAll text) /\
  (forall section,
      In section (parseSections (Some text)) ->
      section <> [] /\
      (exists m rest, section = m ++ rest /\ isMarker m)).
Proof.
  assert (Hlen : forall t l, length (sectionsFrom t l) = length l).
  { intros t l. induction l as [|i l IH]; [reflexivity|].
    cbn [sectionsFrom length]. now rewrite IH. }
  split; [|split].
  - split; [|apply parseSections_no_marker].
    intros Hempty (pre & m & post & -> & Hm).
    unfold parseSections in Hempty.
    destruct (pre ++ m ++ post) as [|c s] eqn:E.
    + apply app_eq_nil in E as [_ E]. apply app_eq_nil in E as [-> _].
      pose proof (isMarker_length [] Hm). cbn in *. lia.
    + rewrite <- E in Hempty. apply (f_equal (@length _)) in Hempty.
      rewrite Hlen in Hempty.
      apply (matchAll_go_finds pre m post Hm 0).
      now apply length_zero_iff_nil.
  - unfold parseSections. destruct text; [reflexivity|]. apply Hlen.
  - apply parsed_section_marker.
Qed.

Lemma parsed_sections_begin_with_markers_witness :
  js "Photo 7: Problem Description: Cracked tile." <> [] /\
  exists m rest,
    js "Photo 7: Problem Description: Cracked tile." = m ++ rest /\ isMarker m.
Proof.
  apply (proj2 (proj2 (parsed_sections_begin_with_markers mislabelledNarrative))).
  vm_compute. left. reflexivity.
Defined.

Lemma nth_error_mapFrom {A B} (f : A -> nat -> B) (l : list A) :
  forall idx k,
    nth_error (mapFrom f idx l) k
    = option_map (fun a => f a (idx + k)) (nth_error l k).
Proof.
  induction l as [|a l IH]; intros idx k; [now destruct k|].
  destruct k as [|k]; cbn [mapFrom nth_error option_map].
  - now rewrite Nat.add_0_r.
  - rewrite IH. now replace (S idx + k) with (idx + S k) by lia.
Qed.

(** X12.  Which branch a breakdown entry takes.  The entry of the photo
    at index [i] reads an empty section, and so prints the description of
    the photo, exactly when the narrative yields at least one section but
    none at index [i].  When the narrative yields no section at all, the
    entry reads the section built from the photo, "Photo i+1:" and a line
    feed before its description: a section that is not empty, so the
    description branch is not taken. *)
Theorem description_branch (report : Report) (i : nat) (photo : Photo) :
  nth_error (photos report) i = Some photo ->
  (nth i (photoSections report) [] = [] <->
   parseSections (aiReport report) <> [] /\
   length (parseSections (aiReport report)) <= i) /\
  (parseSections (aiReport report) = [] ->
   nth i (photoSections report) []
   = js "Photo " ++ ofNat (i + 1) ++ js ":" ++ [LF]
       ++ orElse (description photo) (js "No description provided.")).
Proof.
  intros Hi.
  assert (Hfallback :
            nth i (fallbackSections (photos report)) []
            = js "Photo " ++ ofNat (i + 1) ++ js ":" ++ [LF]
                ++ orElse (description photo) (js "No description provided.")).
  { apply nth_error_nth. unfold fallbackSections.
    now rewrite nth_error_mapFrom, Hi. }
  unfold photoSections.
  destruct (parseSections (aiReport report)) as [|s0 parsed] eqn:Hp.
  - destruct (photos report) as [|p0 ps] eqn:Hps; [now destruct i|].
    rewrite Hfallback. split; [|reflexivity].
    split; [discriminate|]. now intros [[] _].
  - split; [|discriminate]. split.
    + intros Hnil. split; [discriminate|].
      destruct (Nat.le_gt_cases (length (s0 :: parsed)) i) as [|Hlt];
        [assumption|exfalso].
      assert (Hin : In (nth i (s0 :: parsed) []) (parseSections (aiReport report))).
      { rewrite Hp. now apply nth_In. }
      destruct (aiReport report) as [text|]; [|now destruct Hin].
      destruct (parsed_section_marker text _ Hin) as [Hne _].
      congruence.
    + intros [_ Hle]. now apply nth_overflow.
Qed.

Lemma description_branch_witness :
  nth 1 (photoSections (sampleReport (Some (js "Photo 1: Priority Level: High."))))
    [] = [] /\
  nth 1 (photoSections (sampleReport None)) []
  = js "Photo " ++ ofNat (1 + 1) ++ js ":" ++ [LF]
      ++ orElse (description (samplePhoto "leaking pipe"))
           (js "No description provided.").
Proof.
  split.
  - apply (proj1 (description_branch
                    (sampleReport (Some (js "Photo 1: Priority Level: High.")))
                    1 (samplePhoto "leaking pipe") eq_refl)).
    split; [discriminate|]. vm_compute. repeat constructor.
  - apply (proj2 (description_branch (sampleReport None) 1
                    (samplePhoto "leaking pipe") eq_refl)).
    reflexivity.
Defined.

(** ** Pages *)

Lemma pageCount_app (a b : list Call) :
  pageCount (a ++ b) = pageCount a + pageCount b.
Proof. unfold pageCount. now rewrite filter_app, length_app. Qed.

Lemma emitted_bind_docY {B} (cursorY : list Call -> Q) (f : Q -> Doc B)
  (h : list Call) :
  emitted (bind (docY cursorY) f) h = emitted (f (cursorY h)) (h ++ []).
Proof. now rewrite emitted_bind. Qed.

(** As [unbind], but the value read from the cursor stays visible. *)
Ltac unbindY1 :=
  match goal with
  | |- context [emitted (bind (docY ?c) ?f) ?h] =>
      rewrite (emitted_bind_docY c f h);
      generalize (h ++ @nil Call); intros ?; cbv beta
  end.

Ltac pages :=
  repeat first [unbindY1 | unbind1];
  rewrite ?emitted_call, ?emitted_ret, ?emitted_docY, ?pageCount_app.

Lemma pageCount_photoBox (disk : Disk) (photo : Photo) (x y : Q) (h : list Call) :
  pageCount (emitted (photoBox disk photo x y) h) = 0.
Proof.
  unfold photoBox, placeholder.
  destruct (existsSync disk (path photo)), (imageLoads disk (path photo));
    pages; reflexivity.
Qed.

Lemma pageCount_gridCell (disk : Disk) (offset : nat) (photo : Photo) (k : nat)
  (g : Grid) (h : list Call) :
  pageCount (emitted (gridCell disk offset photo k g) h) = 0.
Proof.
  unfold gridCell. cbv zeta.
  assert (Hret : forall (c : bool) (a b : Grid) h',
             emitted (if c then ret a else ret b) h' = [])
    by (now intros []).
  pages. now rewrite Hret, pageCount_photoBox.
Qed.

Lemma pageCount_forEachFrom {A St} (f : A -> nat -> St -> Doc St) (l : list A) :
  (forall a idx s h, pageCount (emitted (f a idx s) h) = 0) ->
  forall idx s h, pageCount (emitted (forEachFrom f idx l s) h) = 0.
Proof.
  intros Hf. induction l as [|a l IH]; intros idx s h; [reflexivity|].
  cbn [forEachFrom]. now rewrite emitted_bind, pageCount_app, Hf, IH.
Qed.

Lemma pageCount_photoGrid (cursorY : list Call -> Q) (disk : Disk)
  (offset : nat) (ps : list Photo) (h : list Call) :
  pageCount (emitted (photoGrid cursorY disk offset ps) h) = 0.
Proof.
  unfold photoGrid, forEach. pages.
  now rewrite (pageCount_forEachFrom _ _ (pageCount_gridCell disk offset)).
Qed.

Lemma pageCount_labelled (cursorY : list Call -> Q) (label value : jsstring)
  (h : list Call) :
  pageCount (emitted (labelled cursorY label value) h) = 0.
Proof. unfold labelled. pages. reflexivity. Qed.

Lemma pageCount_field (cursorY : list Call -> Q) (l : Label)
  (section : jsstring) (h : list Call) :
  pageCount (emitted (field cursorY l section) h) = 0.
Proof.
  unfold field. destruct (fieldMatch l section) as [[|c v]|]; try reflexivity.
Qed.

Lemma pageCount_continuationPage (cursorY : list Call -> Q) (title : jsstring)
  (h : list Call) :
  pageCount (emitted (continuationPage cursorY title) h) = 1.
Proof. unfold continuationPage, addPageNumber. pages. reflexivity. Qed.

(** An entry opens a continuation page or none; it opens one only when
    it is not the last and the cursor, read after the entry, is below
    the threshold. *)
Lemma pageCount_breakdownEntry (cursorY : list Call -> Q) (title : jsstring)
  (sections : list jsstring) (total : nat) (photo : Photo) (k : nat)
  (h : list Call) :
  pageCount (emitted (breakdownEntry cursorY title sections total photo k tt) h)
  = 0 \/
  (pageCount (emitted (breakdownEntry cursorY title sections total photo k tt) h)
   = 1 /\
   k + 1 < total /\
   exists h', Qle_bool (cursorY h') (pageHeight - 150)%Q = false).
Proof.
  unfold breakdownEntry. cbv zeta.
  destruct (nth k sections []) as [|c section]; pages;
    rewrite ?pageCount_labelled, ?pageCount_field;
    match goal with
    | |- context [if negb (Qle_bool (cursorY ?h') ?q) && ?b then _ else _] =>
        destruct (Qle_bool (cursorY h') q) eqn:Ey; destruct b eqn:Eb;
        cbn [negb andb]
    end;
    rewrite ?pageCount_continuationPage, ?emitted_ret;
    try (left; reflexivity);
    right; (split; [reflexivity|]); apply Nat.ltb_lt in Eb; split; eauto.
Qed.

Lemma pageCount_breakdown (cursorY : list Call -> Q) (title : jsstring)
  (sections : list jsstring) (total : nat) (ps : list Photo) :
  forall idx h,
    idx + length ps = total ->
    pageCount (emitted (forEachFrom (breakdownEntry cursorY title sections total)
                          idx ps tt) h)
    <= length ps - 1.
Proof.
  induction ps as [|p ps IH]; intros idx h Htotal; [cbn; lia|].
  cbn [forEachFrom]. rewrite emitted_bind, pageCount_app.
  destruct (fst _).
  cbn [length] in *.
  specialize (IH (S idx) (h ++ emitted (breakdownEntry cursorY title sections
                                         total p idx tt) h) ltac:(lia)).
  destruct (pageCount_breakdownEntry cursorY title sections total p idx h)
    as [->|(-> & Hlt & _)]; lia.
Qed.

Lemma pageCount_breakdown_above (cursorY : list Call -> Q) (title : jsstring)
  (sections : list jsstring) (total : nat) (ps : list Photo) :
  (forall h, Qle_bool (cursorY h) (pageHeight - 150)%Q = true) ->
  forall idx h,
    pageCount (emitted (forEachFrom (breakdownEntry cursorY title sections total)
                          idx ps tt) h)
    = 0.
Proof.
  intros Habove idx0 h0. apply pageCount_forEachFrom. intros a idx [] h.
  destruct (pageCount_breakdownEntry cursorY title sections total a idx h)
    as [H|(_ & _ & h' & Hh')]; [exact H|].
  rewrite Habove in Hh'. discriminate.
Qed.

Lemma pageCount_serviceLine (line : jsstring) (idx : nat) (u : unit)
  (h : list Call) :
  pageCount (emitted (serviceLine line idx u) h) = 0.
Proof.
  unfold serviceLine. destruct (trim line); [reflexivity|].
  destruct (_ || _); reflexivity.
Qed.

Lemma pageCount_document (cursorY : list Call -> Q) (disk : Disk)
  (report : Report) :
  exists h,
    pageCount (emitted (document cursorY disk report) [])
    = 3 + pageCount (emitted (forEachFrom
                                (breakdownEntry cursorY (reportTitle report)
                                   (photoSections report)
                                   (length (photos report)))
                                0 (photos report) tt) h).
Proof.
  unfold document, page1, page2, page3, addPageNumber, titleLine,
    addSectionHeader, plainText, forEach. cbv zeta.
  destruct (9 <? length (photos report)); pages;
    rewrite ?pageCount_photoGrid,
      ?(pageCount_forEachFrom serviceLine _ pageCount_serviceLine);
    match goal with
    | |- context [pageCount (emitted (forEachFrom ?f 0 ?l tt) ?h')] =>
        exists h'; generalize (pageCount (emitted (forEachFrom f 0 l tt) h'))
    end;
    intros n; cbn [pageCount filter length]; lia.
Qed.

(** X13.  The document is made of three pages and the continuation pages
    of the breakdown: [doc.addPage()] is called at least three times and
    at most once more per photo but the last.  It is called exactly three
    times when the cursor, wherever it is read, is not below the
    threshold of 150 points above the bottom of the page. *)
Theorem explicit_pages (cursorY : list Call -> Q) (disk : Disk)
  (report : Report) (outputPath : jsstring) :
  3 <= pageCount (calls (generateFormattedPDF cursorY disk report outputPath))
    <= 3 + (length (photos report) - 1) /\
  ((forall h, Qle_bool (cursorY h) (pageHeight - 150)%Q = true) ->
   pageCount (calls (generateFormattedPDF cursorY disk report outputPath)) = 3).
Proof.
  cbn [generateFormattedPDF calls].
  destruct (pageCount_document cursorY disk report) as (h & ->).
  split.
  - pose proof (pageCount_breakdown cursorY (reportTitle report)
                  (photoSections report) (length (photos report))
                  (photos report) 0 h eq_refl).
    lia.
  - intros Habove. now rewrite pageCount_breakdown_above.
Qed.

Lemma explicit_pages_witness :
  pageCount (calls (generateFormattedPDF (fun _ => 0%Q) blankDisk
                      (sampleReport (Some mislabelledNarrative))
                      (js "report-1.pdf")))
  = 3.
Proof.
  apply (proj2 (explicit_pages (fun _ => 0%Q) blankDisk
                  (sampleReport (Some mislabelledNarrative))
                  (js "report-1.pdf"))).
  intros h. reflexivity.
Defined.

(** ** The photo grid *)

Lemma fst_bind {A B} (m : Doc A) (f : A -> Doc B) (h : list Call) :
  fst (bind m f h) = fst (f (fst (m h)) (h ++ emitted m h)).
Proof.
  unfold emitted, bind. destruct (m h) as [a e1]. cbn [fst snd].
  now destruct (f a (h ++ e1)).
Qed.

(** The grid variables after one cell. *)
Lemma gridCell_next (disk : Disk) (offset : nat) (photo : Photo) (idx : nat)
  (g : Grid) (h : list Call) :
  fst (gridCell disk offset photo idx g h)
  = if S (gcount g) mod 3 =? 0
    then {| gx := marginLeft; gy := (gy g + (photoSize + 30))%Q;
            gcount := S (gcount g) |}
    else {| gx := (gx g + (photoSize + 20))%Q; gy := gy g;
            gcount := S (gcount g) |}.
Proof.
  unfold gridCell. cbv zeta. rewrite !fst_bind.
  now destruct (S (gcount g) mod 3 =? 0).
Qed.

Lemma next_in_row (k : nat) :
  S k mod 3 <> 0 -> S k mod 3 = k mod 3 + 1 /\ S k / 3 = k / 3.
Proof.
  intros H.
  pose proof (Nat.div_mod_eq k 3). pose proof (Nat.div_mod_eq (S k) 3).
  pose proof (Nat.mod_upper_bound k 3 ltac:(lia)).
  pose proof (Nat.mod_upper_bound (S k) 3 ltac:(lia)).
  lia.
Qed.

Lemma next_row (k : nat) :
  S k mod 3 = 0 -> S k / 3 = k / 3 + 1.
Proof.
  intros H.
  pose proof (Nat.div_mod_eq k 3). pose proof (Nat.div_mod_eq (S k) 3).
  pose proof (Nat.mod_upper_bound k 3 ltac:(lia)).
  lia.
Qed.

(** The height of a row: the cursor, and [photoSize + 30] added once
    for every row above. *)
Lemma row_below (top : Q) (r : nat) :
  (Nat.iter r (fun y => y + (photoSize + 30)) top
   < Nat.iter (S r) (fun y => y + (photoSize + 30)) top)%Q.
Proof.
  set (f := fun y => (y + (photoSize + 30))%Q).
  change (Nat.iter (S r) f top) with (f (Nat.iter r f top)).
  generalize (Nat.iter r f top). intros y. unfold f.
  rewrite <- (Qplus_0_r y) at 1. apply Qplus_lt_r. reflexivity.
Qed.

Lemma cellAt_next (top : Q) (k : nat) (g : Grid) :
  cellAt (fun r => Nat.iter r (fun y => (y + (photoSize + 30))%Q) top) k g ->
  cellAt (fun r => Nat.iter r (fun y => (y + (photoSize + 30))%Q) top) (S k)
    (if S (gcount g) mod 3 =? 0
     then {| gx := marginLeft; gy := (gy g + (photoSize + 30))%Q;
             gcount := S (gcount g) |}
     else {| gx := (gx g + (photoSize + 20))%Q; gy := gy g;
             gcount := S (gcount g) |}).
Proof.
  intros (Hc & Hx & Hy). rewrite Hc. unfold cellAt, cellX in *.
  destruct (S k mod 3 =? 0) eqn:E; cbn [gx gy gcount].
  - apply Nat.eqb_eq in E. rewrite E, (next_row k E), Hy, Nat.add_1_r.
    split; [reflexivity|]. split; [cbn [Z.of_nat]; ring|reflexivity].
  - apply Nat.eqb_neq in E. destruct (next_in_row k E) as [-> ->].
    rewrite Hx, Hy, Nat2Z.inj_add, inject_Z_plus.
    split; [reflexivity|]. split; [cbn [Z.of_nat]; ring|reflexivity].
Qed.

Lemma gridCells_geometry (disk : Disk) (offset : nat) (top : Q)
  (ps : list Photo) :
  let rowY := fun r => Nat.iter r (fun y => (y + (photoSize + 30))%Q) top in
  forall idx g h,
    cellAt rowY idx g ->
    exists cells,
      emitted (forEachFrom (gridCell disk offset) idx ps g) h = concat cells /\
      length cells = length ps /\
      (forall k photo, nth_error ps k = Some photo ->
         exists g' h',
           cellAt rowY (idx + k) g' /\
           nth_error cells k
           = Some (emitted (gridCell disk offset photo (idx + k) g') h')) /\
      cellAt rowY (idx + length ps)
        (fst (forEachFrom (gridCell disk offset) idx ps g h)).
Proof.
  intros rowY.
  induction ps as [|p ps IH]; intros idx g h Hg.
  - exists []. cbn [forEachFrom length]. rewrite Nat.add_0_r.
    repeat split; try apply Hg. intros [|k] photo; discriminate.
  - cbn [forEachFrom]. rewrite emitted_bind, fst_bind.
    pose proof (cellAt_next top idx g Hg) as Hnext.
    rewrite <- (gridCell_next disk offset p idx g h) in Hnext.
    destruct (IH (S idx) _ (h ++ emitted (gridCell disk offset p idx g) h) Hnext)
      as (cells & Hcells & Hlen & Hnth & Hlast).
    exists (emitted (gridCell disk offset p idx g) h :: cells).
    split; [cbn [concat]; now rewrite Hcells|].
    split; [cbn [length]; now rewrite Hlen|]. split.
    + intros [|k] photo Hk.
      * injection Hk as <-. exists g, h. rewrite Nat.add_0_r. now split.
      * destruct (Hnth k photo Hk) as (g' & h' & Hat & Hcell).
        exists g', h'. replace (idx + S k) with (S idx + k) by lia. now split.
    + cbn [length]. replace (idx + S (length ps)) with (S idx + length ps) by lia.
      exact Hlast.
Qed.

(** X14.  A grid lays its photos out three a row, from the cursor down.
    The cell of the photo at index [k] is drawn with [count = k], in
    column [k mod 3] (at 50, 190 or 330 points), at the height of row
    [k / 3]: the cells of a row share their [y], the first row is at the
    cursor, and every row is further down the page than the row before.
    The value that the grid returns is the height of the row after the
    last photo, so the cursor itself for a grid without photos. *)
Theorem photoGrid_geometry (cursorY : list Call -> Q) (disk : Disk)
  (offset : nat) (ps : list Photo) (h : list Call) :
  exists cells rowY,
    emitted (photoGrid cursorY disk offset ps) h = concat cells /\
    length cells = length ps /\
    rowY 0 = cursorY h /\
    (forall r, (rowY r < rowY (S r))%Q) /\
    (forall k photo, nth_error ps k = Some photo ->
       exists g h',
         cellAt rowY k g /\
         nth_error cells k
         = Some (emitted (gridCell disk offset photo k g) h')) /\
    fst (photoGrid cursorY disk offset ps h) = rowY ((length ps + 2) / 3).
Proof.
  unfold photoGrid, forEach.
  set (rowY := fun r => Nat.iter r (fun y => (y + (photoSize + 30))%Q)
                          (cursorY h)).
  assert (Hstart : cellAt rowY 0
                     {| gx := marginLeft; gy := cursorY h; gcount := 0 |}).
  { unfold cellAt, cellX. cbn. now repeat split. }
  destruct (gridCells_geometry disk offset (cursorY h) ps 0 _ (h ++ []) Hstart)
    as (cells & Hcells & Hlen & Hnth & Hc & _ & Hy).
  exists cells, rowY.
  rewrite emitted_bind_docY, emitted_bind, emitted_ret, app_nil_r.
  split; [exact Hcells|]. split; [exact Hlen|]. split; [reflexivity|].
  split; [intros r; apply row_below|]. split; [exact Hnth|].
  rewrite !fst_bind. cbn [docY fst emitted snd app].
  cbn [ret fst].
  rewrite Hc. cbn [Nat.add] in *.
  pose proof (Nat.div_mod_eq (length ps) 3).
  pose proof (Nat.div_mod_eq (length ps + 2) 3).
  pose proof (Nat.mod_upper_bound (length ps) 3 ltac:(lia)).
  pose proof (Nat.mod_upper_bound (length ps + 2) 3 ltac:(lia)).
  destruct (length ps mod 3 =? 0) eqn:E; cbn [negb]; rewrite Hy.
  - apply Nat.eqb_eq in E.
    replace ((length ps + 2) / 3) with (length ps / 3) by lia. reflexivity.
  - apply Nat.eqb_neq in E.
    replace ((length ps + 2) / 3) with (S (length ps / 3)) by lia. reflexivity.
Qed.

Lemma photoGrid_geometry_witness :
  exists (rowY : nat -> Q) (g : Grid),
    rowY 0 = 200%Q /\ cellAt rowY 3 g.
Proof.
  destruct (photoGrid_geometry (fun _ => 200%Q) blankDisk 0
              [samplePhoto "a"; samplePhoto "b"; samplePhoto "c";
               samplePhoto "d"] [])
    as (cells & rowY & _ & _ & Htop & _ & Hnth & _).
  destruct (Hnth 3 (samplePhoto "d") eq_refl) as (g & h' & Hat & _).
  exists rowY, g. split; [exact Htop|exact Hat].
Defined.

(** * Further properties of the store *)

Lemma updateFound_length (i : jsstring) (f : Report -> Report)
  (rs : list Report) :
  length (updateFound i f rs) = length rs.
Proof.
  induction rs as [|q rs IH]; [reflexivity|]. cbn [updateFound].
  destruct (jsstring_eqb (id q) i); cbn [length]; congruence.
Qed.

Lemma updateFound_others (i : jsstring) (f : Report -> Report)
  (rs : list Report) :
  forall k r,
    nth_error rs k = Some r -> id r <> i ->
    nth_error (updateFound i f rs) k = Some r.
Proof.
  induction rs as [|q rs IH]; intros k r Hk Hid; [now destruct k|].
  cbn [updateFound]. destruct (jsstring_eqb (id q) i) eqn:E.
  - apply jsstring_eqb_eq in E. destruct k as [|k]; [|exact Hk].
    injection Hk as ->. contradiction.
  - destruct k as [|k]; [exact Hk|]. now apply IH.
Qed.

(** X15.  The store under the handlers that address a report.  Reading a
    report, its document or the list, and sending the email, leave the
    store as it is.  An id that no report bears is answered 404 with the
    same message by the five handlers, the store unchanged.  An analysis
    or a patch neither adds nor removes a report and leaves every report
    with another id in its place, unchanged. *)
Theorem addressed_report_only (env : Env) (i : jsstring) (rs : list Report) :
  (forall email,
      snd (getReports rs) = rs /\
      snd (getReport i rs) = rs /\
      snd (getPdf env i rs) = rs /\
      snd (emailReport env i email rs) = rs) /\
  (findReport i rs = None ->
   forall force body email,
     getReport i rs = (error 404 "Report not found", rs) /\
     getPdf env i rs = (error 404 "Report not found", rs) /\
     emailReport env i email rs = (error 404 "Report not found", rs) /\
     analyze env i force rs = (error 404 "Report not found", rs) /\
     patchReport i body rs = (error 404 "Report not found", rs)) /\
  (forall force body,
      length (snd (analyze env i force rs)) = length rs /\
      length (snd (patchReport i body rs)) = length rs /\
      forall k r,
        nth_error rs k = Some r -> id r <> i ->
        nth_error (snd (analyze env i force rs)) k = Some r /\
        nth_error (snd (patchReport i body rs)) k = Some r).
Proof.
  split; [|split].
  - intros email. unfold getReports, getReport, getPdf, emailReport.
    destruct (findReport i rs) as [r|]; cbv zeta; repeat split.
    + now destruct (outcome _).
    + destruct (outcome _); [destruct (sendMail _ _ _)|]; reflexivity.
  - intros Hnone force body email.
    unfold getReport, getPdf, emailReport, analyze, patchReport.
    now rewrite Hnone.
  - intros force body. unfold analyze, patchReport.
    destruct (findReport i rs) as [r|]; cbv zeta.
    + assert (Ha : forall k q,
                 nth_error rs k = Some q -> id q <> i ->
                 nth_error
                   (snd (if truthy (aiReport r) && negb force
                         then (json (AiReportBody (fromOption (aiReport r))), rs)
                         else
                           match generateReportContent env
                                   (map (fun photo =>
                                           {| pd_description := description photo;
                                              pd_type := type photo;
                                              pd_transcription := transcription photo |})
                                      (photos r)) with
                           | Some ai =>
                               (json (AiReportBody ai),
                                updateFound i (set_aiReport (Some ai)) rs)
                           | None => (error 500 "Failed to analyze report", rs)
                           end)) k = Some q).
      { intros k q Hk Hid. destruct (_ && _); [exact Hk|].
        destruct (generateReportContent _ _); [|exact Hk].
        now apply updateFound_others. }
      split; [|split].
      * destruct (_ && _); [reflexivity|].
        destruct (generateReportContent _ _); [|reflexivity].
        apply updateFound_length.
      * apply updateFound_length.
      * intros k q Hk Hid. split; [now apply Ha|].
        now apply updateFound_others.
    + repeat split; assumption.
Qed.

Lemma addressed_report_only_witness :
  analyze sampleEnv (js "7") true [sampleReport None]
  = (error 404 "Report not found", [sampleReport None]) /\
  nth_error (snd (patchReport (js "7") [] [sampleReport None])) 0
  = Some (sampleReport None).
Proof.
  pose proof (addressed_report_only sampleEnv (js "7") [sampleReport None])
    as (_ & Hnone & Hframe).
  split.
  - apply (Hnone eq_refl true [] []).
  - apply (proj2 (proj2 (Hframe true [])) 0 (sampleReport None) eq_refl).
    discriminate.
Defined.

(** * The client and the creation handler *)

Lemma js_inj (s t : string) : js s = js t -> s = t.
Proof.
  unfold js. intros H.
  rewrite <- (string_of_list_ascii_of_string s),
    <- (string_of_list_ascii_of_string t).
  f_equal. revert H.
  generalize (list_ascii_of_string s) (list_ascii_of_string t).
  induction l as [|a l IH]; intros [|b l']; cbn [map]; try discriminate;
    [reflexivity|].
  intros [= Hab Hl]. f_equal; [|now apply IH].
  now rewrite <- (ascii_N_embedding a), <- (ascii_N_embedding b), Hab.
Qed.

Lemma ofNat_inj (n m : nat) : ofNat n = ofNat m -> n = m.
Proof.
  unfold ofNat. intros H. apply js_inj in H.
  apply Unsigned.to_uint_inj.
  pose proof (NilEmpty.usu (Nat.to_uint n)) as Hn.
  rewrite H, NilEmpty.usu in Hn. congruence.
Qed.

Lemma audioFileName_inj (i j : nat) :
  Client.audioFileName i = Client.audioFileName j -> i = j.
Proof.
  unfold Client.audioFileName. intros H.
  apply app_inv_head, app_inv_tail, ofNat_inj in H. lia.
Qed.

Lemma voiceNamesFrom_In (items : list Client.Item) :
  forall idx name,
    In name (Client.voiceNamesFrom idx items) ->
    exists j, idx <= j /\ name = Client.audioFileName j.
Proof.
  induction items as [|item rest IH]; intros idx name Hin; [now destruct Hin|].
  cbn [Client.voiceNamesFrom] in Hin.
  destruct (Client.noteType item).
  - destruct (IH _ _ Hin) as (j & Hj & ->). exists j. split; [lia|reflexivity].
  - destruct Hin as [<-|Hin]; [now exists idx|].
    destruct (IH _ _ Hin) as (j & Hj & ->). exists j. split; [lia|reflexivity].
Qed.

Lemma voiceNamesFrom_NoDup (items : list Client.Item) :
  forall idx, NoDup (Client.voiceNamesFrom idx items).
Proof.
  induction items as [|item rest IH]; intros idx; [constructor|].
  cbn [Client.voiceNamesFrom]. destruct (Client.noteType item); [apply IH|].
  constructor; [|apply IH]. intros Hin.
  destruct (voiceNamesFrom_In _ _ _ Hin) as (j & Hj & Heq).
  apply audioFileName_inj in Heq. lia.
Qed.

Lemma voiceNamesFrom_nth (items : list Client.Item) :
  forall idx k item,
    nth_error items k = Some item ->
    Client.noteType item = Client.VoiceNote ->
    In (Client.audioFileName (idx + k)) (Client.voiceNamesFrom idx items).
Proof.
  induction items as [|i rest IH]; intros idx k item Hk Hv; [now destruct k|].
  cbn [Client.voiceNamesFrom]. destruct k as [|k].
  - injection Hk as ->. rewrite Hv, Nat.add_0_r. now left.
  - replace (idx + S k) with (S idx + k) by lia.
    destruct (Client.noteType i); [|right]; now apply IH with item.
Qed.

(** The files that the middleware hands over for the entries of the
    items: one photo each, and the recordings under their names. *)
Lemma filesFrom_items (stored : nat -> jsstring) (tail : list Client.Entry)
  (items : list Client.Item) :
  (forall field n, filesFrom stored field n tail = []) ->
  forall idx n,
    length (filesFrom stored (js "photos") n
              (concat (mapFrom Client.itemEntries idx items) ++ tail))
    = length items /\
    map originalname
      (filesFrom stored (js "voices") n
         (concat (mapFrom Client.itemEntries idx items) ++ tail))
    = Client.voiceNamesFrom idx items.
Proof.
  intros Htail.
  assert (Hpv : jsstring_eqb (js "photos") (js "voices") = false) by reflexivity.
  assert (Hvp : jsstring_eqb (js "voices") (js "photos") = false) by reflexivity.
  assert (Hpp : jsstring_eqb (js "photos") (js "photos") = true) by reflexivity.
  assert (Hvv : jsstring_eqb (js "voices") (js "voices") = true) by reflexivity.
  induction items as [|item rest IH]; intros idx n.
  - cbn [mapFrom concat app length Client.voiceNamesFrom]. now rewrite !Htail.
  - cbn [mapFrom concat Client.voiceNamesFrom]. unfold Client.itemEntries.
    destruct (Client.noteType item); cbn [app filesFrom];
      rewrite ?Hpv, ?Hvp, ?Hpp, ?Hvv; cbn [length map originalname];
      fold Client.itemEntries.
    + destruct (IH (S idx) (S n)) as [-> ->]. now split.
    + destruct (IH (S idx) (S (S n))) as [-> ->]. now split.
Qed.

Lemma fieldOf_items (key : jsstring) (tail : list Client.Entry)
  (items : list Client.Item) :
  forall idx,
    fieldOf key (concat (mapFrom Client.itemEntries idx items) ++ tail)
    = fieldOf key tail.
Proof.
  induction items as [|item rest IH]; intros idx; [reflexivity|].
  cbn [mapFrom concat]. unfold Client.itemEntries.
  destruct (Client.noteType item); cbn [app fieldOf]; apply IH.
Qed.

Lemma fieldOf_file (key k : jsstring) (p : Client.Part)
  (before : list Client.Entry) :
  fieldOf key (before ++ [Client.FileEntry k p]) = fieldOf key before.
Proof.
  induction before as [|[k' p'|k' v'] before IH]; cbn [app fieldOf];
    [reflexivity|exact IH|].
  now destruct (jsstring_eqb k' key).
Qed.

(** The middleware stops at none of the files of the items: each has a
    place left, a type that the filter accepts, and no descriptions have
    been sent before it. *)
Lemma checkFiles_items (env : Env) (tail : list Client.Entry)
  (items : list Client.Item) :
  (forall before photosLeft voicesLeft,
      checkFiles env before photosLeft voicesLeft tail = Passes) ->
  (forall item, In item items ->
                fileFilter (Client.orDefault (Client.mimeType (Client.photo item))
                              (js "image/jpeg")) = true) ->
  forall idx before photosLeft voicesLeft,
    fieldOf (js "photoDescriptions") before = None ->
    length items <= photosLeft ->
    length items <= voicesLeft ->
    checkFiles env before photosLeft voicesLeft
      (concat (mapFrom Client.itemEntries idx items) ++ tail)
    = Passes.
Proof.
  intros Htail.
  assert (Hvp : jsstring_eqb (js "voices") (js "photos") = false) by reflexivity.
  assert (Hpp : jsstring_eqb (js "photos") (js "photos") = true) by reflexivity.
  assert (Hvv : jsstring_eqb (js "voices") (js "voices") = true) by reflexivity.
  assert (Haudio : fileFilter (js "audio/m4a") = true) by reflexivity.
  assert (Hquiet : forall before,
             fieldOf (js "photoDescriptions") before = None ->
             filenameThrows env before = false).
  { intros before H. unfold filenameThrows. now rewrite H. }
  induction items as [|item rest IH];
    intros Hmime idx before photosLeft voicesLeft Hbefore Hp Hv;
    [apply Htail|].
  assert (Hrest := IH (fun i Hi => Hmime i (or_intror Hi)) (S idx)).
  assert (Hitem := Hmime item (or_introl eq_refl)).
  cbn [length] in Hp, Hv.
  destruct photosLeft as [|photosLeft]; [lia|].
  destruct voicesLeft as [|voicesLeft]; [lia|].
  cbn [mapFrom concat]. unfold Client.itemEntries at 1.
  destruct (Client.noteType item); cbn [app checkFiles]; cbv zeta;
    cbn [Client.photoPart Client.part_type Client.voicePart];
    rewrite ?Hpp, ?Hvp, ?Hvv, Hitem, ?Haudio, (Hquiet before Hbefore);
    cbn [negb].
  - apply Hrest; [now rewrite fieldOf_file|lia|lia].
  - rewrite Hquiet by now rewrite fieldOf_file.
    apply Hrest; [now rewrite !fieldOf_file|lia|lia].
Qed.

Lemma parsedNote_nth (items : list Client.Item) (k : nat) (item : Client.Item) :
  nth_error items k = Some item ->
  nth k (map parsedNote (mapFrom Client.itemNote 0 items)) noProperties
  = parsedNote (Client.itemNote item k).
Proof.
  intros Hk. apply nth_error_nth.
  now rewrite nth_error_map, nth_error_mapFrom, Hk.
Qed.

Lemma length_mapFrom {A B} (f : A -> nat -> B) (l : list A) :
  forall idx, length (mapFrom f idx l) = length l.
Proof.
  induction l as [|a l IH]; intros idx; [reflexivity|].
  cbn [mapFrom length]. now rewrite IH.
Qed.

Lemma existsb_originalname (voiceFiles : list File) (name : jsstring) :
  In name (map originalname voiceFiles) ->
  existsb (fun f => jsstring_eqb (originalname f) name) voiceFiles = true.
Proof.
  intros Hin. apply in_map_iff in Hin as (f & <- & Hf).
  apply existsb_exists. exists f. split; [exact Hf|].
  now apply jsstring_eqb_eq.
Qed.

Lemma voiceNamesFrom_length (items : list Client.Item) :
  forall idx, length (Client.voiceNamesFrom idx items) <= length items.
Proof.
  induction items as [|item rest IH]; intros idx; [reflexivity|].
  cbn [Client.voiceNamesFrom]. specialize (IH (S idx)).
  destruct (Client.noteType item); cbn [length]; lia.
Qed.

Lemma voiceUploaded_note (voiceFiles : list File) (item : Client.Item)
  (k : nat) :
  voiceUploaded voiceFiles (parsedNote (Client.itemNote item k))
  = match Client.noteType item with
    | Client.TextNote => true
    | Client.VoiceNote =>
        existsb (fun f => jsstring_eqb (originalname f) (Client.audioFileName k))
          voiceFiles
    end.
Proof.
  unfold voiceUploaded, parsedNote, Client.itemNote.
  now destruct (Client.noteType item).
Qed.

(** The photo that the handler builds from an element of the client's
    [photoDescriptions]. *)
Lemma photoOf_note (env : Env) (voiceFiles : list File) (imageFile : File)
  (item : Client.Item) (k : nat) :
  photoOf env voiceFiles imageFile (parsedNote (Client.itemNote item k))
  = match Client.noteType item with
    | Client.TextNote =>
        {| path := file_path imageFile; description := Client.note item;
           type := js "text"; transcription := [] |}
    | Client.VoiceNote =>
        let heard :=
          match findVoiceFile voiceFiles (Client.audioFileName k) with
          | Some audioFile =>
              match speechToText env (file_path audioFile) with
              | Some t => t
              | None => []
              end
          | None => []
          end in
        {| path := file_path imageFile; description := heard;
           type := js "voice"; transcription := heard |}
    end.
Proof.
  unfold photoOf, parsedNote, Client.itemNote.
  destruct (Client.noteType item); [reflexivity|].
  cbn [d_description d_type d_voiceFile fromOption Client.noteTypeName
         Client.n_type Client.n_description Client.n_voiceFile].
  change (jsstring_eqb (orElse (js "voice") (js "text")) (js "voice")
          && truthy (Some (Client.audioFileName k))) with true.
  cbv iota zeta.
  destruct (findVoiceFile voiceFiles (Client.audioFileName k)) as [audio|];
    [|reflexivity].
  now destruct (speechToText env (file_path audio)).
Qed.



(** ** An edit saved from the preview *)

(** X17.  A narrative saved from the preview is the one that is served
    afterwards: a read returns the report with the edited narrative and
    its other properties as they were, the document is assembled from
    that report, and an analysis that is not forced answers the edited
    narrative and leaves the store as it is, unless the narrative saved
    is empty. *)
Theorem saved_edit_is_served (env : Env) (i : jsstring) (rs : list Report)
  (r : Report) (aiReportEdit : jsstring) :
  findReport i rs = Some r ->
  let edited := set_aiReport (Some aiReportEdit) r in
  let rs' := snd (patchReport i (handleSaveEdit aiReportEdit) rs) in
  getReport i rs' = (json (ReportBody edited), rs') /\
  getPdf env i rs'
  = (match outcome (generateFormattedPDF (cursorY env) (disk env) edited
                      (pdfPath r)) with
     | Resolved _ =>
         json (DownloadBody
                 (calls (generateFormattedPDF (cursorY env) (disk env) edited
                           (pdfPath r))))
     | Rejected => error 500 "Failed to generate PDF content"
     end, rs') /\
  (aiReportEdit <> [] ->
   analyze env i false rs' = (json (AiReportBody aiReportEdit), rs')).
Proof.
  intros Hfind edited rs'.
  assert (Hid : id r = i)
    by now destruct (findReport_split _ _ _ Hfind) as (_ & _ & _ & Hid & _).
  assert (Hfound : findReport i rs' = Some edited).
  { unfold rs', patchReport. rewrite Hfind. cbn [snd handleSaveEdit fold_left assign].
    now apply (findReport_updateFound i (fun _ => edited) rs r Hfind). }
  split; [|split].
  - unfold getReport. now rewrite Hfound.
  - unfold getPdf. rewrite Hfound. cbv zeta.
    change (pdfPath edited) with (pdfPath r). now destruct (outcome _).
  - intros Hne. unfold analyze. rewrite Hfound.
    cbn [edited aiReport set_aiReport truthy fromOption].
    destruct aiReportEdit; [congruence|reflexivity].
Qed.

Lemma saved_edit_is_served_witness :
  analyze sampleEnv (js "1700000000000") false
    (snd (patchReport (js "1700000000000")
            (handleSaveEdit (js "Photo 1: fixed")) [sampleReport None]))
  = (json (AiReportBody (js "Photo 1: fixed")),
     snd (patchReport (js "1700000000000")
            (handleSaveEdit (js "Photo 1: fixed")) [sampleReport None])).
Proof.
  apply (proj2 (proj2 (saved_edit_is_served sampleEnv (js "1700000000000")
                         [sampleReport None] (sampleReport None)
                         (js "Photo 1: fixed") eq_refl))).
  discriminate.
Defined.

(** ** The prompt and the narrative generated *)

Lemma photoSectionFrom_app (ds : list PhotoDescription) :
  forall i acc,
    Generation.photoSectionFrom i ds acc
    = acc ++ Generation.photoSectionFrom i ds [].
Proof.
  induction ds as [|d ds IH]; intros i acc; cbn [Generation.photoSectionFrom].
  - now rewrite app_nil_r.
  - rewrite IH, (IH _ ([] ++ _)).
    repeat (progress (rewrite <- ?app_assoc; cbn [app])). reflexivity.
Qed.

Lemma photoSectionFrom_entry (ds : list PhotoDescription) :
  forall i k d,
    nth_error ds k = Some d ->
    exists pre post,
      Generation.photoSectionFrom i ds []
      = pre ++ promptEntry (i + k) (pd_description d) ++ post.
Proof.
  induction ds as [|d0 ds IH]; intros i k d Hk; [now destruct k|].
  cbn [Generation.photoSectionFrom]. rewrite photoSectionFrom_app.
  destruct k as [|k].
  - injection Hk as ->. rewrite Nat.add_0_r.
    exists [], (Generation.photoSectionFrom (S i) ds []).
    unfold promptEntry.
    repeat (progress (rewrite <- ?app_assoc; cbn [app])). reflexivity.
  - destruct (IH (S i) k d Hk) as (pre & post & ->).
    replace (i + S k) with (S i + k) by lia.
    match goal with
    | |- exists _ _, ?a ++ pre ++ _ = _ => exists (a ++ pre), post
    end.
    apply app_assoc.
Qed.

Lemma photoSectionFrom_descriptions (ds ds' : list PhotoDescription) :
  map pd_description ds = map pd_description ds' ->
  forall i acc,
    Generation.photoSectionFrom i ds acc = Generation.photoSectionFrom i ds' acc.
Proof.
  revert ds'. induction ds as [|d ds IH]; intros [|d' ds'] H i acc;
    try discriminate; [reflexivity|].
  cbn [map] in H. injection H as Hd Hds.
  cbn [Generation.photoSectionFrom]. rewrite Hd. now apply IH.
Qed.

Lemma removeAsterisks_plain (s : jsstring) : ~ In 42%N (removeAsterisks s).
Proof.
  unfold removeAsterisks. intros H. apply filter_In in H as [_ H].
  discriminate H.
Qed.

(** X18.  What reaches the language model and what comes back.  The
    prompt of an analysis holds, for every photo of the report, its
    number by position and its description; it depends on nothing else
    of the photos, so neither on their types nor on their transcriptions.
    The narrative that an analysis answers and stores after a call to
    the model holds no asterisk, whatever the model wrote. *)
Theorem generated_narrative_is_plain (model : jsstring -> option jsstring)
  (env : Env) :
  generateReportContent env = Generation.generateReportContent model ->
  (forall r k photo,
      nth_error (photos r) k = Some photo ->
      includes (promptEntry k (description photo))
        (Generation.prompt (describe r)) = true) /\
  (forall ds ds',
      map pd_description ds = map pd_description ds' ->
      Generation.prompt ds = Generation.prompt ds') /\
  (forall i force rs r ai,
      findReport i rs = Some r ->
      truthy (aiReport r) && negb force = false ->
      fst (analyze env i force rs) = json (AiReportBody ai) ->
      model (Generation.prompt (describe r)) <> None /\
      ~ In 42%N ai /\
      findReport i (snd (analyze env i force rs))
      = Some (set_aiReport (Some ai) r)).
Proof.
  intros Henv. split; [|split].
  - intros r k photo Hk.
    destruct (photoSectionFrom_entry (describe r) 0 k
                {| pd_description := description photo;
                   pd_type := type photo;
                   pd_transcription := transcription photo |})
      as (pre & post & Hsection).
    { unfold describe. now rewrite nth_error_map, Hk. }
    cbn [pd_description Nat.add] in Hsection.
    destruct (includes _ _) eqn:E; [reflexivity|exfalso].
    apply (includes_false _ _ E (Generation.promptHead ++ pre)
             (post ++ Generation.promptFoot)).
    unfold Generation.prompt. rewrite Hsection. now rewrite <- !app_assoc.
  - intros ds ds' H. unfold Generation.prompt.
    now rewrite (photoSectionFrom_descriptions ds ds' H).
  - intros i force rs r ai Hfind Hcall.
    unfold analyze. rewrite Hfind, Hcall. fold (describe r). rewrite Henv.
    unfold Generation.generateReportContent.
    destruct (model (Generation.prompt (describe r))) as [text|];
      cbn [option_map fst snd]; [|discriminate].
    intros [= <-]. split; [discriminate|]. split; [apply removeAsterisks_plain|].
    apply findReport_updateFound; [exact Hfind|].
    now destruct (findReport_split _ _ _ Hfind) as (_ & _ & _ & Hid & _).
Qed.

Lemma generated_narrative_is_plain_witness :
  includes (promptEntry 1 (js "leaking pipe"))
    (Generation.prompt (describe (sampleReport None))) = true /\
  ~ In 42%N (js "Water damage in kitchen" ++ LF :: js "Photo 1: ok").
Proof.
  pose proof (generated_narrative_is_plain markdownModel
                (withGenerator (Generation.generateReportContent markdownModel)
                   sampleEnv) eq_refl) as (Hprompt & _ & Hplain).
  split.
  - exact (Hprompt (sampleReport None) 1 (samplePhoto "leaking pipe") eq_refl).
  - exact (proj1 (proj2 (Hplain (js "1700000000000") true [sampleReport None]
                           (sampleReport None) _ eq_refl eq_refl eq_refl))).
Defined.
